(** * corgidrp: data model, detector utilities and L1->L2a steps

    A shallow embedding of [corgidrp/data.py], [corgidrp/detector.py] and
    [corgidrp/l1_to_l2a.py].

    - numpy arrays are C-contiguous views [(buffer, offset, shape)] into a
      store of flat buffers, so that two arrays may share memory;
    - [Image] objects and FITS headers live in the same store and are
      referred to by location, as Python objects are;
    - methods run in a state-and-exception monad in which a raised
      exception keeps every effect performed before it;
    - pixel values, gains and thresholds are exact rationals ([Q]). *)

From Stdlib Require Import QArith Qminmax Lia Lqa Sorted.
From stdpp Require Import base option list strings.

Local Open Scope string_scope.
Local Open Scope list_scope.

(** ** The object store *)

(** Locations in the store are positions in its lists. *)
Abbreviation loc := nat (only parsing).
Definition pix := Q.

(** A C-contiguous numpy array: a window of [prod shape] cells of buffer
    [buf] starting at [off]. *)
Record ndarray := NdArray { buf : loc; off : nat; shape : list nat }.

(** Values of FITS header cards. *)
Inductive hval :=
| HStr (s : string)
| HInt (z : Z)
| HReal (q : Q).

Definition card := (string * hval)%type.
Definition Header := list card.

(** [corgidrp.data.Image]: the attributes of one frame object. *)
Record Image := MkImage {
  data : ndarray;
  err : ndarray;
  dq : ndarray;
  pri_hdr : loc;
  ext_hdr : loc;
  filename : string;
  filedir : string
}.

(** [corgidrp.data.Dataset]: [frames] holds references to Image objects. *)
Record Dataset := MkDataset {
  frames : list loc;
  all_data : ndarray;
  all_err : ndarray;
  all_dq : ndarray
}.

Record heap := MkHeap {
  bufs : list (list pix);
  hdrs : list Header;
  imgs : list Image;
  ticks : nat
}.

(** What the package reads from its environment: [corgidrp.version] and
    the successive readings of [time.Time.now().isot]. *)
Class World := { version : string; isot : nat -> string }.

(** ** Exceptions and the monad of Python methods *)

(** [BadReference] and [NotANumber] are not Python exceptions: the first
    marks a dangling location (which Python cannot produce), the second a
    computation whose numpy value is NaN, which the rationals lack. *)
Inductive exn :=
| ValueError (msg : string)
| IndexError
| PyException (msg : string)
| ReadMetadataException (msg : string)
| BadReference
| NotANumber.

Inductive result (A : Type) :=
| Ok (a : A)
| Raise (e : exn).
Arguments Ok {A} a.
Arguments Raise {A} e.

Definition Py (A : Type) : Type := heap -> heap * result A.

Definition py_ret {A} (a : A) : Py A := fun h => (h, Ok a).
Definition py_bind {A B} (m : Py A) (k : A -> Py B) : Py B :=
  fun h => match m h with
           | (h1, Ok a) => k a h1
           | (h1, Raise e) => (h1, Raise e)
           end.
Definition raise {A} (e : exn) : Py A := fun h => (h, Raise e).

Notation "'let*' x ':=' m 'in' k" := (py_bind m (fun x => k))
  (at level 10, x name, m at level 100, k at level 200).
Notation "m '>>' k" := (py_bind m (fun _ => k))
  (at level 65, right associativity).

(** An optional pure value lifted into the monad; [None] becomes [e]. *)
Definition lift_opt {A} (e : exn) (o : option A) : Py A :=
  match o with Some a => py_ret a | None => raise e end.

(** A [for] loop over a list whose body returns nothing. *)
Fixpoint for_each {A} (body : A -> Py unit) (l : list A) : Py unit :=
  match l with
  | [] => py_ret tt
  | x :: l' => body x >> for_each body l'
  end.

(** A list comprehension [[f x for x in l]]. *)
Fixpoint comprehension {A B} (f : A -> Py B) (l : list A) : Py (list B) :=
  match l with
  | [] => py_ret []
  | x :: l' => let* y := f x in let* ys := comprehension f l' in py_ret (y :: ys)
  end.

(** ** Python sequences *)

(** Python's [l[start:stop]] for integer bounds: a negative bound counts
    from the end, and both are clipped to the length. *)
Definition slice_bound (len : nat) (z : Z) : nat :=
  if (z <? 0)%Z then Z.to_nat (Z.max 0 (z + Z.of_nat len))
  else Nat.min (Z.to_nat z) len.

Definition py_slice {A} (l : list A) (start stop : Z) : list A :=
  let a := slice_bound (length l) start in
  let b := slice_bound (length l) stop in
  take (b - a) (drop a l).

(** ** numpy arrays *)

Definition size_of (s : list nat) : nat := foldr Nat.mul 1%nat s.

(** Row-major offset of a full index. *)
Fixpoint ravel_index (s idx : list nat) : option nat :=
  match s, idx with
  | [], [] => Some 0%nat
  | n :: s', i :: idx' =>
      if decide (i < n)%nat then
        match ravel_index s' idx' with
        | Some r => Some (i * size_of s' + r)%nat
        | None => None
        end
      else None
  | _, _ => None
  end.

(** [a[idx]] and [a[idx] = v] for a full index. *)
Definition getitem (a : ndarray) (idx : list nat) (h : heap) : option pix :=
  o ← ravel_index (shape a) idx;
  b ← bufs h !! buf a;
  b !! (off a + o)%nat.

Definition set_bufs (bs : list (list pix)) (h : heap) : heap :=
  MkHeap bs (hdrs h) (imgs h) (ticks h).
Definition set_hdrs (hs : list Header) (h : heap) : heap :=
  MkHeap (bufs h) hs (imgs h) (ticks h).
Definition set_imgs (ims : list Image) (h : heap) : heap :=
  MkHeap (bufs h) (hdrs h) ims (ticks h).

Definition setitem (a : ndarray) (idx : list nat) (v : pix) (h : heap)
  : option heap :=
  o ← ravel_index (shape a) idx;
  b ← bufs h !! buf a;
  if decide (off a + o < length b)%nat
  then Some (set_bufs (<[buf a := <[(off a + o)%nat := v]> b]> (bufs h)) h)
  else None.

(** The flat contents of an array. *)
Definition contents (a : ndarray) (h : heap) : option (list pix) :=
  b ← bufs h !! buf a;
  if decide (off a + size_of (shape a) <= length b)%nat
  then Some (take (size_of (shape a)) (drop (off a) b))
  else None.

Definition read (a : ndarray) : Py (list pix) :=
  fun h => lift_opt BadReference (contents a h) h.

(** A fresh buffer holding [c], seen with shape [s]. *)
Definition alloc (s : list nat) (c : list pix) : Py ndarray :=
  fun h => (set_bufs (bufs h ++ [c]) h, Ok (NdArray (length (bufs h)) 0 s)).

(** [np.copy(a)]. *)
Definition np_copy (a : ndarray) : Py ndarray :=
  let* c := read a in alloc (shape a) c.

(** [np.zeros(s)]. *)
Definition np_zeros (s : list nat) : Py ndarray :=
  alloc s (replicate (size_of s) 0%Q).

(** [np.array([a1, ..., an])] for arrays: a new array of shape
    [n :: shape a1] holding copies of the [ai]; numpy refuses a list of
    arrays of differing shapes. *)
Definition np_array (l : list ndarray) : Py ndarray :=
  match l with
  | [] => alloc [0%nat] []
  | a :: _ =>
      if forallb (fun b => bool_decide (shape b = shape a)) l then
        let* cs := comprehension read l in
        alloc (length l :: shape a) (concat cs)
      else raise (ValueError "inhomogeneous shape")
  end.

(** [a[i]]: the view of the [i]-th slice along the leading axis. *)
Definition subarray (a : ndarray) (i : nat) : Py ndarray :=
  match shape a with
  | n :: s =>
      if decide (i < n)%nat
      then py_ret (NdArray (buf a) (off a + i * size_of s) s)
      else raise IndexError
  | [] => raise IndexError
  end.

(** [a[:] = c]: overwrite the cells of [a] with the flat contents [c]. *)
Definition assign_all (a : ndarray) (c : list pix) : Py unit :=
  fun h =>
    match bufs h !! buf a with
    | Some b =>
        if decide (off a + size_of (shape a) <= length b
                   /\ length c = size_of (shape a))%nat
        then (set_bufs (<[buf a := take (off a) b ++ c
                                    ++ drop (off a + size_of (shape a)) b]>
                          (bufs h)) h, Ok tt)
        else (h, Raise BadReference)
    | None => (h, Raise BadReference)
    end.

(** ** FITS headers (astropy.io.fits.Header) *)

Definition is_commentary (k : string) : bool :=
  bool_decide (k = "HISTORY" \/ k = "COMMENT" \/ k = "").

Definition has_key (k : string) (hd : Header) : bool :=
  existsb (fun c => bool_decide (c.1 = k)) hd.

(** Replace the value of the first card named [k]. *)
Fixpoint update_first (k : string) (v : hval) (hd : Header) : Header :=
  match hd with
  | [] => []
  | c :: hd' => if bool_decide (c.1 = k) then (k, v) :: hd'
                else c :: update_first k v hd'
  end.

(** Insert a card just after the last card named [k]. *)
Fixpoint insert_after_last (k : string) (v : hval) (hd : Header) : Header :=
  match hd with
  | [] => []
  | c :: hd' =>
      if has_key k hd' then c :: insert_after_last k v hd'
      else if bool_decide (c.1 = k) then c :: (k, v) :: hd'
      else c :: hd'
  end.

(** Insert a card before the trailing block of commentary cards. *)
Fixpoint insert_before_trailer (c : card) (hd : Header) : Header :=
  match hd with
  | [] => [c]
  | c' :: hd' =>
      if forallb (fun x => is_commentary x.1) hd then c :: hd
      else c' :: insert_before_trailer c hd'
  end.

(** [Header._update]: what [hd[k] = v] and [hd.set(k, v, comment)] do.
    A commentary keyword (HISTORY) always adds a card, after the last card
    of that keyword or at the bottom; any other keyword overwrites its
    first card, or is added above the trailing commentary cards.  Card
    comments and the splitting of long commentary text over several cards
    are left out. *)
Definition header_update (k : string) (v : hval) (hd : Header) : Header :=
  if negb (is_commentary k) && has_key k hd then update_first k v hd
  else if is_commentary k then
    if has_key k hd then insert_after_last k v hd else hd ++ [(k, v)]
  else insert_before_trailer (k, v) hd.

(** [hd[k]]: the value of the first card named [k]. *)
Definition header_get (k : string) (hd : Header) : option hval :=
  snd <$> List.find (fun c => bool_decide (c.1 = k)) hd.

(** The text of the HISTORY cards, in order. *)
Definition history (hd : Header) : list hval :=
  snd <$> List.filter (fun c => bool_decide (c.1 = "HISTORY")) hd.

Definition get_hdr (l : loc) : Py Header :=
  fun h => lift_opt BadReference (hdrs h !! l) h.

(** [hd.copy()]: a new header object with the same cards. *)
Definition hdr_copy (l : loc) : Py loc :=
  let* hd := get_hdr l in
  fun h => (set_hdrs (hdrs h ++ [hd]) h, Ok (length (hdrs h))).

(** [hd[k] = v] on the header object at [l]. *)
Definition hdr_set (l : loc) (k : string) (v : hval) : Py unit :=
  let* hd := get_hdr l in
  fun h => (set_hdrs (<[l := header_update k v hd]> (hdrs h)) h, Ok tt).

(** [time.Time.now().isot]. *)
Definition now `{World} : Py string :=
  fun h => (MkHeap (bufs h) (hdrs h) (imgs h) (S (ticks h)), Ok (isot (ticks h))).

(** ** Image *)

Definition get_img (l : loc) : Py Image :=
  fun h => lift_opt BadReference (imgs h !! l) h.

Definition new_img (im : Image) : Py loc :=
  fun h => (set_imgs (imgs h ++ [im]) h, Ok (length (imgs h))).

(** Attribute assignment on the Image object at [l]. *)
Definition modify_img (l : loc) (f : Image -> Image) : Py unit :=
  let* im := get_img l in
  fun h => (set_imgs (<[l := f im]> (imgs h)) h, Ok tt).

Definition with_arrays (d e q : ndarray) (im : Image) : Image :=
  MkImage d e q (pri_hdr im) (ext_hdr im) (filename im) (filedir im).
Definition with_file (name dir : string) (im : Image) : Image :=
  MkImage (data im) (err im) (dq im) (pri_hdr im) (ext_hdr im) name dir.

(** The [err]/[dq] arguments of [Image.__init__]: a supplied array must
    have the shape of [data], a missing one is zero-filled. *)
Definition checked_or_zeros (what : string) (d : ndarray) (o : option ndarray)
  : Py ndarray :=
  match o with
  | Some a => if decide (shape d <> shape a)
              then raise (ValueError what) else py_ret a
  | None => np_zeros (shape d)
  end.

(** [Image.__init__(data, pri_hdr, ext_hdr, err, dq)] on the branch where
    the first argument is an array (the branch that reads a FITS file from
    disk is not modelled). *)
Definition Image_init `{World} (d : ndarray) (pri ext : option loc)
    (e q : option ndarray) : Py loc :=
  match pri, ext with
  | Some p, Some x =>
      let* e' := checked_or_zeros "The shape of err" d e in
      let* q' := checked_or_zeros "The shape of dq" d q in
      hdr_set x "DRPVERSN" (HStr version) >>
      let* t := now in
      hdr_set x "DRPCTIME" (HStr t) >>
      new_img (MkImage d e' q' p x "" ".")
  | _, _ => raise (ValueError "Missing primary and/or extension headers")
  end.

(** [Image.copy(copy_data)]. *)
Definition Image_copy `{World} (self : loc) (copy_data : bool) : Py loc :=
  let* im := get_img self in
  let* new_data := (if copy_data then np_copy (data im) else py_ret (data im)) in
  let* new_err := (if copy_data then np_copy (err im) else py_ret (err im)) in
  let* new_dq := (if copy_data then np_copy (dq im) else py_ret (dq im)) in
  let* p := hdr_copy (pri_hdr im) in
  let* x := hdr_copy (ext_hdr im) in
  let* new := Image_init new_data (Some p) (Some x) (Some new_err) (Some new_dq) in
  modify_img new (with_file (filename im) (filedir im)) >>
  hdr_set (ext_hdr im) "DRPVERSN" (HStr version) >>
  let* t := now in
  hdr_set (ext_hdr im) "DRPCTIME" (HStr t) >>
  py_ret new.

(** ** Dataset *)

(** The loop of [Dataset.__init__] that points every frame at its slice
    of the cubes: [for i, frame in enumerate(self.frames)]. *)
Fixpoint point_frames (ad ae aq : ndarray) (i : nat) (fs : list loc) : Py unit :=
  match fs with
  | [] => py_ret tt
  | f :: fs' =>
      let* d := subarray ad i in
      let* e := subarray ae i in
      let* q := subarray aq i in
      modify_img f (with_arrays d e q) >>
      point_frames ad ae aq (S i) fs'
  end.

(** [Dataset.__init__(frames)] for a list of Image objects (the branch
    that loads file paths is not modelled). *)
Definition Dataset_init (fs : list loc) : Py Dataset :=
  if decide (length fs = 0%nat) then raise (ValueError "Empty list passed in")
  else
    let* ds := comprehension (fun f => let* im := get_img f in py_ret (data im)) fs in
    let* ad := np_array ds in
    let* es := comprehension (fun f => let* im := get_img f in py_ret (err im)) fs in
    let* ae := np_array es in
    let* qs := comprehension (fun f => let* im := get_img f in py_ret (dq im)) fs in
    let* aq := np_array qs in
    point_frames ad ae aq 0 fs >>
    py_ret (MkDataset fs ad ae aq).

(** [Dataset.__getitem__] with a slice [start:stop]: a new Dataset over
    the selected Frame objects, [Dataset(self.frames[indices])]. *)
Definition Dataset_getitem_slice (self : Dataset) (start stop : Z) : Py Dataset :=
  Dataset_init (py_slice (frames self) start stop).

(** One optional replacement array of [update_after_processing_step]. *)
Definition replace_contents (what : string) (old : ndarray) (new : option ndarray)
  : Py unit :=
  match new with
  | Some a =>
      if decide (shape a <> shape old) then raise (ValueError what)
      else let* c := read a in assign_all old c
  | None => py_ret tt
  end.

(** [Dataset.update_after_processing_step]. *)
Definition update_after_processing_step (self : Dataset) (history_entry : string)
    (new_all_data new_all_err new_all_dq : option ndarray) : Py unit :=
  replace_contents "The shape of new_all_data" (all_data self) new_all_data >>
  replace_contents "The shape of new_all_err" (all_err self) new_all_err >>
  replace_contents "The shape of new_all_dq" (all_dq self) new_all_dq >>
  for_each (fun f => let* im := get_img f in
                     hdr_set (ext_hdr im) "HISTORY" (HStr history_entry))
           (frames self).

(** [Dataset.copy(copy_data)]. *)
Definition Dataset_copy `{World} (self : Dataset) (copy_data : bool) : Py Dataset :=
  let* new_frames := comprehension (fun f => Image_copy f copy_data) (frames self) in
  Dataset_init new_frames.

(** ** Numeric helpers (numpy / scipy) *)

(** What floating point contributes beyond field arithmetic: [np.sqrt]. *)
Class Floating := { np_sqrt : Q -> Q }.

Definition Qgeb (x y : Q) : bool := Qle_bool y x.
Definition Qltb (x y : Q) : bool := negb (Qle_bool y x).

Fixpoint insert_sorted (x : Q) (l : list Q) : list Q :=
  match l with
  | [] => [x]
  | y :: l' => if Qle_bool x y then x :: l else y :: insert_sorted x l'
  end.

Definition np_sort (l : list Q) : list Q := foldr insert_sorted [] l.

Definition Qsum (l : list Q) : Q := foldr Qplus 0%Q l.

Definition np_mean (l : list Q) : Q := (Qsum l / inject_Z (Z.of_nat (length l)))%Q.

(** [np.median] of a 1-D array; numpy yields NaN for an empty one, which
    is [None] here. *)
Definition np_median (l : list Q) : option Q :=
  let s := np_sort l in
  let n := length l in
  if decide (n = 0%nat) then None
  else if Nat.even n
       then Some ((nth (n / 2 - 1) s 0 + nth (n / 2) s 0) / 2)%Q
       else Some (nth (n / 2) s 0%Q).

(** [np.std] of a 1-D array (population standard deviation). *)
Definition np_var (l : list Q) : Q :=
  np_mean (map (fun x => (x - np_mean l) * (x - np_mean l))%Q l).

Definition np_std `{Floating} (l : list Q) : option Q :=
  if decide (length l = 0%nat) then None else Some (np_sqrt (np_var l)).

Definition np_max (l : list Q) : option Q :=
  match l with
  | [] => None
  | x :: l' => Some (foldl Qmax x l')
  end.

Definition np_min (l : list Q) : option Q :=
  match l with
  | [] => None
  | x :: l' => Some (foldl Qmin x l')
  end.

(** [frame[r0:r1, c0:c1]]. *)
Definition slice2 {A} (frame : list (list A)) (r0 r1 c0 c1 : Z) : list (list A) :=
  map (fun row => py_slice row c0 c1) (py_slice frame r0 r1).

(** [l[a:b] = 1] on a mask row. *)
Definition fill_slice (a b : Z) (l : list Z) : list Z :=
  let a' := slice_bound (length l) a in
  let b' := slice_bound (length l) b in
  imap (fun k x => if decide (a' <= k < b')%nat then 1%Z else x) l.

(** [m[r0:r1, c0:c1] = 1] on a 2-D mask. *)
Definition fill_box (r0 r1 c0 c1 : Z) (m : list (list Z)) : list (list Z) :=
  let a := slice_bound (length m) r0 in
  let b := slice_bound (length m) r1 in
  imap (fun k row => if decide (a <= k < b)%nat then fill_slice c0 c1 row else row) m.

(** [a.reshape(-1, ncols)] of a flat list. *)
Fixpoint reshape_rows {A} (nrows ncols : nat) (l : list A) : list (list A) :=
  match nrows with
  | O => []
  | S n => take ncols l :: reshape_rows n ncols (drop ncols l)
  end.

(** ** detector.py: cosmic rays *)

(** [scipy.ndimage.median_filter(row, size, mode='nearest')] on a 1-D
    array: the window of [size] cells starts [size // 2] cells to the left,
    indices beyond the ends repeat the edge cell, and the result is the
    element of rank [size // 2] of the sorted window. *)
Definition nearest (row : list Q) (z : Z) : Q :=
  nth (Z.to_nat (Z.max 0 (Z.min z (Z.of_nat (length row) - 1)))) row 0%Q.

Definition filter_window (row : list Q) (size i : nat) : list Q :=
  map (fun k => nearest row (Z.of_nat i - Z.of_nat (size / 2) + Z.of_nat k))
      (seq 0 size).

Definition median_filter (row : list Q) (size : nat) : list Q :=
  map (fun i => nth (size / 2) (np_sort (filter_window row size i)) 0%Q)
      (seq 0 (length row)).

(** [(cond).nonzero()[0]] of a 1-D boolean array. *)
Definition nonzero (l : list bool) : list nat :=
  omap (fun p : nat * bool => if p.2 then Some p.1 else None)
       (imap (fun i b => (i, b)) l).

(** [while i_beg > 0 and streak_row[i_beg] >= thr: i_beg -= 1]. *)
Fixpoint walk_back (streak_row : list Q) (thr : Q) (i_beg : nat) : nat :=
  match i_beg with
  | O => O
  | S p => if Qgeb (nth i_beg streak_row 0%Q) thr
           then walk_back streak_row thr p else i_beg
  end.

Fixpoint insert_unique (x : nat) (l : list nat) : list nat :=
  match l with
  | [] => [x]
  | y :: l' => if decide (x < y)%nat then x :: l
               else if decide (x = y) then l
               else y :: insert_unique x l'
  end.

(** [np.unique]: sorted, without repetitions. *)
Definition np_unique (l : list nat) : list nat := foldr insert_unique [] l.

(** [find_plateaus]; [None] is Python's [None]. *)
Definition find_plateaus (streak_row : list Q) (fwc sat_thresh plat_thresh : Q)
    (cosm_filter : nat) : option (list nat) :=
  let filtered := median_filter streak_row (cosm_filter + 1) in
  let saturated := nonzero (map (fun x => Qgeb x (sat_thresh * fwc)%Q) filtered) in
  if decide (0 < length saturated)%nat then
    Some (np_unique
            (map (fun s =>
                    let i_beg := walk_back streak_row (plat_thresh * fwc)%Q s in
                    if Qltb (nth i_beg streak_row 0%Q) (plat_thresh * fwc)%Q
                    then S i_beg else i_beg)
                 saturated))
  else None.

(** The state of one streak row's pass in [flag_cosmics]: the mask of
    frame [j] and the lists [ex_l] and [cutoffs]. *)
Record streak_state := MkStreak {
  mask_j : list (list Z);
  ex_l : list Z;
  cutoffs : list Z
}.

(** The body of [for i_beg in i_begs] for streak row [i]. *)
Definition mark_plateau (ncols : nat) (i : nat) (cosm_filter cosm_box cosm_tail : nat)
    (st : streak_state) (i_beg : nat) : streak_state :=
  let stop := (Z.of_nat i_beg + Z.of_nat cosm_filter + Z.of_nat cosm_tail + 1)%Z in
  let over := (Z.of_nat ncols <? stop)%Z in
  let streak_end := Z.min stop (Z.of_nat ncols) in
  let m1 := imap (fun r row => if decide (r = i)
                               then fill_slice (Z.of_nat i_beg) streak_end row
                               else row) (mask_j st) in
  let st_row := Z.max (Z.of_nat i - Z.of_nat cosm_box) 0 in
  let end_row := Z.min (Z.of_nat i + Z.of_nat cosm_box + 1) (Z.of_nat (length (mask_j st))) in
  let st_col := Z.max (Z.of_nat i_beg - Z.of_nat cosm_box) 0 in
  let end_col := Z.min (Z.of_nat i_beg + Z.of_nat cosm_box + 1) (Z.of_nat ncols) in
  MkStreak (fill_box st_row end_row st_col end_col m1)
           (if over then ex_l st ++ [(stop - Z.of_nat ncols)%Z] else ex_l st)
           (if over then cutoffs st ++ [(Z.of_nat i + 1)%Z] else cutoffs st).

(** The ['full'] mode continuation: [mask_rav[rav_ind:rav_ind+ex] = 1] on
    the raveled mask of frame [j], for each recorded overrun. *)
Definition spill (ncols : nat) (m : list (list Z)) (ce : Z * Z) : list (list Z) :=
  let rav_ind := (ce.1 * Z.of_nat ncols - 1)%Z in
  reshape_rows (length m) ncols (fill_slice rav_ind (rav_ind + ce.2) (concat m)).

(** One iteration of [for j, i in ji_streak_rows]. *)
Definition flag_row (cube : list (list (list Q))) (ncols : nat)
    (fwc sat_thresh plat_thresh : Q) (cosm_filter cosm_box cosm_tail : nat)
    (mode : string) (mask : list (list (list Z))) (ji : nat * nat)
  : list (list (list Z)) :=
  let row := nth ji.2 (nth ji.1 cube []) [] in
  let mj := nth ji.1 mask [] in
  let st :=
    match find_plateaus row fwc sat_thresh plat_thresh cosm_filter with
    | Some i_begs =>
        foldl (mark_plateau ncols ji.2 cosm_filter cosm_box cosm_tail)
              (MkStreak mj [] []) i_begs
    | None => MkStreak mj [] []
    end in
  let mj' :=
    if bool_decide (mode = "full") && bool_decide (0 < length (ex_l st))%nat
    then foldl (spill ncols) (mask_j st) (zip (cutoffs st) (ex_l st))
    else mask_j st in
  <[ji.1 := mj']> mask.

(** The [(j, i)] of the rows whose maximum reaches [thr], in row-major
    order; [np.max] refuses rows of no columns. *)
Definition streak_rows (cube : list (list (list Q))) (thr : Q)
  : option (list (nat * nat)) :=
  rows ← mapM (fun jf : nat * list (list Q) =>
                 mapM (fun ir : nat * list Q =>
                         m ← np_max ir.2; Some (jf.1, ir.1, Qgeb m thr))
                      (imap (fun i r => (i, r)) jf.2))
              (imap (fun j f => (j, f)) cube);
  Some (omap (fun p : nat * nat * bool => if p.2 then Some p.1 else None)
             (concat rows)).

(** [flag_cosmics(cube, fwc, sat_thresh, plat_thresh, cosm_filter, cosm_box,
    cosm_tail, mode)]. *)
Definition flag_cosmics (cube : list (list (list Q))) (fwc sat_thresh plat_thresh : Q)
    (cosm_filter cosm_box cosm_tail : nat) (mode : string)
  : result (list (list (list Z))) :=
  let ncols := length (nth 0 (nth 0 cube []) []) in
  let mask := map (map (map (fun _ => 0%Z))) cube in
  match streak_rows cube (sat_thresh * fwc)%Q with
  | Some ji_streak_rows =>
      Ok (foldl (flag_row cube ncols fwc sat_thresh plat_thresh
                          cosm_filter cosm_box cosm_tail mode)
                mask ji_streak_rows)
  | None => Raise (ValueError "zero-size array to reduction operation maximum")
  end.

(** ** detector.py: relative gains *)

Definition res_bind {A B} (r : result A) (k : A -> result B) : result B :=
  match r with Ok a => k a | Raise e => Raise e end.

Definition opt_res {A} (e : exn) (o : option A) : result A :=
  match o with Some a => Ok a | None => Raise e end.

(** [np.any(np.diff(ax) <= 0)]. *)
Definition any_diff_nonpos (ax : list Q) : bool :=
  existsb (fun p : Q * Q => Qle_bool (p.2 - p.1) 0) (zip ax (tail ax)).

(** The columns of a 2-D array of [ncols] columns. *)
Definition columns (ncols : nat) (a : list (list Q)) : list (list Q) :=
  map (fun c => map (fun row => nth c row 0%Q) a) (seq 0 ncols).

(** [np.searchsorted(xs, x)] on an increasing [xs]: how many entries lie
    strictly below [x]. *)
Definition searchsorted (xs : list Q) (x : Q) : nat :=
  length (List.filter (fun a => Qltb a x) xs).

(** The straight line through the two knots around [x], as scipy's linear
    interpolators evaluate it (the knot index is clipped to [1, n-1]). *)
Definition linear_at (xs ys : list Q) (x : Q) : Q :=
  let hi := Nat.min (Nat.max (searchsorted xs x) 1) (length xs - 1) in
  let lo := (hi - 1)%nat in
  let x_lo := nth lo xs 0%Q in
  let x_hi := nth hi xs 0%Q in
  let y_lo := nth lo ys 0%Q in
  let y_hi := nth hi ys 0%Q in
  ((y_hi - y_lo) / (x_hi - x_lo) * (x - x_lo) + y_lo)%Q.

(** [RectBivariateSpline(gain_ax, count_ax, relgains.T, kx=1, ky=1)]
    evaluated at [(em_gain, count_ax)]: for every count row the degree-1
    spline along the gain axis, with [em_gain] clamped to the axis range. *)
Definition relgain_curve (gain_ax : list Q) (relgains : list (list Q)) (em_gain : Q)
  : list Q :=
  let g := Qmax (nth 0 gain_ax 0%Q)
                (Qmin em_gain (nth (length gain_ax - 1) gain_ax 0%Q)) in
  map (fun row => linear_at gain_ax row g) relgains.

(** [interp1d(xs, ys, kind='linear', bounds_error=False,
    fill_value=(below, above))] called at [x]. *)
Definition interp1d (xs ys : list Q) (below above : Q) (x : Q) : Q :=
  let y_new := linear_at xs ys x in
  if Qltb (nth (length xs - 1) xs 0%Q) x then above
  else if Qltb x (nth 0 xs 0%Q) then below
  else y_new.

Definition gain_axis (table : list (list Q)) : list Q := drop 1 (nth 0 table []).
Definition count_axis (table : list (list Q)) : list Q :=
  map (fun row => nth 0 row 0%Q) (drop 1 table).
Definition relgain_grid (table : list (list Q)) : list (list Q) :=
  map (drop 1) (drop 1 table).

(** [get_relgains(frame, em_gain, non_lin_correction)], with the 2-D array
    [non_lin_correction.data] as [table]. *)
Definition get_relgains (frame : list (list Q)) (em_gain : Q) (table : list (list Q))
  : result (list (list Q)) :=
  if decide (length table = 0 \/ length (nth 0 table []) = 0)%nat
  then Raise IndexError
  else
    let gain_ax := gain_axis table in
    let count_ax := count_axis table in
    let relgains := relgain_grid table in
    if any_diff_nonpos gain_ax
    then Raise (ValueError "Gain axis (column headers) must be increasing")
    else if any_diff_nonpos count_ax
    then Raise (ValueError "Counts axis (row headers) must be increasing")
    else
      let cols := columns (length gain_ax) relgains in
      res_bind (opt_res (ValueError "zero-size array to reduction operation")
                        (mapM np_min cols)) (fun mins =>
      res_bind (opt_res (ValueError "zero-size array to reduction operation")
                        (mapM np_max cols)) (fun maxs =>
      if existsb (fun m => Qltb 1 m) mins || existsb (fun m => Qltb m 1) maxs
      then Raise (ValueError "Gain curves (array columns) must contain or straddle a relative gain of 1.0")
      else if decide (length gain_ax < 2 \/ length count_ax < 2)%nat
      then Raise (ValueError "spline needs two points per axis")
      else
        let curve := relgain_curve gain_ax relgains em_gain in
        let ff := interp1d count_ax curve (nth 0 curve 0%Q)
                           (nth (length curve - 1) curve 0%Q) in
        Ok (map (map ff) frame))).

(** ** l1_to_l2a.py: prescan bias subtraction *)

(** One entry of the detector geometry, [meta.geom[key]]. *)
Record region := MkRegion { rows : Z; cols : Z; r0c0 : Z * Z }.

(** The entries [prescan_biassub] reads; [col_start] and [col_end] are
    those of [meta.geom['prescan']]. *)
Record geometry := MkGeometry {
  image : region;
  prescan : region;
  col_start : Z;
  col_end : Z
}.

(** [slice_section(frame, obstype, key)] once the region is looked up. *)
Definition slice_section {A} (frame : list (list A)) (reg : region)
  : result (list (list A)) :=
  let section := slice2 frame (r0c0 reg).1 ((r0c0 reg).1 + rows reg)
                        (r0c0 reg).2 ((r0c0 reg).2 + cols reg) in
  if decide (length section * length (nth 0 section []) = 0)%nat
  then Raise (PyException "Corners invalid")
  else Ok section.

(** numpy broadcasting of a column vector of shape (m, 1) against a 2-D
    array of shape (R, C): each row paired with its column entry. *)
Definition broadcast_rows {A B} (col : list A) (img : list (list B))
  : result (list (A * list B)) :=
  if decide (length col = length img) then Ok (zip col img)
  else match col, img with
       | [x], _ => Ok (map (fun row => (x, row)) img)
       | _, [row] => Ok (map (fun x => (x, row)) col)
       | _, _ => Raise (ValueError "operands could not be broadcast together")
       end.

Record biassub_frame := MkBiassub {
  image_bias_corrected : list (list Q);
  sterrbyrow : list (list Q);
  bias : list Q
}.

(** The aligned reliable prescan of a frame, [al_prescan], with the number
    of its columns. *)
Definition aligned_prescan (frame_data : list (list Q)) (meta : geometry)
    (return_full_frame : bool) : result (list (list Q) * nat) :=
  res_bind (slice_section frame_data (prescan meta)) (fun prescan0 =>
  let prescan1 := map (fun row => py_slice row (col_start meta) (col_end meta)) prescan0 in
  let i_r0 := (r0c0 (image meta)).1 in
  let p_r0 := (r0c0 (prescan meta)).1 in
  let i_nrow := rows (image meta) in
  Ok (if return_full_frame then prescan1
      else py_slice prescan1 (i_r0 - p_r0) (i_r0 - p_r0 + i_nrow),
      length (nth 0 prescan1 []))).

(** The body of the loop of [prescan_biassub] for the data array of one
    frame: from [frame.data] to [image_bias_corrected], the new error term
    [sterrbyrow] and the 1-D [bias].  [meta] stands for the geometry that
    [Metadata(obstype)] loads. *)
Definition prescan_biassub_frame `{Floating} (frame_data : list (list Q))
    (obstype : string) (meta : geometry) (bias_offset : Q)
    (return_full_frame : bool) : result biassub_frame :=
  if negb (bool_decide (obstype = "SCI" \/ obstype = "ENG"))
  then Raise (PyException "Observation type of frame is not 'SCI' or 'ENG'")
  else
    match slice_section frame_data (image meta),
          aligned_prescan frame_data meta return_full_frame with
    | Ok image0, Ok (al_prescan, ncol) =>
        let image_data := if return_full_frame then frame_data else image0 in
        res_bind (opt_res NotANumber (mapM np_median al_prescan)) (fun medbyrow =>
        res_bind (opt_res NotANumber (mapM np_std al_prescan)) (fun stdbyrow =>
        res_bind (broadcast_rows stdbyrow image_data) (fun se =>
        let bias_ := map (fun m => (m - bias_offset)%Q) medbyrow in
        res_bind (broadcast_rows bias_ image_data) (fun bi =>
        Ok (MkBiassub
              (map (fun p : Q * list Q => map (fun x => (x - p.1)%Q) p.2) bi)
              (map (fun p : Q * list Q =>
                      map (fun _ => (p.1 * 1 / np_sqrt (inject_Z (Z.of_nat ncol)))%Q) p.2)
                   se)
              bias_)))))
    | _, _ => Raise (ReadMetadataException "Frame size inconsistent with metadata")
    end.

(** [np.mean] of a 2-D array. *)
Definition np_mean2 (a : list (list Q)) : Q := np_mean (concat a).

(** * Specifications *)

(** ** Views and aliasing *)

(** The view [a[k]] as a value. *)
Definition view (a : ndarray) (k : nat) : ndarray :=
  NdArray (buf a) (off a + k * size_of (tail (shape a))) (tail (shape a)).

(** [a] has a slice number [k] along its leading axis. *)
Definition has_slice (a : ndarray) (k : nat) : Prop :=
  exists n, shape a = n :: tail (shape a) /\ (k < n)%nat.

(** [a] and slice [k] of [cube] are the same memory: in every store, a
    write through one is read back through the other. *)
Definition shares (a cube : ndarray) (k : nat) : Prop :=
  forall (h h' : heap) (idx : list nat) (v : pix),
    (setitem a idx v h = Some h' -> getitem cube (k :: idx) h' = Some v) /\
    (setitem cube (k :: idx) v h = Some h' -> getitem a idx h' = Some v).

(** Every in-range cell of [a] can be written in [h]. *)
Definition writable (a : ndarray) (h : heap) : Prop :=
  forall idx v, is_Some (ravel_index (shape a) idx) -> is_Some (setitem a idx v h).

(** Every member frame of [d] currently shares its three arrays with its
    slice of the three cubes of [d], and can be written. *)
Definition aliased (d : Dataset) (h : heap) : Prop :=
  forall k f, frames d !! k = Some f ->
  exists im, imgs h !! f = Some im /\
    shares (data im) (all_data d) k /\
    shares (err im) (all_err d) k /\
    shares (dq im) (all_dq d) k /\
    writable (data im) h /\ writable (err im) h /\ writable (dq im) h.

(** What in-place operations leave alone: the Image objects and the sizes
    of the buffers. *)
Definition layout (h : heap) : list Image * list nat :=
  (imgs h, length <$> bufs h).

Definition keeps_layout {A} (m : Py A) : Prop :=
  forall h h' r, m h = (h', r) -> layout h' = layout h.

(** Stores reached by operations that change no shape: pixel writes
    through any array, and calls of [update_after_processing_step] on any
    Dataset, whether they return or raise. *)
Inductive in_place : heap -> heap -> Prop :=
| in_place_refl h : in_place h h
| in_place_write h a idx v h1 h2 :
    setitem a idx v h = Some h1 -> in_place h1 h2 -> in_place h h2
| in_place_update h self entry nd ne nq r h1 h2 :
    update_after_processing_step self entry nd ne nq h = (h1, r) ->
    in_place h1 h2 -> in_place h h2.

(** The aliasing promise for the Dataset built from the frames [fs] in
    store [h]: it holds the frames [fs], and its frames are aliased to its
    cubes from construction on, through all in-place operations. *)
Definition frames_alias_cubes (fs : list loc) (h : heap) : Prop :=
  forall h' d h2, Dataset_init fs h = (h', Ok d) -> in_place h' h2 ->
  frames d = fs /\ aliased d h2.

(** A store with one 1x1 frame whose pixel is 1. *)
Definition one_frame_heap : heap :=
  MkHeap [[1%Q]; [0%Q]; [0%Q]] [[]; []]
         [MkImage (NdArray 0 0 [1; 1]%nat) (NdArray 1 0 [1; 1]%nat)
                  (NdArray 2 0 [1; 1]%nat) 0 1 "a.fits" "."] 0.

(** A store with two 1x2 frames. *)
Definition two_frame_heap : heap :=
  MkHeap [[1; 2]%Q; [0; 0]%Q; [0; 0]%Q; [3; 4]%Q; [0; 0]%Q; [0; 0]%Q]
         [[("OBSTYPE", HStr "SCI")]; [("CMDGAIN", HInt 1)];
          [("OBSTYPE", HStr "SCI")]; [("CMDGAIN", HInt 1); ("HISTORY", HStr "made")]]
         [MkImage (NdArray 0 0 [1; 2]%nat) (NdArray 1 0 [1; 2]%nat)
                  (NdArray 2 0 [1; 2]%nat) 0 1 "a.fits" ".";
          MkImage (NdArray 3 0 [1; 2]%nat) (NdArray 4 0 [1; 2]%nat)
                  (NdArray 5 0 [1; 2]%nat) 2 3 "b.fits" "."] 0.

(** ** Headers and history *)

(** The cards of a header other than its HISTORY cards. *)
Definition other_cards (hd : Header) : Header :=
  List.filter (fun c => negb (bool_decide (c.1 = "HISTORY"))) hd.

(** How many of the frames [fs] carry the header object [x] as their
    extension header. *)
Definition carriers (x : loc) (fs : list loc) (h : heap) : nat :=
  length (List.filter
            (fun f => match imgs h !! f with
                      | Some im => bool_decide (ext_hdr im = x)
                      | None => false
                      end) fs).

(** The cubes of a Dataset live in three different buffers, and no
    replacement lives in a cube that is overwritten before the replacement
    is read: the one for all_err not in all_data, the one for all_dq in
    neither all_data nor all_err.  (A replacement may be the very cube it
    replaces.) *)
Definition apart (self : Dataset) (ne nq : option ndarray) : Prop :=
  buf (all_data self) <> buf (all_err self) /\
  buf (all_data self) <> buf (all_dq self) /\
  buf (all_err self) <> buf (all_dq self) /\
  (forall a, ne = Some a -> buf a <> buf (all_data self)) /\
  (forall a, nq = Some a ->
     buf a <> buf (all_data self) /\ buf a <> buf (all_err self)).

(** A replacement of the wrong shape. *)
Definition mismatched (old : ndarray) (new : option ndarray) : Prop :=
  exists a, new = Some a /\ shape a <> shape old.

(** ** Copies *)

(** What an operation leaves alone among headers, frames and clock. *)
Definition same_objects (h h' : heap) : Prop :=
  hdrs h' = hdrs h /\ imgs h' = imgs h /\ ticks h' = ticks h.

(** An operation never removes a buffer from the store. *)
Definition grows {A} (m : Py A) : Prop :=
  forall h h' r, m h = (h', r) -> (length (bufs h) <= length (bufs h'))%nat.

(** The Dataset of the two frames of [two_frame_heap], with its store. *)
Definition demo : heap * result Dataset :=
  Eval vm_compute in Dataset_init [0; 1]%nat two_frame_heap.
Definition demo_heap : heap := demo.1.
Definition demo_dataset : Dataset :=
  match demo.2 with
  | Ok d => d
  | Raise _ => MkDataset [] (NdArray 0 0 []) (NdArray 0 0 []) (NdArray 0 0 [])
  end.

(** A package version and a clock for the examples. *)
Definition demo_world : World :=
  {| version := "1.0";
     isot := fun n => match n with
                      | 0%nat => "2024-01-01T00:00:00.000"
                      | 1%nat => "2024-01-01T00:00:00.250"
                      | _ => "2024-01-01T00:00:01.000"
                      end |}.

(** [demo_heap] with one more buffer, holding a replacement for all_data. *)
Definition stage_heap : heap :=
  set_bufs (bufs demo_heap ++ [[9; 8; 7; 6]%Q]) demo_heap.
Definition stage_data : ndarray := NdArray 9 0 [2; 1; 2]%nat.
Definition misshapen : ndarray := NdArray 9 0 [4]%nat.

(** The shallow copy of the demo Dataset, and the Dataset of the single
    frame of [one_frame_heap] with its shallow copy. *)
Definition demo_copy : heap * result Dataset :=
  Eval vm_compute in @Dataset_copy demo_world demo_dataset false demo_heap.

Definition single : heap * result Dataset :=
  Eval vm_compute in Dataset_init [0%nat] one_frame_heap.
Definition single_dataset : Dataset :=
  match single.2 with
  | Ok d => d
  | Raise _ => MkDataset [] (NdArray 0 0 []) (NdArray 0 0 []) (NdArray 0 0 [])
  end.
Definition single_copy : heap * result Dataset :=
  Eval vm_compute in @Dataset_copy demo_world single_dataset false single.1.
Definition single_copy_dataset : Dataset :=
  match single_copy.2 with
  | Ok d => d
  | Raise _ => MkDataset [] (NdArray 0 0 []) (NdArray 0 0 []) (NdArray 0 0 [])
  end.

(** ** Cosmic rays: the example of the specification *)

Definition plateau_row : list Q := [0; 0; 0; 100; 100; 100; 100; 0; 0]%Q.
Definition quiet_row : list Q := [0; 0; 0; 0; 0; 0; 0; 0; 0]%Q.

(** One frame of five rows, the plateau row in the middle. *)
Definition plateau_cube : list (list (list Q)) :=
  [[quiet_row; quiet_row; plateau_row; quiet_row; quiet_row]].

(** The marked pixels of a mask row are exactly those from [lo] to [hi]. *)
Definition marks_exactly (row : list Z) (lo hi : nat) : Prop :=
  forall c, (c < length row)%nat -> (nth c row 0%Z = 1%Z <-> (lo <= c <= hi)%nat).

(** Row [i] of frame [j] of a mask. *)
Definition mask_row (m : list (list (list Z))) (j i : nat) : list Z :=
  nth i (nth j m []) [].

(** ** Relative gains *)

Definition strictly_increasing (l : list Q) : Prop :=
  forall i a b, l !! i = Some a -> l !! S i = Some b -> (a < b)%Q.

(** The values of a gain curve contain or straddle a relative gain of 1. *)
Definition brackets_unity (col : list Q) : Prop :=
  (exists x, x ∈ col /\ (x <= 1)%Q) /\ (exists y, y ∈ col /\ (1 <= y)%Q).

(** The gain curves of a calibration table: the columns of its interior. *)
Definition gain_curves (table : list (list Q)) : list (list Q) :=
  columns (length (gain_axis table)) (relgain_grid table).

Definition gain_axis_error : exn :=
  ValueError "Gain axis (column headers) must be increasing".
Definition count_axis_error : exn :=
  ValueError "Counts axis (row headers) must be increasing".
Definition gain_curve_error : exn :=
  ValueError "Gain curves (array columns) must contain or straddle a relative gain of 1.0".

(** A calibration table: gains 1 and 10, counts 0, 100 and 200. *)
Definition demo_table : list (list Q) :=
  [[0; 1; 10];
   [0; 9 # 10; 8 # 10];
   [100; 1; 1];
   [200; 11 # 10; 12 # 10]]%Q.

(** ** Bias subtraction *)

(** The geometry entries as natural numbers. *)
Definition i_r0 (meta : geometry) : nat := Z.to_nat (r0c0 (image meta)).1.
Definition i_c0 (meta : geometry) : nat := Z.to_nat (r0c0 (image meta)).2.
Definition i_rows (meta : geometry) : nat := Z.to_nat (rows (image meta)).
Definition i_cols (meta : geometry) : nat := Z.to_nat (cols (image meta)).
Definition p_r0 (meta : geometry) : nat := Z.to_nat (r0c0 (prescan meta)).1.
Definition p_c0 (meta : geometry) : nat := Z.to_nat (r0c0 (prescan meta)).2.
Definition p_rows (meta : geometry) : nat := Z.to_nat (rows (prescan meta)).
Definition p_cols (meta : geometry) : nat := Z.to_nat (cols (prescan meta)).
Definition c_start (meta : geometry) : nat := Z.to_nat (col_start meta).
Definition c_end (meta : geometry) : nat := Z.to_nat (col_end meta).

(** The geometry describes a frame of [R] rows and [C] columns: no entry
    is negative, the image and prescan regions lie inside the frame, the
    prescan rows cover the image rows, and the reliable columns are a
    non-empty span of the prescan columns. *)
Definition fits (meta : geometry) (R C : nat) : Prop :=
  (0 <= (r0c0 (image meta)).1 /\ 0 <= (r0c0 (image meta)).2 /\
   0 < rows (image meta) /\ 0 < cols (image meta) /\
   0 <= (r0c0 (prescan meta)).1 /\ 0 <= (r0c0 (prescan meta)).2 /\
   0 <= rows (prescan meta) /\ 0 <= cols (prescan meta) /\
   0 <= col_start meta /\ col_start meta < col_end meta)%Z /\
  (p_r0 meta <= i_r0 meta /\ i_r0 meta + i_rows meta <= p_r0 meta + p_rows meta /\
   p_r0 meta + p_rows meta <= R /\
   i_c0 meta + i_cols meta <= C /\ p_c0 meta + p_cols meta <= C /\
   c_end meta <= p_cols meta)%nat.

Definition rectangular {A} (frame : list (list A)) (R C : nat) : Prop :=
  length frame = R /\ Forall (fun row => length row = C) frame.

(** The reliable prescan pixels and the image pixels of one frame row. *)
Definition reliable_prescan (meta : geometry) (row : list Q) : list Q :=
  take (c_end meta - c_start meta) (drop (p_c0 meta + c_start meta) row).
Definition image_pixels (meta : geometry) (row : list Q) : list Q :=
  take (i_cols meta) (drop (i_c0 meta) row).

(** [np.sqrt] for the examples: exact on the squares of rationals. *)
Definition floor_sqrt : Floating :=
  {| np_sqrt := fun q => (Z.sqrt (Qnum q) # Pos.sqrt (Qden q))%Q |}.

(** A 3x6 frame: prescan columns 0..3 hold 10, the image region (rows 1
    and 2, columns 4 and 5) holds [v]. *)
Definition demo_geometry : geometry :=
  MkGeometry (MkRegion 2 2 (1, 4)%Z) (MkRegion 3 4 (0, 0)%Z) 0 4.
Definition demo_frame (v : Q) : list (list Q) :=
  [[10; 10; 10; 10; 7; 7]; [10; 10; 10; 10; v; v]; [10; 10; 10; 10; v; v]]%Q.

(** ** Masks *)

(** A mask cell after a marking step: left as it was, or set to 1. *)
Definition marked (v v' : Z) : Prop := v' = v \/ v' = 1%Z.

(** A 2-D mask after marking: the same shape, each cell left or set. *)
Definition extends (m m' : list (list Z)) : Prop := Forall2 (Forall2 marked) m m'.

(** A cube of [n] frames of [R] rows and [C] columns. *)
Definition cube_shape {A} (cube : list (list (list A))) (R C : nat) : Prop :=
  Forall (fun frame => rectangular frame R C) cube.

(** Cell [(i, k)] of a 2-D array, if there is one. *)
Definition cell {A} (m : list (list A)) (i k : nat) : option A :=
  row ← m !! i; row !! k.

(** Cell [(j, i, k)] of a 3-D array, if there is one. *)
Definition cell3 {A} (m : list (list (list A))) (j i k : nat) : option A :=
  plane ← m !! j; cell plane i k.

(** ** detector.py: the geometry table *)

(** A dictionary lookup: the value, or Python's KeyError. *)
Inductive keyed (A : Type) := Got (a : A) | KeyError (key : string).
Arguments Got {A} a.
Arguments KeyError {A} key.

Definition keyed_bind {A B} (m : keyed A) (k : A -> keyed B) : keyed B :=
  match m with Got a => k a | KeyError key => KeyError key end.

Fixpoint dict_get {V} (d : list (string * V)) (key : string) : keyed V :=
  match d with
  | [] => KeyError key
  | (k, v) :: d' => if decide (k = key) then Got v else dict_get d' key
  end.

(** One section of an observation type: 'rows', 'cols' and 'r0c0', and
    for some prescans 'col_start' and 'col_end'. *)
Record section := MkSection {
  sec_region : region;
  sec_reliable : option (Z * Z)
}.

(** The entry of one observation type. *)
Record areas := MkAreas {
  frame_rows : Z;
  frame_cols : Z;
  sections : list (string * section)
}.

Definition plain (r c r0 c0 : Z) : section := MkSection (MkRegion r c (r0, c0)) None.

(** The module-level dictionary [detector_areas]. *)
Definition detector_areas : list (string * areas) :=
  [("SCI", MkAreas 1200 2200
      [("image", plain 1024 1024 13 1088);
       ("prescan", MkSection (MkRegion 1200 1088 (0, 0)) (Some (800, 1000)));
       ("prescan_reliable", plain 1200 200 0 800);
       ("parallel_overscan", plain 163 1056 1037 1088);
       ("serial_overscan", plain 1200 56 0 2144)]);
   ("ENG", MkAreas 2200 2200
      [("image", plain 1024 1024 13 1088);
       ("prescan", MkSection (MkRegion 2200 1088 (0, 0)) (Some (800, 1000)));
       ("prescan_reliable", plain 2200 200 0 800);
       ("parallel_overscan", plain 1163 1056 1037 1088);
       ("serial_overscan", plain 2200 56 0 2144)]);
   ("ENG_EM", MkAreas 2200 2200
      [("image", plain 2048 1024 13 1088);
       ("lower_image", plain 1024 1024 13 1088);
       ("upper_image", plain 1024 1024 1037 1088);
       ("prescan", plain 2200 1088 0 0);
       ("prescan_reliable", plain 2200 200 0 800);
       ("parallel_overscan", plain 130 1056 2070 1088);
       ("serial_overscan", plain 2200 56 0 2144)]);
   ("ENG_CONV", MkAreas 2200 2200
      [("image", plain 2048 1024 13 48);
       ("lower_image", plain 1024 1024 13 48);
       ("upper_image", plain 1024 1024 1037 48);
       ("prescan", plain 2200 1128 0 1072);
       ("prescan_reliable", plain 2200 200 0 1200);
       ("parallel_overscan", plain 130 1056 2070 16);
       ("serial_overscan", plain 2200 16 0 0)])]%Z.

(** [detector_regions], with [None] for the default. *)
Definition regions_or_default (detector_regions : option (list (string * areas)))
  : list (string * areas) :=
  match detector_regions with Some d => d | None => detector_areas end.

(** [unpack_geom(obstype, key, detector_regions)]. *)
Definition unpack_geom (obstype key : string)
    (detector_regions : option (list (string * areas))) : keyed (Z * Z * (Z * Z)) :=
  keyed_bind (dict_get (regions_or_default detector_regions) obstype) (fun a =>
  keyed_bind (dict_get (sections a) key) (fun coords =>
  Got (rows (sec_region coords), cols (sec_region coords), r0c0 (sec_region coords)))).

(** [slice_section(frame, obstype, key, detector_regions)], the lookups
    included. *)
Definition slice_section_key {A} (frame : list (list A)) (obstype key : string)
    (detector_regions : option (list (string * areas)))
  : keyed (result (list (list A))) :=
  keyed_bind (dict_get (regions_or_default detector_regions) obstype) (fun a =>
  keyed_bind (dict_get (sections a) key) (fun coords =>
  Got (slice_section frame (sec_region coords)))).

(** [imaging_area_geometry(obstype, detector_regions)]: the frame size is
    read from the module-level [detector_areas]. *)
Definition imaging_area_geometry (obstype : string)
    (detector_regions : option (list (string * areas))) : keyed (Z * Z * (Z * Z)) :=
  keyed_bind (unpack_geom obstype "prescan" detector_regions) (fun pre =>
  keyed_bind (unpack_geom obstype "serial_overscan" detector_regions) (fun ser =>
  keyed_bind (unpack_geom obstype "parallel_overscan" detector_regions) (fun par =>
  keyed_bind (unpack_geom obstype "image" detector_regions) (fun img =>
  keyed_bind (dict_get detector_areas obstype) (fun a =>
  let cols_pre := pre.1.2 in
  let cols_serial_ovr := ser.1.2 in
  let rows_parallel_ovr := par.1.1 in
  let fluxmap_rows := img.1.1 in
  let r0c0_image := img.2 in
  let rows_im := (frame_rows a - rows_parallel_ovr)%Z in
  let cols_im := (frame_cols a - cols_pre - cols_serial_ovr)%Z in
  Got (rows_im, cols_im,
       ((r0c0_image.1 - (rows_im - fluxmap_rows))%Z, r0c0_image.2))))))).

(** [imaging_area_geom(obstype, detector_regions)]: the frame size is read
    from [detector_regions]. *)
Definition imaging_area_geom (obstype : string)
    (detector_regions : option (list (string * areas))) : keyed (Z * Z * (Z * Z)) :=
  keyed_bind (unpack_geom obstype "prescan" detector_regions) (fun pre =>
  keyed_bind (unpack_geom obstype "serial_overscan" detector_regions) (fun ser =>
  keyed_bind (unpack_geom obstype "parallel_overscan" detector_regions) (fun par =>
  keyed_bind (unpack_geom obstype "image" detector_regions) (fun img =>
  keyed_bind (dict_get (regions_or_default detector_regions) obstype) (fun a =>
  let cols_pre := pre.1.2 in
  let cols_serial_ovr := ser.1.2 in
  let rows_parallel_ovr := par.1.1 in
  let fluxmap_rows := img.1.1 in
  let r0c0_image := img.2 in
  let rows_im := (frame_rows a - rows_parallel_ovr)%Z in
  let cols_im := (frame_cols a - cols_pre - cols_serial_ovr)%Z in
  Got (rows_im, cols_im,
       ((r0c0_image.1 - (rows_im - fluxmap_rows))%Z, r0c0_image.2))))))).

(** [imaging_slice(obstype, frame, detector_regions)], the definition the
    module ends up with (the earlier one of the same name is replaced). *)
Definition imaging_slice {A} (obstype : string) (frame : list (list A))
    (detector_regions : option (list (string * areas))) : keyed (list (list A)) :=
  keyed_bind (imaging_area_geom obstype detector_regions) (fun g =>
  let rows_ := g.1.1 in
  let cols_ := g.1.2 in
  let r0c0_ := g.2 in
  Got (slice2 frame r0c0_.1 (r0c0_.1 + rows_) r0c0_.2 (r0c0_.2 + cols_))).

(** A section lies inside a frame of the size its observation type
    declares. *)
Definition inside (a : areas) (s : section) : Prop :=
  (0 <= (r0c0 (sec_region s)).1 /\ 0 <= (r0c0 (sec_region s)).2 /\
   0 < rows (sec_region s) /\ 0 < cols (sec_region s) /\
   (r0c0 (sec_region s)).1 + rows (sec_region s) <= frame_rows a /\
   (r0c0 (sec_region s)).2 + cols (sec_region s) <= frame_cols a)%Z.

(** ** l1_to_l2a.py: update_to_l2a *)

(** [value == "L1"] for a header value. *)
Definition is_L1 (v : hval) : bool :=
  match v with HStr s => bool_decide (s = "L1") | _ => false end.

(** The first loop of [update_to_l2a]: every frame must be at level L1.
    A header without the card ends the call in a KeyError; the message of
    the ValueError formats the comparison [ext_hdr['DATA_LEVEL'] != "L1"],
    which is [True] there. *)
Fixpoint check_l1 (fs : list loc) : Py (keyed unit) :=
  match fs with
  | [] => py_ret (Got tt)
  | f :: fs' =>
      let* orig_frame := get_img f in
      let* hd := get_hdr (ext_hdr orig_frame) in
      match header_get "DATA_LEVEL" hd with
      | None => py_ret (KeyError "DATA_LEVEL")
      | Some v =>
          if negb (is_L1 v)
          then raise (ValueError (filename orig_frame ++
                        " needs to be L1 data, but it is True data instead"))
          else check_l1 fs'
      end
  end.

(** [update_to_l2a(input_dataset)]. *)
Definition update_to_l2a `{World} (input_dataset : Dataset) : Py (keyed Dataset) :=
  let* checked := check_l1 (frames input_dataset) in
  match checked with
  | KeyError key => py_ret (KeyError key)
  | Got _ =>
      let* updated_dataset := Dataset_copy input_dataset false in
      for_each (fun f => let* frame := get_img f in
                         hdr_set (ext_hdr frame) "DATA_LEVEL" (HStr "L2a"))
               (frames updated_dataset) >>
      update_after_processing_step updated_dataset "Updated Data Level to L2a"
                                   None None None >>
      py_ret (Got updated_dataset)
  end.

(** The data level recorded for the frame at [f]. *)
Definition data_level (f : loc) (h : heap) : option hval :=
  im ← imgs h !! f; hd ← hdrs h !! ext_hdr im; header_get "DATA_LEVEL" hd.

(** What a call leaves of the objects that existed before it: every
    Image object keeps its extension header object, and every header keeps
    its DATA_LEVEL card. *)
Definition keeps_old (h h1 : heap) : Prop :=
  (length (hdrs h) <= length (hdrs h1))%nat /\
  (length (imgs h) <= length (imgs h1))%nat /\
  (forall l im, imgs h !! l = Some im ->
     exists im1, imgs h1 !! l = Some im1 /\ ext_hdr im1 = ext_hdr im) /\
  (forall x hd, hdrs h !! x = Some hd ->
     exists hd1, hdrs h1 !! x = Some hd1 /\
       header_get "DATA_LEVEL" hd1 = header_get "DATA_LEVEL" hd).

(** A frame created after the store [h] was taken: a new Image object
    with a new extension header object. *)
Definition created_after (h h1 : heap) (f : loc) : Prop :=
  (length (imgs h) <= f)%nat /\
  exists im, imgs h1 !! f = Some im /\ (length (hdrs h) <= ext_hdr im)%nat.

(** A store with two frames at level L1, and one whose second frame is
    at level L2a already. *)
Definition l1_heap : heap :=
  MkHeap [[1; 2]%Q; [0; 0]%Q; [0; 0]%Q; [3; 4]%Q; [0; 0]%Q; [0; 0]%Q]
         [[("OBSTYPE", HStr "SCI")]; [("DATA_LEVEL", HStr "L1")];
          [("OBSTYPE", HStr "SCI")]; [("DATA_LEVEL", HStr "L1"); ("HISTORY", HStr "made")]]
         [MkImage (NdArray 0 0 [1; 2]%nat) (NdArray 1 0 [1; 2]%nat)
                  (NdArray 2 0 [1; 2]%nat) 0 1 "a.fits" ".";
          MkImage (NdArray 3 0 [1; 2]%nat) (NdArray 4 0 [1; 2]%nat)
                  (NdArray 5 0 [1; 2]%nat) 2 3 "b.fits" "."] 0.

Definition mixed_heap : heap :=
  set_hdrs [[("OBSTYPE", HStr "SCI")]; [("DATA_LEVEL", HStr "L1")];
            [("OBSTYPE", HStr "SCI")]; [("DATA_LEVEL", HStr "L2a")]] l1_heap.

(** A Dataset record over the two frames (the check of [update_to_l2a]
    and its copy read the frames only). *)
Definition two_frames : Dataset :=
  MkDataset [0; 1]%nat (NdArray 0 0 [1; 1; 2]%nat) (NdArray 1 0 [1; 1; 2]%nat)
            (NdArray 2 0 [1; 1; 2]%nat).

(** * Properties *)

(** ** The monad *)

Lemma bind_Ok {A B} (m : Py A) (k : A -> Py B) h h' b :
  py_bind m k h = (h', Ok b) ->
  exists h1 a, m h = (h1, Ok a) /\ k a h1 = (h', Ok b).
Proof.
  unfold py_bind. destruct (m h) as [h1 [a|e]]; [eauto | discriminate].
Qed.

Lemma bind_Raise {A B} (m : Py A) (k : A -> Py B) h h' e :
  py_bind m k h = (h', Raise e) ->
  m h = (h', Raise e) \/ exists h1 a, m h = (h1, Ok a) /\ k a h1 = (h', Raise e).
Proof.
  unfold py_bind. destruct (m h) as [h1 [a|e']]; [eauto | left; congruence].
Qed.

Lemma bind_run {A B} (m : Py A) (k : A -> Py B) h h1 a :
  m h = (h1, Ok a) -> py_bind m k h = k a h1.
Proof. unfold py_bind. now intros ->. Qed.

Lemma bind_fail {A B} (m : Py A) (k : A -> Py B) h h1 e :
  m h = (h1, Raise e) -> py_bind m k h = (h1, Raise e).
Proof. unfold py_bind. now intros ->. Qed.

(** ** Reading the store *)

Lemma get_img_inv l h h' r :
  get_img l h = (h', r) ->
  h' = h /\ match r with Ok im => imgs h !! l = Some im | Raise _ => imgs h !! l = None end.
Proof.
  unfold get_img, lift_opt. destruct (imgs h !! l); cbv [py_ret raise];
    intros [= <- <-]; auto.
Qed.

Lemma get_hdr_inv l h h' r :
  get_hdr l h = (h', r) ->
  h' = h /\ match r with Ok hd => hdrs h !! l = Some hd | Raise _ => hdrs h !! l = None end.
Proof.
  unfold get_hdr, lift_opt. destruct (hdrs h !! l); cbv [py_ret raise];
    intros [= <- <-]; auto.
Qed.

Lemma read_inv a h h' r :
  read a h = (h', r) ->
  h' = h /\ match r with Ok c => contents a h = Some c | Raise _ => contents a h = None end.
Proof.
  unfold read, lift_opt. destruct (contents a h); cbv [py_ret raise];
    intros [= <- <-]; auto.
Qed.

Lemma contents_length a h c :
  contents a h = Some c -> length c = size_of (shape a).
Proof.
  unfold contents. destruct (bufs h !! buf a) as [b|]; simpl; [|discriminate].
  case_decide; [|discriminate]. intros [= <-].
  rewrite length_take, length_drop. lia.
Qed.

(** A comprehension that only reads an attribute of each frame leaves the
    store alone. *)
Lemma comprehension_attr {B} (g : Image -> B) fs h h' r :
  comprehension (fun f => let* im := get_img f in py_ret (g im)) fs h = (h', r) ->
  h' = h /\
  match r with
  | Ok l => Forall2 (fun f x => exists im, imgs h !! f = Some im /\ x = g im) fs l
  | Raise _ => True
  end.
Proof.
  revert h' r. induction fs as [|f fs IH]; intros h' r; simpl.
  - intros [= <- <-]. split; [done|constructor].
  - unfold py_bind at 1. unfold py_bind at 1.
    destruct (get_img f h) as [h1 [im|e]] eqn:E; apply get_img_inv in E as [-> E].
    + cbv [py_ret]. unfold py_bind at 1.
      destruct (comprehension _ fs h) as [h2 [l|e]];
        destruct (IH _ _ eq_refl) as [-> E2].
      * intros [= <- <-]. split; [done|]. constructor; eauto.
      * intros [= <- <-]. done.
    + intros [= <- <-]. done.
Qed.

Lemma comprehension_read l h h' r :
  comprehension read l h = (h', r) ->
  h' = h /\
  match r with
  | Ok cs => Forall2 (fun a c => contents a h = Some c) l cs
  | Raise _ => True
  end.
Proof.
  revert h' r. induction l as [|a l IH]; intros h' r; simpl.
  - intros [= <- <-]. split; [done|constructor].
  - unfold py_bind at 1.
    destruct (read a h) as [h1 [c|e]] eqn:E; apply read_inv in E as [-> E].
    + unfold py_bind at 1.
      destruct (comprehension read l h) as [h2 [cs|e]];
        destruct (IH _ _ eq_refl) as [-> E2].
      * intros [= <- <-]. split; [done|]. constructor; eauto.
      * intros [= <- <-]. done.
    + intros [= <- <-]. done.
Qed.

Lemma concat_length_uniform (cs : list (list pix)) n :
  Forall (fun c => length c = n) cs -> length (concat cs) = (length cs * n)%nat.
Proof.
  induction 1 as [|c cs Hc _ IH]; simpl; [done|].
  rewrite length_app, IH, Hc. lia.
Qed.

(** [np.array] of a non-empty list allocates one new buffer and touches
    nothing else. *)
Lemma np_array_Ok a l h h' r :
  np_array (a :: l) h = (h', Ok r) ->
  exists c, h' = set_bufs (bufs h ++ [c]) h /\
            r = NdArray (length (bufs h)) 0 (S (length l) :: shape a) /\
            length c = (S (length l) * size_of (shape a))%nat.
Proof.
  unfold np_array.
  destruct (forallb _ _) eqn:Hall; [|discriminate].
  intros H. apply bind_Ok in H as (h1 & cs & Hcs & H).
  apply comprehension_read in Hcs as [-> Hcs].
  unfold alloc in H. injection H as <- <-.
  exists (concat cs). split; [done|]. split; [done|].
  rewrite (concat_length_uniform cs (size_of (shape a))).
  - apply Forall2_length in Hcs. rewrite <- Hcs. done.
  - rewrite forallb_forall in Hall.
    clear -Hcs Hall.
    induction Hcs as [|b c l' cs' Hb _ IH]; constructor.
    + apply contents_length in Hb. rewrite Hb.
      assert (Hin : In b (b :: l')) by (left; done).
      apply Hall in Hin. apply bool_decide_eq_true in Hin. by rewrite Hin.
    + apply IH. intros x Hx. apply Hall. by right.
Qed.

(** ** Views and aliasing *)

Lemma subarray_inv a i h h' r :
  subarray a i h = (h', r) ->
  h' = h /\ match r with
            | Ok b => b = view a i /\ has_slice a i
            | Raise _ => True
            end.
Proof.
  unfold subarray, view, has_slice. destruct (shape a) as [|n s] eqn:Hs; simpl.
  - intros [= <- <-]. done.
  - case_decide; cbv [py_ret raise]; intros [= <- <-]; split; try done.
    split; [done|]. exists n. done.
Qed.

Lemma ravel_index_lt s idx o : ravel_index s idx = Some o -> (o < size_of s)%nat.
Proof.
  revert idx o. induction s as [|n s IH]; intros [|i idx] o; simpl; try discriminate.
  - intros [= <-]. lia.
  - case_decide; [|discriminate].
    destruct (ravel_index s idx) as [r|] eqn:E; [|discriminate].
    intros [= <-]. apply IH in E. unfold size_of in *. nia.
Qed.

Lemma getitem_view a k idx h :
  has_slice a k -> getitem (view a k) idx h = getitem a (k :: idx) h.
Proof.
  intros (n & Hs & Hk). unfold getitem, view. simpl. rewrite Hs. simpl.
  rewrite decide_True by done.
  destruct (ravel_index (tail (shape a)) idx) as [r|]; simpl; [|done].
  by rewrite Nat.add_assoc.
Qed.

Lemma setitem_view a k idx v h :
  has_slice a k -> setitem (view a k) idx v h = setitem a (k :: idx) v h.
Proof.
  intros (n & Hs & Hk). unfold setitem, view. simpl. rewrite Hs. simpl.
  rewrite decide_True by done.
  destruct (ravel_index (tail (shape a)) idx) as [r|]; simpl; [|done].
  by rewrite Nat.add_assoc.
Qed.

Lemma getitem_setitem a idx v h h' :
  setitem a idx v h = Some h' -> getitem a idx h' = Some v.
Proof.
  unfold setitem, getitem.
  destruct (ravel_index (shape a) idx) as [o|]; simpl; [|discriminate].
  destruct (bufs h !! buf a) as [b|] eqn:Hb; simpl; [|discriminate].
  case_decide; [|discriminate]. intros [= <-]. simpl.
  rewrite list_lookup_insert_eq by (by eapply lookup_lt_Some). simpl.
  by rewrite list_lookup_insert_eq.
Qed.

Lemma getitem_setitem_other a b idx idx' v h h' :
  buf a <> buf b -> setitem a idx v h = Some h' ->
  getitem b idx' h' = getitem b idx' h.
Proof.
  intros Hne. unfold setitem, getitem.
  destruct (ravel_index (shape a) idx) as [o|]; simpl; [|discriminate].
  destruct (bufs h !! buf a) as [c|]; simpl; [|discriminate].
  case_decide; [|discriminate]. intros [= <-]. simpl.
  by rewrite list_lookup_insert_ne.
Qed.

Lemma view_shares a k : has_slice a k -> shares (view a k) a k.
Proof.
  intros Hs h h' idx v. split; intros H.
  - rewrite setitem_view in H by done. by eapply getitem_setitem.
  - rewrite getitem_view by done. by eapply getitem_setitem.
Qed.

Lemma view_writable a k h c :
  has_slice a k ->
  bufs h !! buf a = Some c -> (off a + size_of (shape a) <= length c)%nat ->
  writable (view a k) h.
Proof.
  intros (n & Hs & Hk) Hc Hlen idx v [o Ho]. unfold setitem. simpl in *.
  rewrite Ho, Hc. simpl. apply ravel_index_lt in Ho.
  rewrite Hs in Hlen. simpl in Hlen.
  rewrite decide_True; [eauto|].
  assert (k * size_of (tail (shape a)) + size_of (tail (shape a))
          <= n * size_of (tail (shape a)))%nat by nia.
  lia.
Qed.

(** ** Dataset.__init__ *)

Lemma modify_img_inv l f h h' r :
  modify_img l f h = (h', r) ->
  match r with
  | Ok _ => exists im, imgs h !! l = Some im /\ h' = set_imgs (<[l := f im]> (imgs h)) h
  | Raise _ => h' = h
  end.
Proof.
  unfold modify_img, py_bind.
  destruct (get_img l h) as [h1 [im|e]] eqn:E; apply get_img_inv in E as [-> E].
  - intros [= <- <-]. eauto.
  - intros [= <- <-]. done.
Qed.

Lemma point_frames_Ok ad ae aq fs : forall i h h',
  NoDup fs ->
  point_frames ad ae aq i fs h = (h', Ok tt) ->
  bufs h' = bufs h /\ hdrs h' = hdrs h /\
  (forall k f, fs !! k = Some f ->
     exists im, imgs h !! f = Some im /\
       imgs h' !! f = Some (with_arrays (view ad (i + k)) (view ae (i + k))
                                        (view aq (i + k)) im) /\
       has_slice ad (i + k) /\ has_slice ae (i + k) /\ has_slice aq (i + k)) /\
  (forall f, f ∉ fs -> imgs h' !! f = imgs h !! f).
Proof.
  induction fs as [|f fs IH]; intros i h h' Hnd H; simpl in H.
  - injection H as <-. split; [done|]. split; [done|]. split; [|done].
    intros k f Hk. by rewrite lookup_nil in Hk.
  - apply NoDup_cons in Hnd as [Hf Hnd].
    apply bind_Ok in H as (h1 & d & Hd & H). apply subarray_inv in Hd as [-> [-> Hsd]].
    apply bind_Ok in H as (h1 & e & He & H). apply subarray_inv in He as [-> [-> Hse]].
    apply bind_Ok in H as (h1 & q & Hq & H). apply subarray_inv in Hq as [-> [-> Hsq]].
    apply bind_Ok in H as (h1 & [] & Hm & H).
    apply modify_img_inv in Hm as (im & Him & ->).
    apply IH in H as (Hb & Hh & Hfr & Hot); [|done].
    simpl in *. split; [done|]. split; [done|]. split.
    + intros [|k] f' Hk; simpl in Hk.
      * injection Hk as <-. exists im.
        rewrite Hot by done. rewrite list_lookup_insert_eq by (by eapply lookup_lt_Some).
        rewrite Nat.add_0_r. done.
      * destruct (Hfr _ _ Hk) as (im' & Him' & Hnew & Hs).
        assert (f' <> f) by (intros ->; apply Hf; by eapply list_elem_of_lookup_2).
        rewrite list_lookup_insert_ne in Him' by done.
        exists im'. replace (i + S k)%nat with (S i + k)%nat by lia. done.
    + intros f' Hf'. apply not_elem_of_cons in Hf' as [Hne Hf'].
      rewrite Hot by done. by rewrite list_lookup_insert_ne.
Qed.

(** ** In-place operations keep the layout *)

Lemma keeps_layout_ret {A} (a : A) : keeps_layout (py_ret a).
Proof. intros h h' r [= <- <-]. done. Qed.

Lemma keeps_layout_raise {A} e : keeps_layout (@raise A e).
Proof. intros h h' r [= <- <-]. done. Qed.

Lemma keeps_layout_bind {A B} (m : Py A) (k : A -> Py B) :
  keeps_layout m -> (forall a, keeps_layout (k a)) -> keeps_layout (py_bind m k).
Proof.
  intros Hm Hk h h' r. unfold py_bind.
  destruct (m h) as [h1 [a|e]] eqn:E; apply Hm in E.
  - intros H. apply Hk in H. congruence.
  - intros [= <- <-]. done.
Qed.

Lemma keeps_layout_get_img l : keeps_layout (get_img l).
Proof. intros h h' r H. by apply get_img_inv in H as [-> _]. Qed.

Lemma keeps_layout_read a : keeps_layout (read a).
Proof. intros h h' r H. by apply read_inv in H as [-> _]. Qed.

Lemma keeps_layout_hdr_set l k v : keeps_layout (hdr_set l k v).
Proof.
  apply keeps_layout_bind.
  - intros h h' r. unfold get_hdr, lift_opt.
    destruct (hdrs h !! l); cbv [py_ret raise]; intros [= <- <-]; done.
  - intros hd h h' r [= <- <-]. done.
Qed.

Lemma fmap_length_insert (bs : list (list pix)) i b b' :
  bs !! i = Some b -> length b' = length b ->
  length <$> <[i := b']> bs = length <$> bs.
Proof.
  intros Hb Hl. rewrite list_fmap_insert, Hl.
  apply list_insert_id. by rewrite list_lookup_fmap, Hb.
Qed.

Lemma keeps_layout_assign_all a c : keeps_layout (assign_all a c).
Proof.
  intros h h' r. unfold assign_all.
  destruct (bufs h !! buf a) as [b|] eqn:Hb; [|by intros [= <- <-]].
  case_decide as Hd; [|by intros [= <- <-]].
  intros [= <- <-]. unfold layout. simpl. f_equal.
  apply (fmap_length_insert _ _ b); [done|].
  rewrite !length_app, length_take, length_drop. lia.
Qed.

Lemma keeps_layout_replace_contents what old new :
  keeps_layout (replace_contents what old new).
Proof.
  unfold replace_contents. destruct new as [a|]; [|apply keeps_layout_ret].
  case_decide; [apply keeps_layout_raise|].
  apply keeps_layout_bind; [apply keeps_layout_read|].
  intros c. apply keeps_layout_assign_all.
Qed.

Lemma keeps_layout_for_each {A} (body : A -> Py unit) l :
  (forall x, keeps_layout (body x)) -> keeps_layout (for_each body l).
Proof.
  intros Hb. induction l as [|x l IH]; simpl; [apply keeps_layout_ret|].
  apply keeps_layout_bind; [apply Hb|]. intros _. apply IH.
Qed.

Lemma keeps_layout_update self entry nd ne nq :
  keeps_layout (update_after_processing_step self entry nd ne nq).
Proof.
  unfold update_after_processing_step.
  do 3 (apply keeps_layout_bind; [apply keeps_layout_replace_contents|intros _]).
  apply keeps_layout_for_each. intros f.
  apply keeps_layout_bind; [apply keeps_layout_get_img|].
  intros im. apply keeps_layout_hdr_set.
Qed.

Lemma setitem_layout a idx v h h' :
  setitem a idx v h = Some h' -> layout h' = layout h.
Proof.
  unfold setitem.
  destruct (ravel_index (shape a) idx) as [o|]; simpl; [|discriminate].
  destruct (bufs h !! buf a) as [b|] eqn:Hb; simpl; [|discriminate].
  case_decide; [|discriminate]. intros [= <-]. unfold layout. simpl. f_equal.
  apply (fmap_length_insert _ _ b); [done|]. by rewrite length_insert.
Qed.

Lemma in_place_layout h h2 : in_place h h2 -> layout h2 = layout h.
Proof.
  induction 1 as [h|h a idx v h1 h2 Hw _ IH|h self e nd ne nq r h1 h2 Hu _ IH].
  - done.
  - apply setitem_layout in Hw. congruence.
  - apply keeps_layout_update in Hu. congruence.
Qed.

Lemma writable_layout a h h2 :
  layout h2 = layout h -> writable a h -> writable a h2.
Proof.
  intros Hl Hw idx v Hidx. destruct (Hw idx v Hidx) as [h' Hset].
  unfold setitem in *. destruct Hidx as [o Ho]. rewrite Ho in *. simpl in *.
  revert Hset.
  destruct (bufs h !! buf a) as [b|] eqn:Hb; simpl; [|discriminate].
  case_decide as Hlt; [|discriminate]. intros _.
  injection Hl as _ Hlen.
  assert (Hb2 : (length <$> bufs h2) !! buf a = Some (length b))
    by (by rewrite Hlen, list_lookup_fmap, Hb).
  rewrite list_lookup_fmap in Hb2.
  destruct (bufs h2 !! buf a) as [b2|]; simpl in *; [|discriminate].
  injection Hb2 as Hb2. rewrite decide_True by lia. eauto.
Qed.

Lemma aliased_layout d h h2 :
  layout h2 = layout h -> aliased d h -> aliased d h2.
Proof.
  intros Hl Hal k f Hk.
  destruct (Hal k f Hk) as (im & Him & Sd & Se & Sq & Wd & We & Wq).
  exists im. pose proof Hl as [= Hi _]. rewrite Hi.
  repeat (split; [done|]). repeat split; by eapply writable_layout.
Qed.

(** The constructor establishes the aliasing for distinct frames. *)
Lemma Dataset_init_aliased (fs : list loc) (h h' : heap) (d : Dataset) :
  NoDup fs -> Dataset_init fs h = (h', Ok d) -> frames d = fs /\ aliased d h'.
Proof.
  intros Hnd H. unfold Dataset_init in H.
  case_decide as Hlen; [discriminate|].
  apply bind_Ok in H as (h1 & ds & Hds & H).
  apply comprehension_attr in Hds as [-> Hds].
  apply bind_Ok in H as (h1 & ad & Had & H).
  apply bind_Ok in H as (h2 & es & Hes & H).
  apply comprehension_attr in Hes as [-> Hes].
  apply bind_Ok in H as (h2 & ae & Hae & H).
  apply bind_Ok in H as (h3 & qs & Hqs & H).
  apply comprehension_attr in Hqs as [-> Hqs].
  apply bind_Ok in H as (h3 & aq & Haq & H).
  apply bind_Ok in H as (h4 & [] & Hpf & H).
  injection H as <- <-.
  pose proof (Forall2_length _ _ _ Hds) as Lds.
  pose proof (Forall2_length _ _ _ Hes) as Les.
  pose proof (Forall2_length _ _ _ Hqs) as Lqs.
  destruct ds as [|a0 ds]; [simpl in Lds; lia|].
  destruct es as [|e0 es]; [simpl in Les; lia|].
  destruct qs as [|q0 qs]; [simpl in Lqs; lia|].
  apply np_array_Ok in Had as (c1 & -> & -> & Hc1).
  apply np_array_Ok in Hae as (c2 & -> & -> & Hc2).
  apply np_array_Ok in Haq as (c3 & -> & -> & Hc3).
  apply point_frames_Ok in Hpf as (Hb & _ & Hfr & _); [|done].
  split; [done|]. intros k f Hk. simpl in Hk.
  destruct (Hfr _ _ Hk) as (im & _ & Him & Sd & Se & Sq).
  simpl in *. exists (with_arrays
     (view (NdArray (length (bufs h)) 0 (S (length ds) :: shape a0)) k)
     (view (NdArray (length (bufs h ++ [c1])) 0 (S (length es) :: shape e0)) k)
     (view (NdArray (length ((bufs h ++ [c1]) ++ [c2])) 0 (S (length qs) :: shape q0)) k)
     im).
  split; [done|]. simpl.
  split; [by apply view_shares|]. split; [by apply view_shares|].
  split; [by apply view_shares|].
  rewrite !length_app in *. simpl in *.
  split; [|split].
  - eapply (view_writable _ _ _ c1); [done| |simpl; lia].
    rewrite Hb. simpl. rewrite <- !app_assoc.
    rewrite lookup_app_r by lia. by rewrite Nat.sub_diag.
  - eapply (view_writable _ _ _ c2); [done| |simpl; lia].
    rewrite Hb. simpl. rewrite <- (app_assoc (bufs h)).
    rewrite <- (app_assoc (bufs h)). rewrite lookup_app_r by lia.
    replace (length (bufs h) + 1 - length (bufs h))%nat with 1%nat by lia. done.
  - eapply (view_writable _ _ _ c3); [done| |simpl; lia].
    rewrite Hb. simpl. rewrite lookup_app_r by (rewrite !length_app; simpl; lia).
    rewrite !length_app. simpl.
    replace (length (bufs h) + 1 + 1 - (length (bufs h) + 1 + 1))%nat with 0%nat by lia.
    done.
Qed.

(** C1 (amended).  For a Dataset constructed from a non-empty list of
    pairwise distinct Frame objects, the frame at each position [k] shares
    its data, err and dq arrays with slice [k] of all_data, all_err and
    all_dq: a write through the frame is read back through the cube and
    conversely, and every cell of the frame's arrays can be written.  This
    holds from construction on and after any sequence of pixel writes and
    calls of update_after_processing_step, the operations that re-point no
    frame. *)
Theorem Dataset_init_aliasing (fs : list loc) (h : heap) :
  NoDup fs -> frames_alias_cubes fs h.
Proof.
  intros Hnd h' d h2 Hinit Hip.
  destruct (Dataset_init_aliased fs h h' d Hnd Hinit) as [Hfs Hal].
  split; [done|]. eapply aliased_layout; [|exact Hal]. by apply in_place_layout.
Qed.

(** C1, a concrete instance: two distinct frames; a pixel written through
    the first frame is read back through the cube. *)
Lemma Dataset_init_aliasing_witness :
  NoDup [0; 1]%nat /\
  exists h' d im h2,
    Dataset_init [0; 1]%nat two_frame_heap = (h', Ok d) /\
    imgs h' !! 0%nat = Some im /\
    setitem (data im) [0; 1]%nat 7%Q h' = Some h2 /\
    getitem (all_data d) [0; 0; 1]%nat h2 = Some 7%Q /\
    aliased d h2.
Proof.
  assert (Hnd : NoDup [0; 1]%nat).
  { apply NoDup_cons. split; [|apply NoDup_singleton].
    intros Hin. apply list_elem_of_singleton in Hin. discriminate. }
  split; [exact Hnd|].
  destruct (Dataset_init [0; 1]%nat two_frame_heap) as [h' r] eqn:E.
  assert (Hr : exists d, r = Ok d)
    by (vm_compute in E; injection E as _ <-; eexists; reflexivity).
  destruct Hr as [d ->].
  destruct (Dataset_init_aliasing [0; 1]%nat two_frame_heap Hnd h' d h' E
              (in_place_refl h')) as [Hfs Hal].
  destruct (Hal 0%nat 0%nat) as (im & Him & Sd & _ & _ & Wd & _).
  { by rewrite Hfs. }
  destruct (Wd [0; 1]%nat 7%Q) as [h2 Hset].
  { assert (Hs : shape (data im) = [1; 2]%nat).
    { vm_compute in E. injection E as <- <-. vm_compute in Him.
      injection Him as <-. reflexivity. }
    rewrite Hs. by eexists. }
  exists h', d, im, h2. split; [reflexivity|]. split; [exact Him|].
  split; [exact Hset|]. split; [by apply (Sd h' h2)|].
  exact (proj2 (Dataset_init_aliasing [0; 1]%nat two_frame_heap Hnd h' d h2 E
                  (in_place_write _ _ _ _ _ _ Hset (in_place_refl h2)))).
Defined.

(** C1 as stated fails in two ways.  When one Frame object occupies two
    positions it ends up pointing at the last of its slices, so it does
    not alias slice 0 although it is the frame at position 0.  And the
    aliasing of a well-built Dataset ends without any shape change when a
    slice of it, [d[0:1]], is taken: the new Dataset re-points the frame
    at its own cube. *)
Lemma Dataset_init_aliasing_counterexample :
  ~ frames_alias_cubes [0; 0]%nat one_frame_heap /\
  (aliased demo_dataset demo_heap /\
   exists h1 s, Dataset_getitem_slice demo_dataset 0 1 demo_heap = (h1, Ok s) /\
                ~ aliased demo_dataset h1).
Proof.
  split; [|split].
  - intros Hclaim.
    destruct (Dataset_init [0; 0]%nat one_frame_heap) as [h' r] eqn:E.
    pose proof E as E'. vm_compute in E'. injection E' as <- <-.
    destruct (Hclaim _ _ _ E (in_place_refl _)) as [_ Hal].
    destruct (Hal 0%nat 0%nat eq_refl) as (im & Him & Hsh & _).
    vm_compute in Him. injection Him as <-.
    match type of E with
    | _ = (?hh, _) =>
        match type of Hsh with
        | shares ?a _ _ =>
            let r := eval vm_compute in (setitem a [0; 0]%nat 7%Q hh) in
            match r with
            | Some ?h2 => destruct (Hsh hh h2 [0; 0]%nat 7%Q) as [Hw _]
            end
        end
    end.
    specialize (Hw ltac:(vm_compute; reflexivity)).
    vm_compute in Hw. discriminate.
  - apply (Dataset_init_aliased [0; 1]%nat two_frame_heap).
    + apply NoDup_cons. split; [|apply NoDup_singleton].
      intros Hin. apply list_elem_of_singleton in Hin. discriminate.
    + vm_compute. reflexivity.
  - destruct (Dataset_getitem_slice demo_dataset 0 1 demo_heap) as [h1 r] eqn:E.
    vm_compute in E. injection E as <- <-.
    eexists _, _. split; [reflexivity|]. intros Hal.
    destruct (Hal 0%nat 0%nat eq_refl) as (im & Him & Hsh & _).
    vm_compute in Him. injection Him as <-.
    match type of Hsh with
    | shares ?a _ _ =>
        match goal with
        | Hx : aliased _ ?hh |- _ =>
            let r := eval vm_compute in (setitem a [0; 0]%nat 7%Q hh) in
            match r with
            | Some ?h2 => destruct (Hsh hh h2 [0; 0]%nat 7%Q) as [Hw _]
            end
        end
    end.
    specialize (Hw ltac:(vm_compute; reflexivity)).
    vm_compute in Hw. discriminate.
Qed.

(** ** Headers *)

Lemma history_cons c hd :
  history (c :: hd) =
  (if bool_decide (c.1 = "HISTORY") then [c.2] else []) ++ history hd.
Proof. unfold history. simpl. by destruct (bool_decide (c.1 = "HISTORY")). Qed.

Lemma has_key_cons k c hd :
  has_key k (c :: hd) = bool_decide (c.1 = k) || has_key k hd.
Proof. done. Qed.

Lemma has_key_false_history hd :
  has_key "HISTORY" hd = false -> history hd = [].
Proof.
  induction hd as [|c hd IH]; [done|].
  rewrite has_key_cons, history_cons.
  destruct (bool_decide (c.1 = "HISTORY")); simpl; [discriminate|]. exact IH.
Qed.

Lemma history_insert_after_last v hd :
  has_key "HISTORY" hd = true ->
  history (insert_after_last "HISTORY" v hd) = history hd ++ [v].
Proof.
  induction hd as [|c hd IH]; [discriminate|].
  rewrite has_key_cons. cbn [insert_after_last].
  destruct (has_key "HISTORY" hd) eqn:Hk.
  - intros _. rewrite !history_cons, IH by done. by rewrite app_assoc.
  - rewrite orb_false_r. intros Hc. rewrite Hc.
    apply has_key_false_history in Hk.
    rewrite !history_cons, Hc, Hk. simpl. done.
Qed.

Lemma history_header_update v hd :
  history (header_update "HISTORY" v hd) = history hd ++ [v].
Proof.
  unfold header_update. simpl.
  destruct (has_key "HISTORY" hd) eqn:Hk.
  - by apply history_insert_after_last.
  - unfold history. rewrite List.filter_app, fmap_app. simpl. done.
Qed.

Lemma other_cards_cons c hd :
  other_cards (c :: hd) =
  (if bool_decide (c.1 = "HISTORY") then [] else [c]) ++ other_cards hd.
Proof. unfold other_cards. simpl. by destruct (bool_decide (c.1 = "HISTORY")). Qed.

Lemma other_cards_insert_after_last v hd :
  other_cards (insert_after_last "HISTORY" v hd) = other_cards hd.
Proof.
  induction hd as [|c hd IH]; [done|]. cbn [insert_after_last].
  destruct (has_key "HISTORY" hd).
  - by rewrite !other_cards_cons, IH.
  - destruct (bool_decide (c.1 = "HISTORY")) eqn:Hc; [|done].
    rewrite !other_cards_cons, Hc. simpl. done.
Qed.

Lemma other_cards_header_update v hd :
  other_cards (header_update "HISTORY" v hd) = other_cards hd.
Proof.
  unfold header_update. simpl.
  destruct (has_key "HISTORY" hd).
  - apply other_cards_insert_after_last.
  - unfold other_cards. rewrite List.filter_app. simpl. by rewrite app_nil_r.
Qed.

Lemma history_iter n v hd :
  history (Nat.iter n (header_update "HISTORY" v) hd) = history hd ++ replicate n v.
Proof.
  induction n as [|n IH]; simpl.
  - by rewrite app_nil_r.
  - rewrite history_header_update, IH, <- app_assoc.
    f_equal. change (v :: replicate n v) with (replicate (S n) v).
    by rewrite replicate_S_end.
Qed.

Lemma other_cards_iter n v hd :
  other_cards (Nat.iter n (header_update "HISTORY" v) hd) = other_cards hd.
Proof.
  induction n as [|n IH]; simpl; [done|]. by rewrite other_cards_header_update.
Qed.

Lemma hdr_set_inv l k v h h' r :
  hdr_set l k v h = (h', r) ->
  match r with
  | Ok _ => exists hd, hdrs h !! l = Some hd /\
                       h' = set_hdrs (<[l := header_update k v hd]> (hdrs h)) h
  | Raise _ => h' = h
  end.
Proof.
  unfold hdr_set, py_bind.
  destruct (get_hdr l h) as [h1 [hd|e]] eqn:E; apply get_hdr_inv in E as [-> E].
  - intros [= <- <-]. eauto.
  - intros [= <- <-]. done.
Qed.

(** ** update_after_processing_step *)

Lemma contents_set_other x l b h :
  buf x <> l -> contents x (set_bufs (<[l := b]> (bufs h)) h) = contents x h.
Proof. intros Hne. unfold contents. simpl. by rewrite list_lookup_insert_ne. Qed.

Lemma assign_all_inv a c h h' r :
  assign_all a c h = (h', r) ->
  match r with
  | Ok _ => exists b, bufs h !! buf a = Some b /\
      h' = set_bufs (<[buf a := take (off a) b ++ c
                                ++ drop (off a + size_of (shape a)) b]> (bufs h)) h /\
      contents a h' = Some c
  | Raise _ => h' = h
  end.
Proof.
  unfold assign_all. destruct (bufs h !! buf a) as [b|] eqn:Hb.
  - case_decide as Hd.
    + intros [= <- <-]. exists b. split; [done|]. split; [done|].
      destruct Hd as [Hd1 Hd2]. unfold contents. simpl.
      rewrite list_lookup_insert_eq by (by eapply lookup_lt_Some). simpl.
      rewrite decide_True.
      * f_equal. rewrite drop_app_length' by (rewrite length_take; lia).
        rewrite take_app_length' by done. done.
      * rewrite !length_app, length_take, length_drop. lia.
    + intros [= <- <-]. done.
  - intros [= <- <-]. done.
Qed.

Lemma replace_contents_inv what old new h h' r :
  replace_contents what old new h = (h', r) ->
  hdrs h' = hdrs h /\ imgs h' = imgs h /\ ticks h' = ticks h /\
  length (bufs h') = length (bufs h) /\
  (forall x, buf x <> buf old -> contents x h' = contents x h) /\
  match r with
  | Ok _ => forall a, new = Some a ->
      shape a = shape old /\ exists c, contents a h = Some c /\ contents old h' = Some c
  | Raise _ => h' = h
  end.
Proof.
  unfold replace_contents. destruct new as [a|].
  - case_decide as Hs.
    + intros [= <- <-]. done.
    + unfold py_bind.
      destruct (read a h) as [h1 [c|e]] eqn:E; apply read_inv in E as [-> E].
      * intros H. destruct r as [[]|e]; apply assign_all_inv in H.
        -- destruct H as (b & Hb & -> & Hc). simpl.
           rewrite length_insert.
           split; [done|]. split; [done|]. split; [done|]. split; [done|].
           split; [intros x Hx; by apply contents_set_other|].
           intros a' [= <-]. split; [done|]. eauto.
        -- subst. done.
      * intros [= <- <-]. done.
  - intros [= <- <-].
    split; [done|]. split; [done|]. split; [done|]. split; [done|].
    split; [done|]. intros a [=].
Qed.

Lemma replace_contents_mismatch what old a h :
  shape a <> shape old ->
  replace_contents what old (Some a) h = (h, Raise (ValueError what)).
Proof. intros Hs. unfold replace_contents. by rewrite decide_True. Qed.

Lemma replace_contents_run what old a c h :
  shape a = shape old -> contents a h = Some c -> is_Some (contents old h) ->
  exists h', replace_contents what old (Some a) h = (h', Ok tt) /\
             contents old h' = Some c /\ hdrs h' = hdrs h /\ imgs h' = imgs h.
Proof.
  intros Hs Hc [c0 Hold]. unfold replace_contents.
  rewrite decide_False by (intros Hn; by apply Hn).
  unfold py_bind, read. rewrite Hc. simpl.
  destruct (assign_all old c h) as [h' [[]|e]] eqn:E.
  - pose proof E as E'. apply assign_all_inv in E' as (b & Hb & -> & Hc').
    eexists. split; [done|]. done.
  - exfalso. unfold assign_all in E. unfold contents in Hold.
    destruct (bufs h !! buf old) as [b|]; simpl in Hold; [|discriminate].
    destruct (decide (off old + size_of (shape old) <= length b)%nat) as [Hlen|];
      [|discriminate].
    apply contents_length in Hc. rewrite Hs in Hc.
    rewrite decide_True in E by done. discriminate.
Qed.

Lemma carriers_cons x f fs h :
  carriers x (f :: fs) h =
  ((if match imgs h !! f with
        | Some im => bool_decide (ext_hdr im = x)
        | None => false
        end then 1 else 0) + carriers x fs h)%nat.
Proof.
  unfold carriers. simpl.
  by destruct (match imgs h !! f with Some im => _ | None => _ end).
Qed.

(** The history loop: every header gains one HISTORY card per frame that
    carries it. *)
Lemma history_loop_Ok e fs : forall h h',
  for_each (fun f => let* im := get_img f in
                     hdr_set (ext_hdr im) "HISTORY" (HStr e)) fs h = (h', Ok tt) ->
  bufs h' = bufs h /\ imgs h' = imgs h /\
  (forall f, f ∈ fs -> exists im hd, imgs h !! f = Some im /\
                                    hdrs h !! ext_hdr im = Some hd) /\
  (forall x hd, hdrs h !! x = Some hd ->
     hdrs h' !! x = Some (Nat.iter (carriers x fs h)
                                   (header_update "HISTORY" (HStr e)) hd)).
Proof.
  induction fs as [|f fs IH]; intros h h' H; simpl in H.
  - injection H as <-. repeat split; try done. intros f Hf. by apply elem_of_nil in Hf.
  - apply bind_Ok in H as (h1 & [] & Hb & H).
    apply bind_Ok in Hb as (h0 & im & Him & Hset).
    apply get_img_inv in Him as [-> Him].
    apply hdr_set_inv in Hset as (hd0 & Hhd0 & ->).
    apply IH in H as (Hbufs & Himgs & Hmem & Hhd). simpl in *.
    split; [done|]. split; [done|]. split.
    + intros f' Hf'. apply elem_of_cons in Hf' as [->|Hf']; [eauto|].
      destruct (Hmem _ Hf') as (im' & hd' & Him' & Hhd').
      exists im'. destruct (decide (ext_hdr im' = ext_hdr im)) as [Heq|Hne].
      * rewrite Heq. eauto.
      * rewrite list_lookup_insert_ne in Hhd' by done. eauto.
    + intros x hd Hx. rewrite carriers_cons, Him.
      assert (Hc : forall y, carriers y fs
                 (set_hdrs (<[ext_hdr im:=header_update "HISTORY" (HStr e) hd0]> (hdrs h)) h)
                 = carriers y fs h) by done.
      destruct (decide (ext_hdr im = x)) as [<-|Hne].
      * rewrite bool_decide_eq_true_2 by done.
        rewrite Hx in Hhd0. injection Hhd0 as <-.
        change (1 + ?n)%nat with (S n).
        rewrite Nat.iter_succ_r, <- Hc. apply Hhd.
        rewrite list_lookup_insert_eq by (by eapply lookup_lt_Some). done.
      * rewrite bool_decide_eq_false_2 by done. rewrite <- Hc. apply Hhd.
        by rewrite list_lookup_insert_ne.
Qed.

Lemma carriers_member x f im fs h :
  f ∈ fs -> imgs h !! f = Some im -> ext_hdr im = x -> (1 <= carriers x fs h)%nat.
Proof.
  intros Hf Him Hx.
  induction fs as [|g fs IH]; [by apply elem_of_nil in Hf|].
  rewrite carriers_cons. apply elem_of_cons in Hf as [<-|Hf].
  - rewrite Him, bool_decide_eq_true_2 by done. lia.
  - specialize (IH Hf). lia.
Qed.

(** C3.  [Dataset.update_after_processing_step]: a supplied replacement
    whose shape differs from that of the cube it replaces makes the call
    fail.  When the call succeeds, no array and no frame object is created
    or re-pointed (the store keeps its buffers and its Image objects, so
    frames still share the cubes' memory); each cube for which a
    replacement was supplied now holds the replacement's contents; and the
    extension header of every member frame has gained the history entry,
    once for each member frame that carries that header, its other cards
    unchanged.  The contents are stated for cubes in three different
    buffers and replacements that do not live in a cube overwritten
    earlier in the call. *)
Theorem update_after_processing_step_contract
    (self : Dataset) (entry : string) (nd ne nq : option ndarray)
    (h h' : heap) (r : result unit) :
  update_after_processing_step self entry nd ne nq h = (h', r) ->
  ((mismatched (all_data self) nd \/ mismatched (all_err self) ne \/
    mismatched (all_dq self) nq) -> exists e, r = Raise e) /\
  (r = Ok tt ->
     imgs h' = imgs h /\ length (bufs h') = length (bufs h) /\
     (apart self ne nq ->
        (forall a c, nd = Some a -> contents a h = Some c ->
                     contents (all_data self) h' = Some c) /\
        (forall a c, ne = Some a -> contents a h = Some c ->
                     contents (all_err self) h' = Some c) /\
        (forall a c, nq = Some a -> contents a h = Some c ->
                     contents (all_dq self) h' = Some c)) /\
     (forall f, f ∈ frames self ->
        exists im hd hd',
          imgs h !! f = Some im /\ hdrs h !! ext_hdr im = Some hd /\
          hdrs h' !! ext_hdr im = Some hd' /\
          (1 <= carriers (ext_hdr im) (frames self) h)%nat /\
          history hd' = history hd ++ replicate (carriers (ext_hdr im) (frames self) h)
                                                (HStr entry) /\
          other_cards hd' = other_cards hd)).
Proof.
  intros H.
  assert (Hok : r = Ok tt ->
    exists h1 h2 h3,
      replace_contents "The shape of new_all_data" (all_data self) nd h = (h1, Ok tt) /\
      replace_contents "The shape of new_all_err" (all_err self) ne h1 = (h2, Ok tt) /\
      replace_contents "The shape of new_all_dq" (all_dq self) nq h2 = (h3, Ok tt) /\
      for_each (fun f => let* im := get_img f in
                         hdr_set (ext_hdr im) "HISTORY" (HStr entry))
               (frames self) h3 = (h', Ok tt)).
  { intros ->. unfold update_after_processing_step in H.
    apply bind_Ok in H as (h1 & [] & H1 & H).
    apply bind_Ok in H as (h2 & [] & H2 & H).
    apply bind_Ok in H as (h3 & [] & H3 & H). eauto 10. }
  split.
  - intros Hmis. destruct r as [[]|e]; [|eauto]. exfalso.
    destruct (Hok eq_refl) as (h1 & h2 & h3 & H1 & H2 & H3 & _).
    apply replace_contents_inv in H1 as (_ & _ & _ & _ & _ & H1).
    apply replace_contents_inv in H2 as (_ & _ & _ & _ & _ & H2).
    apply replace_contents_inv in H3 as (_ & _ & _ & _ & _ & H3).
    destruct Hmis as [(a & -> & Hs)|[(a & -> & Hs)|(a & -> & Hs)]].
    + destruct (H1 _ eq_refl) as [Hs' _]. done.
    + destruct (H2 _ eq_refl) as [Hs' _]. done.
    + destruct (H3 _ eq_refl) as [Hs' _]. done.
  - intros Hr. destruct (Hok Hr) as (h1 & h2 & h3 & H1 & H2 & H3 & Hloop).
    apply replace_contents_inv in H1 as (Hh1 & Hi1 & _ & Hl1 & Hf1 & H1).
    apply replace_contents_inv in H2 as (Hh2 & Hi2 & _ & Hl2 & Hf2 & H2).
    apply replace_contents_inv in H3 as (Hh3 & Hi3 & _ & Hl3 & Hf3 & H3).
    apply history_loop_Ok in Hloop as (Hb & Hi & Hmem & Hhd).
    assert (Hcont : forall x, contents x h' = contents x h3).
    { intros x. unfold contents. by rewrite Hb. }
    split; [congruence|]. split; [congruence|]. split.
    + intros (Hde & Hdq & Heq & Hne & Hnq).
      split; [|split].
      * intros a c -> Hc. destruct (H1 _ eq_refl) as (_ & c' & Hc' & Hold).
        rewrite Hcont, Hf3, Hf2 by done. congruence.
      * intros a c -> Hc. destruct (H2 _ eq_refl) as (_ & c' & Hc' & Hold).
        rewrite Hcont, Hf3 by done. rewrite Hold. rewrite <- Hc', <- Hc.
        apply Hf1. by apply Hne.
      * intros a c -> Hc. destruct (H3 _ eq_refl) as (_ & c' & Hc' & Hold).
        rewrite Hcont, Hold. rewrite <- Hc', <- Hc.
        destruct (Hnq _ eq_refl) as [? ?].
        rewrite Hf2, Hf1 by done. done.
    + intros f Hf.
      destruct (Hmem _ Hf) as (im & hd & Him & Hhd3).
      exists im, hd, (Nat.iter (carriers (ext_hdr im) (frames self) h3)
                               (header_update "HISTORY" (HStr entry)) hd).
      assert (Hcar : carriers (ext_hdr im) (frames self) h3
                     = carriers (ext_hdr im) (frames self) h).
      { unfold carriers. by rewrite Hi3, Hi2, Hi1. }
      rewrite <- Hcar.
      split; [congruence|]. split; [congruence|].
      split; [by apply Hhd|].
      split; [by eapply carriers_member|].
      split; [apply history_iter|apply other_cards_iter].
Qed.

(** C9.  [update_after_processing_step] given a replacement for all_data
    of the right shape and one for all_err (or, with none for all_err, one
    for all_dq) of the wrong shape raises the shape error of the latter
    only after all_data has been overwritten: the store it leaves has the
    new contents in all_data and the headers without any new card. *)
Theorem update_after_processing_step_not_atomic
    (self : Dataset) (entry : string) (a b : ndarray) (nq : option ndarray)
    (h : heap) (c : list pix) :
  shape a = shape (all_data self) ->
  contents a h = Some c ->
  is_Some (contents (all_data self) h) ->
  (shape b <> shape (all_err self) ->
   exists h', update_after_processing_step self entry (Some a) (Some b) nq h
              = (h', Raise (ValueError "The shape of new_all_err")) /\
              contents (all_data self) h' = Some c /\ hdrs h' = hdrs h) /\
  (shape b <> shape (all_dq self) ->
   exists h', update_after_processing_step self entry (Some a) None (Some b) h
              = (h', Raise (ValueError "The shape of new_all_dq")) /\
              contents (all_data self) h' = Some c /\ hdrs h' = hdrs h).
Proof.
  intros Hs Hc Hold.
  destruct (replace_contents_run "The shape of new_all_data" _ _ _ _ Hs Hc Hold)
    as (h1 & H1 & Hc1 & Hh1 & _).
  split; intros Hb; exists h1; (split; [|done]);
    unfold update_after_processing_step.
  - rewrite (bind_run _ _ _ _ _ H1).
    apply bind_fail. by apply replace_contents_mismatch.
  - rewrite (bind_run _ _ _ _ _ H1).
    rewrite (bind_run _ _ h1 h1 tt) by done.
    apply bind_fail. by apply replace_contents_mismatch.
Qed.

(** ** Header lookups *)

Lemma header_get_cons k c hd :
  header_get k (c :: hd) = if bool_decide (c.1 = k) then Some c.2 else header_get k hd.
Proof. unfold header_get. simpl. by destruct (bool_decide (c.1 = k)). Qed.

Lemma header_get_update_first k v hd :
  has_key k hd = true -> header_get k (update_first k v hd) = Some v.
Proof.
  induction hd as [|c hd IH]; [discriminate|].
  rewrite has_key_cons. cbn [update_first].
  destruct (bool_decide (c.1 = k)) eqn:Hc; simpl.
  - intros _. rewrite header_get_cons. simpl. by rewrite bool_decide_eq_true_2.
  - intros Hk. rewrite header_get_cons, Hc. by apply IH.
Qed.

Lemma insert_before_trailer_cons c c' hd :
  insert_before_trailer c (c' :: hd) =
  if forallb (fun x : card => is_commentary x.1) (c' :: hd)
  then c :: c' :: hd else c' :: insert_before_trailer c hd.
Proof. done. Qed.

Lemma header_get_insert_before_trailer k v hd :
  has_key k hd = false -> header_get k (insert_before_trailer (k, v) hd) = Some v.
Proof.
  induction hd as [|c hd IH]; intros Hk.
  - simpl. rewrite header_get_cons. simpl. by rewrite bool_decide_eq_true_2.
  - rewrite insert_before_trailer_cons. rewrite has_key_cons in Hk.
    apply orb_false_iff in Hk as [Hc Hk].
    destruct (forallb (fun x : card => is_commentary x.1) (c :: hd)).
    + rewrite header_get_cons. simpl. by rewrite bool_decide_eq_true_2.
    + rewrite header_get_cons, Hc. by apply IH.
Qed.

Lemma header_get_header_update k v hd :
  is_commentary k = false -> header_get k (header_update k v hd) = Some v.
Proof.
  intros Hk. unfold header_update. rewrite Hk. simpl.
  destruct (has_key k hd) eqn:E.
  - by apply header_get_update_first.
  - by apply header_get_insert_before_trailer.
Qed.

Lemma header_get_update_first_ne k k' v hd :
  k <> k' -> header_get k (update_first k' v hd) = header_get k hd.
Proof.
  intros Hne. induction hd as [|c hd IH]; [done|]. cbn [update_first].
  destruct (bool_decide (c.1 = k')) eqn:Hc.
  - apply bool_decide_eq_true in Hc. rewrite !header_get_cons. simpl.
    rewrite !bool_decide_eq_false_2 by congruence. done.
  - by rewrite !header_get_cons, IH.
Qed.

Lemma header_get_insert_before_trailer_ne k k' v hd :
  k <> k' -> header_get k (insert_before_trailer (k', v) hd) = header_get k hd.
Proof.
  intros Hne. induction hd as [|c hd IH].
  - simpl. rewrite header_get_cons. simpl. by rewrite bool_decide_eq_false_2.
  - rewrite insert_before_trailer_cons.
    destruct (forallb (fun x : card => is_commentary x.1) (c :: hd)).
    + rewrite (header_get_cons k (k', v)). simpl. by rewrite bool_decide_eq_false_2.
    + by rewrite !header_get_cons, IH.
Qed.

Lemma header_get_header_update_ne k k' v hd :
  k <> k' -> is_commentary k' = false ->
  header_get k (header_update k' v hd) = header_get k hd.
Proof.
  intros Hne Hk'. unfold header_update. rewrite Hk'. simpl.
  destruct (has_key k' hd).
  - by apply header_get_update_first_ne.
  - by apply header_get_insert_before_trailer_ne.
Qed.

(** ** Image.copy *)

Lemma alloc_inv s c h h' r :
  alloc s c h = (h', r) ->
  r = Ok (NdArray (length (bufs h)) 0 s) /\ bufs h' = bufs h ++ [c] /\ same_objects h h'.
Proof. unfold alloc. intros [= <- <-]. done. Qed.

Lemma np_copy_Ok a h h' b :
  np_copy a h = (h', Ok b) ->
  (length (bufs h) <= length (bufs h'))%nat /\ same_objects h h' /\ shape b = shape a.
Proof.
  intros H. apply bind_Ok in H as (h1 & c & Hr & H).
  apply read_inv in Hr as [-> _]. apply alloc_inv in H as ([= ->] & Hb & Hs).
  rewrite Hb, length_app. simpl. split; [lia|done].
Qed.

Lemma maybe_copy_Ok (copy_data : bool) a h h' b :
  (if copy_data then np_copy a else py_ret a) h = (h', Ok b) ->
  (length (bufs h) <= length (bufs h'))%nat /\ same_objects h h' /\ shape b = shape a.
Proof.
  destruct copy_data; [apply np_copy_Ok|]. intros [= <- <-]. done.
Qed.

Lemma hdr_copy_Ok l h h' x :
  hdr_copy l h = (h', Ok x) ->
  exists hd, hdrs h !! l = Some hd /\ x = length (hdrs h) /\
             h' = set_hdrs (hdrs h ++ [hd]) h.
Proof.
  intros H. apply bind_Ok in H as (h1 & hd & Hg & H).
  apply get_hdr_inv in Hg as [-> Hg]. injection H as <- <-. eauto.
Qed.

Lemma checked_Ok what d a h h' b :
  checked_or_zeros what d (Some a) h = (h', Ok b) -> h' = h /\ b = a.
Proof.
  unfold checked_or_zeros. case_decide; [discriminate|]. by intros [= <- <-].
Qed.

(** [Image.__init__] with both headers and both optional arrays given. *)
Lemma Image_init_Ok `{World} d p x e q h h' new :
  Image_init d (Some p) (Some x) (Some e) (Some q) h = (h', Ok new) ->
  exists hx, hdrs h !! x = Some hx /\ new = length (imgs h) /\
    bufs h' = bufs h /\ ticks h' = S (ticks h) /\
    imgs h' = imgs h ++ [MkImage d e q p x "" "."] /\
    hdrs h' = <[x := header_update "DRPCTIME" (HStr (isot (ticks h)))
                       (header_update "DRPVERSN" (HStr version) hx)]> (hdrs h).
Proof.
  intros H0. unfold Image_init in H0.
  apply bind_Ok in H0 as (h1 & e' & He & H0). apply checked_Ok in He as [-> ->].
  apply bind_Ok in H0 as (h1 & q' & Hq & H0). apply checked_Ok in Hq as [-> ->].
  apply bind_Ok in H0 as (h1 & [] & Hs1 & H0).
  apply hdr_set_inv in Hs1 as (hx & Hhx & ->).
  apply bind_Ok in H0 as (h2 & t & Hn & H0). injection Hn as <- <-.
  apply bind_Ok in H0 as (h3 & [] & Hs2 & H0).
  apply hdr_set_inv in Hs2 as (hx' & Hhx' & ->).
  injection H0 as <- <-. simpl in *.
  rewrite list_lookup_insert_eq in Hhx' by (by eapply lookup_lt_Some).
  injection Hhx' as <-.
  exists hx. rewrite list_insert_insert_eq. done.
Qed.

Lemma Image_copy_Ok `{World} self copy_data h h' new :
  (forall im, imgs h !! self = Some im -> is_Some (hdrs h !! ext_hdr im)) ->
  Image_copy self copy_data h = (h', Ok new) ->
  exists im hp hx d e q,
    imgs h !! self = Some im /\
    hdrs h !! pri_hdr im = Some hp /\ hdrs h !! ext_hdr im = Some hx /\
    new = length (imgs h) /\
    (length (bufs h) <= length (bufs h'))%nat /\
    ticks h' = S (S (ticks h)) /\
    imgs h' = imgs h ++ [MkImage d e q (length (hdrs h)) (S (length (hdrs h)))
                                 (filename im) (filedir im)] /\
    shape d = shape (data im) /\ shape e = shape (err im) /\ shape q = shape (dq im) /\
    hdrs h' =
      <[ext_hdr im := header_update "DRPCTIME" (HStr (isot (S (ticks h))))
                        (header_update "DRPVERSN" (HStr version) hx)]>
        (hdrs h ++ [hp; header_update "DRPCTIME" (HStr (isot (ticks h)))
                          (header_update "DRPVERSN" (HStr version) hx)]).
Proof.
  intros Hwf H0. unfold Image_copy in H0.
  apply bind_Ok in H0 as (h0 & im & Him & H0). apply get_img_inv in Him as [-> Him].
  apply Hwf in Him as Lx. apply lookup_lt_is_Some in Lx.
  apply bind_Ok in H0 as (h1 & d & Hd & H0).
  apply maybe_copy_Ok in Hd as (Lb1 & (Hh1 & Hi1 & Ht1) & Sd).
  apply bind_Ok in H0 as (h2 & e & He & H0).
  apply maybe_copy_Ok in He as (Lb2 & (Hh2 & Hi2 & Ht2) & Se).
  apply bind_Ok in H0 as (h3 & q & Hq & H0).
  apply maybe_copy_Ok in Hq as (Lb3 & (Hh3 & Hi3 & Ht3) & Sq).
  apply bind_Ok in H0 as (h4 & p & Hp & H0).
  apply hdr_copy_Ok in Hp as (hp & Hhp & -> & ->).
  apply bind_Ok in H0 as (h5 & x & Hx & H0).
  apply hdr_copy_Ok in Hx as (hx & Hhx & -> & ->).
  apply bind_Ok in H0 as (h6 & new' & Hinit & H0).
  apply Image_init_Ok in Hinit as (hx' & Hhx' & -> & Hb6 & Ht6 & Hi6 & Hh6).
  apply bind_Ok in H0 as (h7 & [] & Hm & H0).
  apply modify_img_inv in Hm as (im1 & Him1 & ->).
  apply bind_Ok in H0 as (h8 & [] & Hs1 & H0).
  apply hdr_set_inv in Hs1 as (hs & Hhs & ->).
  apply bind_Ok in H0 as (h9 & t & Hn & H0). injection Hn as <- <-.
  apply bind_Ok in H0 as (h10 & [] & Hs2 & H0).
  apply hdr_set_inv in Hs2 as (hs' & Hhs' & ->).
  injection H0 as <- <-. simpl in *.
  rewrite Hh3, Hh2, Hh1 in *. rewrite Hi3, Hi2, Hi1 in *.
  rewrite Ht3, Ht2, Ht1 in *.
  pose proof (lookup_lt_Some _ _ _ Hhp) as Lp.
  rewrite lookup_app_l in Hhx by lia.
  rewrite !length_app in *. simpl in *.
  rewrite <- app_assoc in *. simpl in *.
  rewrite lookup_app_r in Hhx' by lia.
  replace (length (hdrs h) + 1 - length (hdrs h))%nat with 1%nat in Hhx' by lia.
  simpl in Hhx'. injection Hhx' as <-.
  rewrite Hi6 in Him1. rewrite lookup_app_r in Him1 by lia.
  rewrite Nat.sub_diag in Him1. simpl in Him1. injection Him1 as <-.
  rewrite Hh6 in *.
  rewrite list_lookup_insert_ne in Hhs by lia.
  rewrite lookup_app_l in Hhs by lia. rewrite Hhx in Hhs. injection Hhs as <-.
  rewrite list_lookup_insert_eq in Hhs'
    by (rewrite length_insert, length_app; simpl; lia).
  injection Hhs' as <-.
  exists im, hp, hx, d, e, q.
  split; [done|]. split; [done|]. split; [done|]. split; [done|].
  split; [rewrite Hb6; lia|]. split; [by rewrite Ht6|]. split.
  { rewrite Hi6. rewrite insert_app_r_alt by lia. rewrite Nat.sub_diag.
    simpl. by rewrite Nat.add_1_r. }
  split; [done|]. split; [done|]. split; [done|].
  rewrite Ht6. rewrite list_insert_insert_eq. f_equal.
  rewrite insert_app_r_alt by lia.
  replace (length (hdrs h) + 1 - length (hdrs h))%nat with 1%nat by lia. done.
Qed.

(** C10.  [Image.copy] stamps the source, not the copy, after the copy is
    built: when [copy] returns, the source frame object still has its
    attributes, but its extension header has DRPVERSN rewritten and
    DRPCTIME set to the second clock reading; the returned frame is a new
    object whose two headers are new header objects, the primary one equal
    to the source's and the extension one the source's header as stamped
    by the constructor, with the first clock reading as DRPCTIME. *)
Theorem Image_copy_stamps_source `{World} (self : loc) (copy_data : bool)
    (h h' : heap) (new : loc) (im : Image) (hx : Header) :
  imgs h !! self = Some im ->
  hdrs h !! ext_hdr im = Some hx ->
  Image_copy self copy_data h = (h', Ok new) ->
  exists im' hx_src hx_new,
    imgs h' !! self = Some im /\
    hdrs h' !! ext_hdr im = Some hx_src /\
    hx_src = header_update "DRPCTIME" (HStr (isot (S (ticks h))))
               (header_update "DRPVERSN" (HStr version) hx) /\
    header_get "DRPVERSN" hx_src = Some (HStr version) /\
    header_get "DRPCTIME" hx_src = Some (HStr (isot (S (ticks h)))) /\
    new = length (imgs h) /\ imgs h' !! new = Some im' /\
    pri_hdr im' = length (hdrs h) /\ ext_hdr im' = S (length (hdrs h)) /\
    hdrs h' !! pri_hdr im' = hdrs h !! pri_hdr im /\
    hdrs h' !! ext_hdr im' = Some hx_new /\
    hx_new = header_update "DRPCTIME" (HStr (isot (ticks h)))
               (header_update "DRPVERSN" (HStr version) hx) /\
    header_get "DRPCTIME" hx_new = Some (HStr (isot (ticks h))).
Proof.
  intros Him Hhx Hc.
  apply Image_copy_Ok in Hc
    as (im0 & hp & hx0 & d & e & q & Him0 & Hhp & Hhx0 & -> & _ & _ & Hi & _ & _ & _ & Hh);
    [|intros im1 Him1; rewrite Him in Him1; injection Him1 as <-; eauto].
  rewrite Him in Him0. injection Him0 as <-.
  rewrite Hhx in Hhx0. injection Hhx0 as <-.
  pose proof (lookup_lt_Some _ _ _ Him) as Ls.
  pose proof (lookup_lt_Some _ _ _ Hhx) as Lx.
  pose proof (lookup_lt_Some _ _ _ Hhp) as Lp.
  eexists _, _, _.
  split. { rewrite Hi. by rewrite lookup_app_l. }
  split. { rewrite Hh. apply list_lookup_insert_eq. rewrite length_app. simpl. lia. }
  split; [done|].
  split. { rewrite header_get_header_update_ne by done.
           by apply header_get_header_update. }
  split; [by apply header_get_header_update|].
  split; [done|].
  split. { rewrite Hi. rewrite lookup_app_r by lia. by rewrite Nat.sub_diag. }
  simpl. split; [done|]. split; [done|].
  split. { rewrite Hh. rewrite list_lookup_insert_ne by lia.
           rewrite lookup_app_r by lia. rewrite Nat.sub_diag. simpl.
           by rewrite Hhp. }
  split. { rewrite Hh. rewrite list_lookup_insert_ne by lia.
           rewrite lookup_app_r by lia.
           replace (S (length (hdrs h)) - length (hdrs h))%nat with 1%nat by lia.
           done. }
  split; [done|]. by apply header_get_header_update.
Qed.

(** ** Dataset.copy *)

Lemma grows_ret {A} (a : A) : grows (py_ret a).
Proof. intros h h' r [= <- <-]. done. Qed.

Lemma grows_raise {A} e : grows (@raise A e).
Proof. intros h h' r [= <- <-]. done. Qed.

Lemma grows_bind {A B} (m : Py A) (k : A -> Py B) :
  grows m -> (forall a, grows (k a)) -> grows (py_bind m k).
Proof.
  intros Hm Hk h h' r. unfold py_bind.
  destruct (m h) as [h1 [a|e]] eqn:E; apply Hm in E.
  - intros H. apply Hk in H. lia.
  - intros [= <- <-]. done.
Qed.

Lemma grows_get_img l : grows (get_img l).
Proof. intros h h' r H. by apply get_img_inv in H as [-> _]. Qed.

Lemma grows_get_hdr l : grows (get_hdr l).
Proof. intros h h' r H. by apply get_hdr_inv in H as [-> _]. Qed.

Lemma grows_read a : grows (read a).
Proof. intros h h' r H. by apply read_inv in H as [-> _]. Qed.

Lemma grows_alloc s c : grows (alloc s c).
Proof.
  intros h h' r H. apply alloc_inv in H as (_ & -> & _). rewrite length_app. lia.
Qed.

Lemma grows_hdr_copy l : grows (hdr_copy l).
Proof.
  apply grows_bind; [apply grows_get_hdr|]. intros hd h h' r [= <- <-]. done.
Qed.

Lemma grows_hdr_set l k v : grows (hdr_set l k v).
Proof.
  apply grows_bind; [apply grows_get_hdr|]. intros hd h h' r [= <- <-]. done.
Qed.

Lemma grows_now `{World} : grows now.
Proof. intros h h' r [= <- <-]. done. Qed.

Lemma grows_new_img im : grows (new_img im).
Proof. intros h h' r [= <- <-]. done. Qed.

Lemma grows_modify_img l f : grows (modify_img l f).
Proof.
  apply grows_bind; [apply grows_get_img|]. intros hd h h' r [= <- <-]. done.
Qed.

Lemma grows_np_copy a : grows (np_copy a).
Proof. apply grows_bind; [apply grows_read|]. intros c. apply grows_alloc. Qed.

Lemma grows_checked what d o : grows (checked_or_zeros what d o).
Proof.
  unfold checked_or_zeros. destruct o as [a|].
  - case_decide; [apply grows_raise|apply grows_ret].
  - apply grows_alloc.
Qed.

Create HintDb grows_db.
#[local] Hint Resolve grows_ret grows_raise grows_get_img grows_get_hdr grows_read
  grows_alloc grows_hdr_copy grows_hdr_set grows_now grows_new_img grows_modify_img
  grows_np_copy grows_checked : grows_db.

Lemma grows_Image_init `{World} d p x e q : grows (Image_init d p x e q).
Proof.
  unfold Image_init. destruct p, x; auto with grows_db.
  repeat (apply grows_bind; [auto with grows_db|intros ?]). auto with grows_db.
Qed.

Lemma grows_Image_copy `{World} self copy_data : grows (Image_copy self copy_data).
Proof.
  unfold Image_copy.
  apply grows_bind; [auto with grows_db|intros im].
  do 3 (apply grows_bind; [destruct copy_data; auto with grows_db|intros ?]).
  do 2 (apply grows_bind; [auto with grows_db|intros ?]).
  apply grows_bind; [apply grows_Image_init|intros ?].
  repeat (apply grows_bind; [auto with grows_db|intros ?]). auto with grows_db.
Qed.

Lemma grows_comprehension {A B} (f : A -> Py B) l :
  (forall x, grows (f x)) -> grows (comprehension f l).
Proof.
  intros Hf. induction l as [|x l IH]; simpl; [apply grows_ret|].
  apply grows_bind; [apply Hf|intros y].
  apply grows_bind; [apply IH|intros ys]. apply grows_ret.
Qed.

(** The cubes of a new Dataset are buffers the store did not have. *)
Lemma Dataset_init_cubes fs h h' d :
  Dataset_init fs h = (h', Ok d) ->
  (length (bufs h) <= buf (all_data d))%nat /\
  (length (bufs h) <= buf (all_err d))%nat /\
  (length (bufs h) <= buf (all_dq d))%nat.
Proof.
  intros H. unfold Dataset_init in H.
  case_decide as Hlen; [discriminate|].
  apply bind_Ok in H as (h1 & ds & Hds & H).
  apply comprehension_attr in Hds as [-> Hds].
  apply bind_Ok in H as (h1 & ad & Had & H).
  apply bind_Ok in H as (h2 & es & Hes & H).
  apply comprehension_attr in Hes as [-> Hes].
  apply bind_Ok in H as (h2 & ae & Hae & H).
  apply bind_Ok in H as (h3 & qs & Hqs & H).
  apply comprehension_attr in Hqs as [-> Hqs].
  apply bind_Ok in H as (h3 & aq & Haq & H).
  apply bind_Ok in H as (h4 & [] & Hpf & H).
  injection H as <- <-.
  pose proof (Forall2_length _ _ _ Hds) as Lds.
  pose proof (Forall2_length _ _ _ Hes) as Les.
  pose proof (Forall2_length _ _ _ Hqs) as Lqs.
  destruct ds as [|a0 ds]; [simpl in Lds; lia|].
  destruct es as [|e0 es]; [simpl in Les; lia|].
  destruct qs as [|q0 qs]; [simpl in Lqs; lia|].
  apply np_array_Ok in Had as (c1 & -> & -> & Hc1).
  apply np_array_Ok in Hae as (c2 & -> & -> & Hc2).
  apply np_array_Ok in Haq as (c3 & -> & -> & Hc3).
  simpl. rewrite !length_app. simpl. lia.
Qed.

(** C2.  Whatever [copy_data] is, the cubes of [d.copy(copy_data)] are
    buffers that did not exist before the call, because [Dataset.__init__]
    stacks the copied frames into new arrays.  So a pixel written through
    any array that existed before the call (the cubes of [d], the arrays of
    its frames) leaves every pixel of the copy's data, err and dq as it
    was: with [copy_data=True] as the claim says, with [copy_data=False]
    against it. *)
Theorem Dataset_copy_never_shares `{World} (d : Dataset) (copy_data : bool)
    (h h' : heap) (c : Dataset) :
  Dataset_copy d copy_data h = (h', Ok c) ->
  forall (a : ndarray) (idx : list nat) (v : pix) (h'' : heap),
    (buf a < length (bufs h))%nat ->
    setitem a idx v h' = Some h'' ->
    forall idx',
      getitem (all_data c) idx' h'' = getitem (all_data c) idx' h' /\
      getitem (all_err c) idx' h'' = getitem (all_err c) idx' h' /\
      getitem (all_dq c) idx' h'' = getitem (all_dq c) idx' h'.
Proof.
  intros Hc a idx v h'' Ha Hset idx'. unfold Dataset_copy in Hc.
  apply bind_Ok in Hc as (h1 & fs & Hfs & Hinit).
  apply grows_comprehension in Hfs; [|intros x; apply grows_Image_copy].
  apply Dataset_init_cubes in Hinit as (Hd & He & Hq).
  repeat split; eapply getitem_setitem_other; try exact Hset; lia.
Qed.

(** C2, a concrete instance: after a shallow copy of the two-frame
    Dataset, a pixel written into the original's all_data is read back
    there, and the copy's pixel is still the old value. *)
Lemma Dataset_copy_never_shares_witness :
  exists h' c h'',
    @Dataset_copy demo_world demo_dataset false demo_heap = (h', Ok c) /\
    (buf (all_data demo_dataset) < length (bufs demo_heap))%nat /\
    setitem (all_data demo_dataset) [0; 0; 0]%nat 9%Q h' = Some h'' /\
    getitem (all_data demo_dataset) [0; 0; 0]%nat h'' = Some 9%Q /\
    getitem (all_data c) [0; 0; 0]%nat h'' = Some 1%Q.
Proof.
  assert (E : @Dataset_copy demo_world demo_dataset false demo_heap = demo_copy)
    by (vm_compute; reflexivity).
  unfold demo_copy in E.
  match type of E with
  | _ = (?hh, Ok ?cc) =>
      let r := eval vm_compute in (setitem (all_data demo_dataset) [0; 0; 0]%nat 9%Q hh) in
      match r with
      | Some ?h2 =>
          exists hh, cc, h2;
          assert (Hset : setitem (all_data demo_dataset) [0; 0; 0]%nat 9%Q hh = Some h2)
            by (vm_compute; reflexivity);
          assert (Hlt : (buf (all_data demo_dataset) < length (bufs demo_heap))%nat)
            by (vm_compute; lia);
          destruct (@Dataset_copy_never_shares demo_world _ _ _ _ _ E
                      (all_data demo_dataset) [0; 0; 0]%nat 9%Q h2 Hlt Hset
                      [0; 0; 0]%nat) as (Hd & _ & _)
      end
  end.
  split; [exact E|]. split; [exact Hlt|]. split; [exact Hset|].
  split; [vm_compute; reflexivity|].
  rewrite Hd. vm_compute. reflexivity.
Defined.

(** C2 at its failing input: [d] holds one 1x1 frame whose pixel is 1;
    after [c = d.copy(copy_data=False)] and [d.all_data[0,0,0] = 7], the
    pixel of [d] is 7 and the pixel of [c] is still 1. *)
Example Dataset_copy_shallow_keeps_old_pixel :
  exists h2,
    Dataset_init [0%nat] one_frame_heap = (single.1, Ok single_dataset) /\
    @Dataset_copy demo_world single_dataset false single.1
      = (single_copy.1, Ok single_copy_dataset) /\
    setitem (all_data single_dataset) [0; 0; 0]%nat 7%Q single_copy.1 = Some h2 /\
    getitem (all_data single_dataset) [0; 0; 0]%nat h2 = Some 7%Q /\
    getitem (all_data single_copy_dataset) [0; 0; 0]%nat h2 = Some 1%Q.
Proof.
  match eval vm_compute in
        (setitem (all_data single_dataset) [0; 0; 0]%nat 7%Q single_copy.1) with
  | Some ?h2 => exists h2
  end.
  repeat split; vm_compute; reflexivity.
Qed.

(** C3, a concrete instance: a stage replaces all_data of the two-frame
    Dataset. *)
Lemma update_after_processing_step_contract_witness :
  exists h',
    update_after_processing_step demo_dataset "Bias subtracted"
      (Some stage_data) None None stage_heap = (h', Ok tt) /\
    imgs h' = imgs stage_heap /\
    contents (all_data demo_dataset) h' = Some [9; 8; 7; 6]%Q /\
    exists hd', hdrs h' !! 3%nat = Some hd' /\
                history hd' = [HStr "made"; HStr "Bias subtracted"].
Proof.
  destruct (update_after_processing_step demo_dataset "Bias subtracted"
              (Some stage_data) None None stage_heap) as [h' r] eqn:E.
  assert (Hr : r = Ok tt) by (vm_compute in E; injection E as _ <-; reflexivity).
  destruct (update_after_processing_step_contract _ _ _ _ _ _ _ _ E) as [_ Hok].
  destruct (Hok Hr) as (Hi & _ & Hc & Hh).
  exists h'. subst r. split; [done|]. split; [exact Hi|]. split.
  - destruct Hc as (Hc & _ & _).
    + do 3 (split; [vm_compute; lia|]). split; intros ? ?; discriminate.
    + apply (Hc stage_data); [done|]. vm_compute. reflexivity.
  - destruct (Hh 1%nat) as (im & hd & hd' & Him & Hhd & Hhd' & _ & Hhist & _).
    { vm_compute. apply elem_of_cons. right. apply elem_of_cons. by left. }
    vm_compute in Him. injection Him as <-.
    simpl in Hhd, Hhd', Hhist. vm_compute in Hhd. injection Hhd as <-.
    exists hd'. split; [exact Hhd'|]. rewrite Hhist. vm_compute. reflexivity.
Defined.

(** C9, a concrete instance: all_data is replaced, then the misshapen
    all_err replacement is refused. *)
Lemma update_after_processing_step_not_atomic_witness :
  shape stage_data = shape (all_data demo_dataset) /\
  contents stage_data stage_heap = Some [9; 8; 7; 6]%Q /\
  contents (all_data demo_dataset) stage_heap = Some [1; 2; 3; 4]%Q /\
  shape misshapen <> shape (all_err demo_dataset) /\
  exists h',
    update_after_processing_step demo_dataset "Bias subtracted"
      (Some stage_data) (Some misshapen) None stage_heap
    = (h', Raise (ValueError "The shape of new_all_err")) /\
    contents (all_data demo_dataset) h' = Some [9; 8; 7; 6]%Q /\
    hdrs h' = hdrs stage_heap.
Proof.
  assert (H1 : shape stage_data = shape (all_data demo_dataset)) by reflexivity.
  assert (H2 : contents stage_data stage_heap = Some [9; 8; 7; 6]%Q)
    by (vm_compute; reflexivity).
  assert (H3 : contents (all_data demo_dataset) stage_heap = Some [1; 2; 3; 4]%Q)
    by (vm_compute; reflexivity).
  assert (H4 : shape misshapen <> shape (all_err demo_dataset))
    by (vm_compute; discriminate).
  split; [exact H1|]. split; [exact H2|]. split; [exact H3|]. split; [exact H4|].
  destruct (update_after_processing_step_not_atomic demo_dataset "Bias subtracted"
              stage_data misshapen None stage_heap _ H1 H2
              (ex_intro _ _ H3)) as [Herr _].
  exact (Herr H4).
Defined.

(** C10, a concrete instance: a deep copy of the first frame of
    [two_frame_heap]; the source header carries the second clock reading,
    the copy's the first. *)
Lemma Image_copy_stamps_source_witness :
  exists h' new im' hs hn,
    @Image_copy demo_world 0%nat true two_frame_heap = (h', Ok new) /\
    hdrs h' !! 1%nat = Some hs /\
    header_get "DRPCTIME" hs = Some (HStr "2024-01-01T00:00:00.250") /\
    imgs h' !! new = Some im' /\
    hdrs h' !! ext_hdr im' = Some hn /\
    header_get "DRPCTIME" hn = Some (HStr "2024-01-01T00:00:00.000").
Proof.
  destruct (@Image_copy demo_world 0%nat true two_frame_heap) as [h' r] eqn:E.
  assert (Hr : exists new, r = Ok new)
    by (vm_compute in E; injection E as _ <-; eexists; reflexivity).
  destruct Hr as [new ->].
  destruct (@Image_copy_stamps_source demo_world 0%nat true two_frame_heap h' new
              _ _ eq_refl eq_refl E)
    as (im' & hs & hn & _ & Hs & _ & _ & Hct & _ & Him' & _ & _ & _ & Hn & _ & Hcn).
  exists h', new, im', hs, hn. done.
Defined.

(** What "until the next shape-changing operation" leaves out: slicing the
    Dataset, [s = d[0:1]], builds a Dataset over the same Frame object and
    re-points it at the new cube; a pixel then written through the frame is
    seen in [s.all_data] and no longer in [d.all_data]. *)
Example Dataset_slice_repoints_frames :
  exists h1 s im h2,
    Dataset_getitem_slice demo_dataset 0 1 demo_heap = (h1, Ok s) /\
    frames s = [0%nat] /\ imgs h1 !! 0%nat = Some im /\
    setitem (data im) [0; 0]%nat 7%Q h1 = Some h2 /\
    getitem (all_data s) [0; 0; 0]%nat h2 = Some 7%Q /\
    getitem (all_data demo_dataset) [0; 0; 0]%nat h2 = Some 1%Q.
Proof.
  match eval vm_compute in (Dataset_getitem_slice demo_dataset 0 1 demo_heap) with
  | (?h1, Ok ?s) =>
      match eval vm_compute in (imgs h1 !! 0%nat) with
      | Some ?im =>
          match eval vm_compute in (setitem (data im) [0; 0]%nat 7%Q h1) with
          | Some ?h2 => exists h1, s, im, h2
          end
      end
  end.
  repeat split; vm_compute; reflexivity.
Qed.

(** ** Cosmic rays *)

(** C4.  [find_plateaus] on the row [0,0,0,100,100,100,100,0,0] with full
    well 100, sat_thresh 0.99, plat_thresh 0.5 and cosm_filter 2 returns
    exactly one plateau start, index 3. *)
Theorem find_plateaus_example :
  median_filter plateau_row 3 = plateau_row /\
  find_plateaus plateau_row 100 (99 # 100) (1 # 2) 2 = Some [3%nat].
Proof. split; vm_compute; reflexivity. Qed.

Lemma marks_exactly_dec (row : list Z) (lo hi : nat) :
  forallb (fun c => Bool.eqb (bool_decide (nth c row 0%Z = 1%Z))
                             (bool_decide (lo <= c <= hi)%nat))
          (seq 0 (length row)) = true ->
  marks_exactly row lo hi.
Proof.
  intros Hall c Hc. rewrite forallb_forall in Hall.
  specialize (Hall c). rewrite in_seq in Hall. specialize (Hall ltac:(lia)).
  apply Bool.eqb_prop in Hall.
  split; intros Hx.
  - eapply bool_decide_eq_true_1. rewrite <- Hall. by apply bool_decide_eq_true_2.
  - eapply bool_decide_eq_true_1. rewrite Hall. by apply bool_decide_eq_true_2.
Qed.

(** C5 (amended).  [flag_cosmics] on the five-row cube whose middle row
    is [0,0,0,100,100,100,100,0,0], with full well 100, sat_thresh 0.99,
    plat_thresh 0.5, cosm_filter 2, cosm_box 1 and cosm_tail 2, in either
    mode, marks in that row exactly the indices 2 through 7 (the run from
    the plateau start 3 through 3 + cosm_filter + cosm_tail = 7, and
    column 2 of the box), in each of the two adjacent rows exactly the
    columns 2 through 4, and nothing in the other rows. *)
Theorem flag_cosmics_example :
  forall mode, mode = "image" \/ mode = "full" ->
  exists m,
    flag_cosmics plateau_cube 100 (99 # 100) (1 # 2) 2 1 2 mode = Ok m /\
    m = [[[0; 0; 0; 0; 0; 0; 0; 0; 0];
          [0; 0; 1; 1; 1; 0; 0; 0; 0];
          [0; 0; 1; 1; 1; 1; 1; 1; 0];
          [0; 0; 1; 1; 1; 0; 0; 0; 0];
          [0; 0; 0; 0; 0; 0; 0; 0; 0]]]%Z /\
    marks_exactly (mask_row m 0 2) 2 7 /\
    marks_exactly (mask_row m 0 1) 2 4 /\
    marks_exactly (mask_row m 0 3) 2 4.
Proof.
  intros mode [-> | ->]; eexists; (split; [vm_compute; reflexivity|]);
    (split; [reflexivity|]);
    (split; [|split]); apply marks_exactly_dec; vm_compute; reflexivity.
Qed.

(** C5, a concrete instance: the default mode. *)
Lemma flag_cosmics_example_witness :
  ("image" = "image" \/ "image" = "full") /\
  exists m, flag_cosmics plateau_cube 100 (99 # 100) (1 # 2) 2 1 2 "image" = Ok m /\
            marks_exactly (mask_row m 0 2) 2 7.
Proof.
  split; [by left|].
  destruct (flag_cosmics_example "image" (or_introl eq_refl))
    as (m & Hm & _ & Hrow & _).
  exists m. split; [exact Hm|exact Hrow].
Defined.

(** C5 as stated fails: the mask of the plateau row is not "exactly the
    indices 3 through 6"; index 7, the last pixel of the tail, is marked
    as well. *)
Lemma flag_cosmics_example_counterexample :
  ~ (forall m, flag_cosmics plateau_cube 100 (99 # 100) (1 # 2) 2 1 2 "image" = Ok m ->
               marks_exactly (mask_row m 0 2) 3 6).
Proof.
  intros Hclaim.
  destruct (flag_cosmics plateau_cube 100 (99 # 100) (1 # 2) 2 1 2 "image")
    as [m|e] eqn:E; vm_compute in E; [|discriminate].
  injection E as <-.
  specialize (Hclaim _ eq_refl 7%nat ltac:(vm_compute; lia)).
  destruct Hclaim as [Hc _]. specialize (Hc eq_refl). lia.
Qed.

(** ** Relative gains *)

Lemma Qltb_lt x y : Qltb x y = true <-> (x < y)%Q.
Proof.
  unfold Qltb. rewrite negb_true_iff, <- not_true_iff_false, Qle_bool_iff.
  split; [apply Qnot_le_lt|apply Qlt_not_le].
Qed.

Lemma any_diff_nonpos_false l :
  any_diff_nonpos l = false <-> strictly_increasing l.
Proof.
  unfold any_diff_nonpos, strictly_increasing.
  induction l as [|a [|b l] IH].
  - split; [|done]. intros _ i a b Hi. by rewrite lookup_nil in Hi.
  - split; [|done]. intros _ [|i] x y Hi Hj; simpl in *; by rewrite ?lookup_nil in *.
  - change (zip (a :: b :: l) (tail (a :: b :: l)))
      with ((a, b) :: zip (b :: l) (tail (b :: l))).
    cbn [existsb]. rewrite orb_false_iff, IH. simpl.
    rewrite <- not_true_iff_false, Qle_bool_iff. split.
    + intros [Hab Hrest] [|i] x y Hi Hj; simpl in *.
      * injection Hi as <-. injection Hj as <-. lra.
      * by eapply Hrest.
    + intros Hall. split.
      * specialize (Hall 0%nat a b eq_refl eq_refl). lra.
      * intros i x y Hi Hj. by apply (Hall (S i)).
Qed.

Lemma any_diff_nonpos_true l :
  any_diff_nonpos l = true <-> ~ strictly_increasing l.
Proof.
  rewrite <- any_diff_nonpos_false. destruct (any_diff_nonpos l); split; done.
Qed.

Lemma foldl_Qmin_gt t l : forall x,
  (t < foldl Qmin x l)%Q <-> (t < x)%Q /\ Forall (fun y => t < y)%Q l.
Proof.
  induction l as [|y l IH]; intros x; simpl.
  - split; [intros Hx; split; [done|constructor]|by intros [Hx _]].
  - rewrite IH, Q.min_glb_lt_iff, Forall_cons. tauto.
Qed.

Lemma foldl_Qmax_lt t l : forall x,
  (foldl Qmax x l < t)%Q <-> (x < t)%Q /\ Forall (fun y => y < t)%Q l.
Proof.
  induction l as [|y l IH]; intros x; simpl.
  - split; [intros Hx; split; [done|constructor]|by intros [Hx _]].
  - rewrite IH, Q.max_lub_lt_iff, Forall_cons. tauto.
Qed.

Lemma np_min_above col m :
  np_min col = Some m -> Qltb 1 m = true <-> Forall (fun y => 1 < y)%Q col.
Proof.
  destruct col as [|x l]; [discriminate|]. intros [= <-].
  rewrite Qltb_lt, foldl_Qmin_gt, Forall_cons. tauto.
Qed.

Lemma np_max_below col m :
  np_max col = Some m -> Qltb m 1 = true <-> Forall (fun y => y < 1)%Q col.
Proof.
  destruct col as [|x l]; [discriminate|]. intros [= <-].
  rewrite Qltb_lt, foldl_Qmax_lt, Forall_cons. tauto.
Qed.

(** A curve misses unity exactly when it lies wholly above or wholly
    below 1. *)
Lemma not_brackets_unity col :
  ~ brackets_unity col <->
  Forall (fun y => 1 < y)%Q col \/ Forall (fun y => y < 1)%Q col.
Proof.
  unfold brackets_unity. split.
  - intros Hn.
    destruct (Forall_Exists_dec (fun y => 1 < y)%Q (fun y => y <= 1)%Q
                (fun y => Qlt_le_dec 1 y) col) as [Ha|Hb]; [by left|].
    destruct (Forall_Exists_dec (fun y => y < 1)%Q (fun y => 1 <= y)%Q
                (fun y => Qlt_le_dec y 1) col) as [Hc|Hd]; [by right|].
    exfalso. apply Hn. rewrite Exists_exists in Hb, Hd.
    destruct Hb as (x & Hx & Hx1). destruct Hd as (y & Hy & Hy1).
    split; [exists x|exists y]; done.
  - intros [Ha|Hb] [(x & Hx & Hx1) (y & Hy & Hy1)].
    + rewrite Forall_forall in Ha. specialize (Ha _ Hx). lra.
    + rewrite Forall_forall in Hb. specialize (Hb _ Hy). lra.
Qed.

Lemma curve_check cols mins maxs :
  mapM np_min cols = Some mins -> mapM np_max cols = Some maxs ->
  existsb (fun m => Qltb 1 m) mins || existsb (fun m => Qltb m 1) maxs = true <->
  exists col, col ∈ cols /\ ~ brackets_unity col.
Proof.
  rewrite !mapM_Some. intros Hmin. revert maxs.
  induction Hmin as [|col m cols mins Hm _ IH]; intros maxs Hmax.
  - apply Forall2_nil_inv_l in Hmax as ->. simpl. split; [done|].
    intros (col & Hc & _). by apply elem_of_nil in Hc.
  - apply Forall2_cons_inv_l in Hmax as (M & maxs' & HM & Hmax & ->).
    specialize (IH _ Hmax). cbn [existsb].
    pose proof (np_min_above _ _ Hm) as Ha.
    pose proof (np_max_below _ _ HM) as Hb.
    split.
    + intros Hor.
      destruct (Qltb 1 m) eqn:E1.
      { exists col. split; [by left|]. apply not_brackets_unity. left. by apply Ha. }
      destruct (Qltb M 1) eqn:E2.
      { exists col. split; [by left|]. apply not_brackets_unity. right. by apply Hb. }
      simpl in Hor. rewrite orb_false_r in Hor || idtac.
      destruct IH as [IH _].
      destruct IH as (c & Hc & Hn).
      { destruct (existsb _ mins); [done|]. simpl in *. by rewrite Hor. }
      exists c. split; [by right|done].
    + intros (c & Hc & Hn). apply elem_of_cons in Hc as [->|Hc].
      * apply not_brackets_unity in Hn as [Hn|Hn].
        -- apply Ha in Hn. by rewrite Hn.
        -- apply Hb in Hn. rewrite Hn. simpl. by rewrite !orb_true_r.
      * destruct IH as [_ IH]. specialize (IH (ex_intro _ c (conj Hc Hn))).
        apply orb_true_iff in IH as [-> | ->]; by rewrite ?orb_true_r.
Qed.

Lemma columns_nonempty ncols rows_ :
  rows_ <> [] -> is_Some (mapM np_min (columns ncols rows_)) /\
                 is_Some (mapM np_max (columns ncols rows_)).
Proof.
  intros Hne. unfold columns. destruct rows_ as [|r0 rs]; [done|].
  split; apply mapM_is_Some, Forall_fmap, Forall_forall; intros c _; simpl; eauto.
Qed.

Lemma lookup_nth_Q (l : list Q) i :
  (i < length l)%nat -> l !! i = Some (nth i l 0%Q).
Proof.
  intros Hi. destruct (lookup_lt_is_Some_2 l i Hi) as [x Hx].
  rewrite Hx. f_equal. symmetry. by apply nth_lookup_Some with (d := 0%Q).
Qed.

Lemma strictly_increasing_nth_le l i j :
  strictly_increasing l -> (i <= j)%nat -> (j < length l)%nat ->
  (nth i l 0 <= nth j l 0)%Q.
Proof.
  intros Hinc Hij Hj. induction Hij as [|j Hij IH].
  - apply Qle_refl.
  - apply Qle_trans with (nth j l 0%Q); [apply IH; lia|].
    apply Qlt_le_weak. apply (Hinc j); apply lookup_nth_Q; lia.
Qed.

Lemma count_axis_length table : length (count_axis table) = (length table - 1)%nat.
Proof. unfold count_axis. by rewrite length_map, length_drop. Qed.

Lemma relgain_grid_nonempty table : (2 <= length table)%nat -> relgain_grid table <> [].
Proof.
  unfold relgain_grid. destruct table as [|r0 [|r1 rs]]; simpl; [lia|lia|done].
Qed.

(** C6.  [get_relgains] on a calibration table with a header row, a
    header column and at least one data row: it raises the gain-axis error
    when the gain axis is not strictly increasing, the count-axis error
    when the gain axis is but the count axis is not, and the gain-curve
    error when both axes are but some column of the interior does not
    contain or straddle 1.0.  When both axes are strictly increasing and
    every column contains or straddles 1.0, none of the three errors is
    raised, and with at least two gains and two counts the call returns. *)
Theorem get_relgains_validation (frame : list (list Q)) (em_gain : Q)
    (table : list (list Q)) :
  (2 <= length table)%nat -> (1 <= length (nth 0 table []))%nat ->
  (~ strictly_increasing (gain_axis table) ->
   get_relgains frame em_gain table = Raise gain_axis_error) /\
  (strictly_increasing (gain_axis table) ->
   ~ strictly_increasing (count_axis table) ->
   get_relgains frame em_gain table = Raise count_axis_error) /\
  (strictly_increasing (gain_axis table) ->
   strictly_increasing (count_axis table) ->
   (exists col, col ∈ gain_curves table /\ ~ brackets_unity col) ->
   get_relgains frame em_gain table = Raise gain_curve_error) /\
  (strictly_increasing (gain_axis table) ->
   strictly_increasing (count_axis table) ->
   (forall col, col ∈ gain_curves table -> brackets_unity col) ->
   get_relgains frame em_gain table <> Raise gain_axis_error /\
   get_relgains frame em_gain table <> Raise count_axis_error /\
   get_relgains frame em_gain table <> Raise gain_curve_error /\
   ((2 <= length (gain_axis table))%nat -> (3 <= length table)%nat ->
    exists out, get_relgains frame em_gain table = Ok out)).
Proof.
  intros Hrows Hcols. unfold get_relgains.
  rewrite decide_False by lia.
  destruct (columns_nonempty (length (gain_axis table)) (relgain_grid table)
              (relgain_grid_nonempty _ Hrows)) as [[mins Hmins] [maxs Hmaxs]].
  pose proof (curve_check _ _ _ Hmins Hmaxs) as Hcheck.
  fold (gain_curves table) in Hcheck.
  rewrite Hmins, Hmaxs. simpl.
  split; [|split; [|split]].
  - intros Hg. apply any_diff_nonpos_true in Hg. by rewrite Hg.
  - intros Hg Hc. apply any_diff_nonpos_false in Hg.
    apply any_diff_nonpos_true in Hc. by rewrite Hg, Hc.
  - intros Hg Hc Hex. apply any_diff_nonpos_false in Hg, Hc.
    apply Hcheck in Hex. by rewrite Hg, Hc, Hex.
  - intros Hg Hc Hall. apply any_diff_nonpos_false in Hg, Hc. rewrite Hg, Hc.
    assert (Hno : existsb (fun m => Qltb 1 m) mins
                  || existsb (fun m => Qltb m 1) maxs = false).
    { apply not_true_iff_false. intros Ht. apply Hcheck in Ht as (col & Hin & Hn).
      by apply Hn, Hall. }
    rewrite Hno.
    split; [|split; [|split]]; try (case_decide; discriminate).
    intros H2 H3. rewrite decide_False; [eauto|].
    rewrite count_axis_length. lia.
Qed.

(** C7.  When [get_relgains] returns, a pixel whose count lies below the
    smallest value of the count axis gets the first value of the relative
    gain curve, and a pixel whose count lies above the largest value gets
    the last one: the edge value itself, whatever the slope of the curve
    at the edge. *)
Theorem get_relgains_edge_clamp (frame : list (list Q)) (em_gain : Q)
    (table out : list (list Q)) :
  get_relgains frame em_gain table = Ok out ->
  let count_ax := count_axis table in
  let curve := relgain_curve (gain_axis table) (relgain_grid table) em_gain in
  length curve = length count_ax /\
  forall r c x,
    frame !! r ≫= (fun row => row !! c) = Some x ->
    ((x < nth 0 count_ax 0)%Q ->
     out !! r ≫= (fun row => row !! c) = Some (nth 0 curve 0%Q)) /\
    ((nth (length count_ax - 1) count_ax 0 < x)%Q ->
     out !! r ≫= (fun row => row !! c) = Some (nth (length curve - 1) curve 0%Q)).
Proof.
  intros H count_ax curve. unfold get_relgains in H.
  case_decide as Hshape; [discriminate|].
  destruct (any_diff_nonpos (gain_axis table)); [discriminate|].
  destruct (any_diff_nonpos (count_axis table)) eqn:Hc; [discriminate|].
  apply any_diff_nonpos_false in Hc.
  destruct (mapM np_min _) as [mins|]; [|discriminate].
  destruct (mapM np_max _) as [maxs|]; [|discriminate]. simpl in H.
  destruct (_ || _); [discriminate|].
  case_decide as Hlen; [discriminate|]. injection H as <-.
  split.
  { unfold curve, relgain_curve, count_ax, count_axis, relgain_grid.
    by rewrite !length_map. }
  intros r c x Hx.
  assert (Hout : forall f : Q -> Q,
             map (map f) frame !! r ≫= (fun row => row !! c) = Some (f x)).
  { intros f. rewrite list_lookup_fmap.
    destruct (frame !! r) as [row|]; simpl in *; [|discriminate].
    by rewrite list_lookup_fmap, Hx. }
  assert (Hca : (2 <= length count_ax)%nat) by (unfold count_ax; lia).
  fold count_ax curve. rewrite Hout. unfold interp1d. split; intros Hlt.
  - assert (Hle : (nth 0 count_ax 0 <= nth (length count_ax - 1) count_ax 0)%Q).
    { apply strictly_increasing_nth_le; [done|lia|lia]. }
    destruct (Qltb (nth (length count_ax - 1) count_ax 0%Q) x) eqn:E1.
    { apply Qltb_lt in E1. lra. }
    apply Qltb_lt in Hlt. by rewrite Hlt.
  - apply Qltb_lt in Hlt. by rewrite Hlt.
Qed.

(** C6, a concrete instance: the demo table passes both validations. *)
Lemma get_relgains_validation_witness :
  (2 <= length demo_table)%nat /\ (1 <= length (nth 0 demo_table []))%nat /\
  get_relgains [[50]%Q] 1 demo_table <> Raise gain_curve_error /\
  exists out, get_relgains [[50]%Q] 1 demo_table = Ok out.
Proof.
  assert (H1 : (2 <= length demo_table)%nat) by (vm_compute; lia).
  assert (H2 : (1 <= length (nth 0 demo_table []))%nat) by (vm_compute; lia).
  split; [exact H1|]. split; [exact H2|].
  destruct (get_relgains_validation [[50]%Q] 1 demo_table H1 H2)
    as (_ & _ & _ & Hok).
  destruct Hok as (_ & _ & Hc & Hrun).
  - apply any_diff_nonpos_false. vm_compute. reflexivity.
  - apply any_diff_nonpos_false. vm_compute. reflexivity.
  - intros col Hcol.
    assert (E : gain_curves demo_table
                = [[9 # 10; 1; 11 # 10]; [8 # 10; 1; 12 # 10]]%Q)
      by (vm_compute; reflexivity).
    rewrite E in Hcol.
    assert (Hone : 1%Q ∈ col).
    { apply elem_of_cons in Hcol as [->|Hcol];
        [|apply list_elem_of_singleton in Hcol as ->];
        apply elem_of_cons; right; apply elem_of_cons; by left. }
    split; exists 1%Q; (split; [exact Hone|apply Qle_refl]).
  - split; [exact Hc|]. apply Hrun; vm_compute; lia.
Defined.

(** C7, a concrete instance: counts -5 and 300 against the count axis
    0, 100, 200 of the demo table, at gain 1: the relative gains are the
    first and the last value of the curve, 0.9 and 1.1. *)
Lemma get_relgains_edge_clamp_witness :
  exists out,
    get_relgains [[-5; 300]%Q] 1 demo_table = Ok out /\
    (-5 < nth 0 (count_axis demo_table) 0)%Q /\
    (nth (length (count_axis demo_table) - 1) (count_axis demo_table) 0 < 300)%Q /\
    exists lo hi, out !! 0%nat ≫= (fun row => row !! 0%nat) = Some lo /\
                  out !! 0%nat ≫= (fun row => row !! 1%nat) = Some hi /\
                  (lo == 9 # 10)%Q /\ (hi == 11 # 10)%Q.
Proof.
  destruct (get_relgains [[-5; 300]%Q] 1 demo_table) as [out|e] eqn:E;
    [|vm_compute in E; discriminate].
  assert (Hlo : (-5 < nth 0 (count_axis demo_table) 0)%Q) by (vm_compute; reflexivity).
  assert (Hhi : (nth (length (count_axis demo_table) - 1) (count_axis demo_table) 0
                 < 300)%Q) by (vm_compute; reflexivity).
  destruct (get_relgains_edge_clamp _ _ _ _ E) as [_ Hpix].
  destruct (Hpix 0%nat 0%nat (-5)%Q eq_refl) as [H0 _].
  destruct (Hpix 0%nat 1%nat 300%Q eq_refl) as [_ H1].
  exists out. split; [reflexivity|]. split; [exact Hlo|]. split; [exact Hhi|].
  eexists _, _. split; [exact (H0 Hlo)|]. split; [exact (H1 Hhi)|].
  split; vm_compute; reflexivity.
Defined.

(** ** Bias subtraction *)

Lemma py_slice_nonneg {A} (l : list A) (a n : Z) :
  (0 <= a)%Z -> (0 <= n)%Z -> (Z.to_nat a + Z.to_nat n <= length l)%nat ->
  py_slice l a (a + n) = take (Z.to_nat n) (drop (Z.to_nat a) l).
Proof.
  intros Ha Hn Hlen. unfold py_slice, slice_bound.
  destruct (Z.ltb_spec a 0); [lia|]. destruct (Z.ltb_spec (a + n) 0); [lia|].
  rewrite Z2Nat.inj_add by done.
  rewrite !Nat.min_l by lia. f_equal. lia.
Qed.

Lemma py_slice_span {A} (l : list A) (a b : Z) :
  (0 <= a)%Z -> (a <= b)%Z -> (Z.to_nat b <= length l)%nat ->
  py_slice l a b = take (Z.to_nat b - Z.to_nat a) (drop (Z.to_nat a) l).
Proof.
  intros Ha Hb Hlen. replace b with (a + (b - a))%Z by lia.
  rewrite py_slice_nonneg by lia. f_equal. lia.
Qed.

Lemma take_drop_rows {A} (frame : list (list A)) R C a n :
  rectangular frame R C -> (a + n <= R)%nat ->
  length (take n (drop a frame)) = n /\
  Forall (fun row => length row = C) (take n (drop a frame)).
Proof.
  intros [HR HC] Hb. split.
  - rewrite length_take, length_drop. lia.
  - apply Forall_take, Forall_drop, HC.
Qed.

(** A region inside a rectangular frame is cut out row by row. *)
Lemma slice_section_fits {A} (frame : list (list A)) (reg : region) R C :
  rectangular frame R C ->
  (0 <= (r0c0 reg).1)%Z -> (0 <= (r0c0 reg).2)%Z ->
  (0 < rows reg)%Z -> (0 < cols reg)%Z ->
  (Z.to_nat (r0c0 reg).1 + Z.to_nat (rows reg) <= R)%nat ->
  (Z.to_nat (r0c0 reg).2 + Z.to_nat (cols reg) <= C)%nat ->
  slice_section frame reg =
  Ok (map (fun row => take (Z.to_nat (cols reg)) (drop (Z.to_nat (r0c0 reg).2) row))
          (take (Z.to_nat (rows reg)) (drop (Z.to_nat (r0c0 reg).1) frame))).
Proof.
  intros Hrect Hr0 Hc0 Hr Hc HR HC.
  destruct (take_drop_rows _ _ _ _ _ Hrect HR) as [Hlen Hrows].
  destruct Hrect as [HlenF _].
  assert (Hsec : slice2 frame (r0c0 reg).1 ((r0c0 reg).1 + rows reg)
                        (r0c0 reg).2 ((r0c0 reg).2 + cols reg)
                 = map (fun row => take (Z.to_nat (cols reg))
                                        (drop (Z.to_nat (r0c0 reg).2) row))
                       (take (Z.to_nat (rows reg))
                             (drop (Z.to_nat (r0c0 reg).1) frame))).
  { unfold slice2. rewrite py_slice_nonneg by lia.
    apply Forall_fmap_ext_1. eapply Forall_impl; [exact Hrows|].
    intros row Hrow. simpl in Hrow. apply py_slice_nonneg; lia. }
  unfold slice_section. rewrite Hsec.
  rewrite decide_False; [done|].
  rewrite length_map, Hlen.
  destruct (take (Z.to_nat (rows reg)) (drop (Z.to_nat (r0c0 reg).1) frame))
    as [|row0 rest] eqn:E; [simpl in Hlen; lia|].
  apply Forall_cons in Hrows as [Hrow0 _]. simpl.
  rewrite length_take, length_drop. lia.
Qed.

Lemma take_take_drop {A} (l : list A) a n p q :
  (p <= a)%nat -> (a + n <= p + q)%nat ->
  take n (drop (a - p) (take q (drop p l))) = take n (drop a l).
Proof.
  intros Hp Hq. change (@drop A) with (@skipn A). change (@take A) with (@firstn A).
  rewrite skipn_firstn_comm, firstn_firstn, skipn_skipn.
  replace (a - p + p)%nat with a by lia. f_equal. lia.
Qed.

Lemma fits_prescan_pos meta R C :
  fits meta R C ->
  (0 < rows (prescan meta))%Z /\ (0 < cols (prescan meta))%Z /\
  (0 < i_rows meta)%nat /\ (0 < i_cols meta)%nat /\
  (c_start meta < c_end meta)%nat.
Proof.
  unfold fits, i_r0, i_rows, i_cols, p_r0, p_rows, p_cols, c_start, c_end.
  intros [Hz Hn]. lia.
Qed.

Lemma reliable_prescan_length meta R C row :
  fits meta R C -> length row = C ->
  length (reliable_prescan meta row) = (c_end meta - c_start meta)%nat.
Proof.
  intros Hfit Hrow. pose proof (fits_prescan_pos _ _ _ Hfit) as Hpos.
  destruct Hfit as [_ Hn]. unfold reliable_prescan.
  rewrite length_take, length_drop. lia.
Qed.

(** For a frame that the geometry fits, the aligned reliable prescan is
    made of the reliable prescan pixels of the image rows. *)
Lemma aligned_prescan_fits frame meta R C :
  rectangular frame R C -> fits meta R C ->
  aligned_prescan frame meta false =
  Ok (map (reliable_prescan meta) (take (i_rows meta) (drop (i_r0 meta) frame)),
      (c_end meta - c_start meta)%nat).
Proof.
  intros Hrect Hfit. pose proof (fits_prescan_pos _ _ _ Hfit) as (Hpr & Hpc & Hir & Hic & Hse).
  pose proof Hfit as [Hz Hn].
  unfold i_r0, i_rows, i_cols, p_r0, p_c0, p_rows, p_cols, c_start, c_end in *.
  unfold aligned_prescan.
  rewrite (slice_section_fits frame (prescan meta) R C) by (done || lia).
  simpl.
  destruct (take_drop_rows frame R C (Z.to_nat (r0c0 (prescan meta)).1)
              (Z.to_nat (rows (prescan meta))) Hrect ltac:(lia)) as [Hlen Hrows].
  assert (Hpre : map (fun row => py_slice row (col_start meta) (col_end meta))
                   (map (fun row => take (Z.to_nat (cols (prescan meta)))
                                         (drop (Z.to_nat (r0c0 (prescan meta)).2) row))
                        (take (Z.to_nat (rows (prescan meta)))
                              (drop (Z.to_nat (r0c0 (prescan meta)).1) frame)))
                 = map (reliable_prescan meta)
                       (take (Z.to_nat (rows (prescan meta)))
                             (drop (Z.to_nat (r0c0 (prescan meta)).1) frame))).
  { rewrite map_map. apply Forall_fmap_ext_1. eapply Forall_impl; [exact Hrows|].
    intros row Hrow. simpl in Hrow.
    rewrite py_slice_span by (rewrite ?length_take, ?length_drop; lia).
    unfold reliable_prescan, p_c0, c_start, c_end.
    change (@drop Q) with (@skipn Q). change (@take Q) with (@firstn Q).
    rewrite skipn_firstn_comm, firstn_firstn, skipn_skipn.
    f_equal; [lia|]. f_equal. lia. }
  rewrite Hpre. f_equal. f_equal.
  - rewrite py_slice_nonneg; rewrite ?length_map, ?Hlen; try lia.
    rewrite <- fmap_drop, <- fmap_take. f_equal.
    replace (Z.to_nat ((r0c0 (image meta)).1 - (r0c0 (prescan meta)).1))
      with (Z.to_nat (r0c0 (image meta)).1 - Z.to_nat (r0c0 (prescan meta)).1)%nat
      by lia.
    apply take_take_drop; lia.
  - destruct (take (Z.to_nat (rows (prescan meta)))
                   (drop (Z.to_nat (r0c0 (prescan meta)).1) frame))
      as [|row0 rest] eqn:E; [simpl in Hlen; lia|].
    apply Forall_cons in Hrows as [Hrow0 _]. simpl.
    exact (reliable_prescan_length meta R C row0 Hfit Hrow0).
Qed.

Lemma mapM_total {A B} (f : A -> option B) (l : list A) :
  Forall (fun x => is_Some (f x)) l ->
  exists k, mapM f l = Some k /\ Forall2 (fun x y => f x = Some y) l k.
Proof.
  intros Hall. apply mapM_is_Some in Hall as [k Hk].
  exists k. split; [done|]. by apply mapM_Some.
Qed.

Lemma np_median_is_Some l : l <> [] -> is_Some (np_median l).
Proof.
  intros Hl. unfold np_median. rewrite decide_False by (by destruct l).
  destruct (Nat.even (length l)); eauto.
Qed.

Lemma np_std_is_Some `{Floating} l : l <> [] -> is_Some (np_std l).
Proof.
  intros Hl. unfold np_std. rewrite decide_False by (by destruct l). eauto.
Qed.

(** The rows of a frame that the bias subtraction produces, one image row
    at a time. *)
Lemma prescan_biassub_frame_rows `{Floating} (frame : list (list Q))
    (obstype : string) (meta : geometry) (bias_offset : Q) (R C : nat) :
  obstype = "SCI" \/ obstype = "ENG" ->
  rectangular frame R C -> fits meta R C ->
  exists out,
    prescan_biassub_frame frame obstype meta bias_offset false = Ok out /\
    length (image_bias_corrected out) = i_rows meta /\
    forall r, (r < i_rows meta)%nat ->
      exists row med sd,
        frame !! (i_r0 meta + r)%nat = Some row /\
        np_median (reliable_prescan meta row) = Some med /\
        np_std (reliable_prescan meta row) = Some sd /\
        bias out !! r = Some (med - bias_offset)%Q /\
        image_bias_corrected out !! r
          = Some (map (fun x => x - (med - bias_offset))%Q (image_pixels meta row)) /\
        sterrbyrow out !! r
          = Some (map (fun _ => sd * 1 / np_sqrt (inject_Z (Z.of_nat
                                     (c_end meta - c_start meta))))%Q
                      (image_pixels meta row)).
Proof.
  intros Hobs Hrect Hfit.
  pose proof (fits_prescan_pos _ _ _ Hfit) as (Hpr & Hpc & Hir & Hic & Hse).
  pose proof Hfit as [Hz Hn].
  unfold prescan_biassub_frame.
  rewrite bool_decide_eq_true_2 by done. simpl.
  rewrite (aligned_prescan_fits frame meta R C) by done.
  rewrite (slice_section_fits frame (image meta) R C);
    [|done|lia|lia|lia|lia|fold (i_r0 meta) (i_rows meta); lia
     |fold (i_c0 meta) (i_cols meta); lia].
  fold (i_r0 meta) (i_rows meta) (i_c0 meta) (i_cols meta).
  fold (image_pixels meta).
  set (rws := take (i_rows meta) (drop (i_r0 meta) frame)).
  destruct (take_drop_rows frame R C (i_r0 meta) (i_rows meta) Hrect ltac:(lia))
    as [Hlen Hrows]. fold rws in Hlen, Hrows.
  assert (Hne : Forall (fun row => reliable_prescan meta row <> []) rws).
  { eapply Forall_impl; [exact Hrows|]. intros row Hrow Hnil. simpl in Hrow.
    pose proof (reliable_prescan_length meta R C row Hfit Hrow) as Hl.
    rewrite Hnil in Hl. simpl in Hl. lia. }
  destruct (mapM_total np_median (map (reliable_prescan meta) rws))
    as (meds & Hmeds & Fmeds).
  { apply Forall_fmap. eapply Forall_impl; [exact Hne|].
    intros row Hrow. by apply np_median_is_Some. }
  destruct (mapM_total np_std (map (reliable_prescan meta) rws))
    as (sds & Hsds & Fsds).
  { apply Forall_fmap. eapply Forall_impl; [exact Hne|].
    intros row Hrow. by apply np_std_is_Some. }
  rewrite Hmeds, Hsds. simpl.
  pose proof (Forall2_length _ _ _ Fmeds) as Lm.
  pose proof (Forall2_length _ _ _ Fsds) as Ls.
  rewrite length_map in Lm, Ls.
  unfold broadcast_rows.
  rewrite !decide_True by (rewrite !length_map; lia). simpl.
  eexists. split; [reflexivity|]. simpl. split.
  { rewrite length_map, length_zip_with, !length_map. lia. }
  intros r Hr.
  destruct (lookup_lt_is_Some_2 rws r ltac:(lia)) as [row Hrow].
  assert (Hfr : frame !! (i_r0 meta + r)%nat = Some row).
  { unfold rws in Hrow. rewrite lookup_take_lt in Hrow by lia.
    by rewrite lookup_drop in Hrow. }
  assert (Hal : map (reliable_prescan meta) rws !! r = Some (reliable_prescan meta row))
    by (by rewrite list_lookup_fmap, Hrow).
  destruct (Forall2_lookup_l _ _ _ _ _ Fmeds Hal) as (med & Hmed & Hmedv).
  destruct (Forall2_lookup_l _ _ _ _ _ Fsds Hal) as (sd & Hsd & Hsdv).
  exists row, med, sd.
  split; [done|]. split; [done|]. split; [done|].
  split. { by rewrite list_lookup_fmap, Hmed. }
  split.
  - assert (Hzip : zip (map (fun m => (m - bias_offset)%Q) meds)
                      (map (image_pixels meta) rws) !! r
                  = Some ((med - bias_offset)%Q, image_pixels meta row)).
    { apply lookup_zip_Some. by rewrite !list_lookup_fmap, Hmed, Hrow. }
    by rewrite list_lookup_fmap, Hzip.
  - assert (Hzip : zip sds (map (image_pixels meta) rws) !! r
                  = Some (sd, image_pixels meta row)).
    { apply lookup_zip_Some. by rewrite list_lookup_fmap, Hrow. }
    by rewrite list_lookup_fmap, Hzip.
Qed.

Lemma insert_sorted_replicate b n :
  insert_sorted b (replicate n b) = replicate (S n) b.
Proof.
  destruct n as [|n]; simpl; [done|].
  assert (Hb : Qle_bool b b = true) by (apply Qle_bool_iff, Qle_refl).
  by rewrite Hb.
Qed.

Lemma np_sort_replicate b n : np_sort (replicate n b) = replicate n b.
Proof.
  unfold np_sort. induction n as [|n IH]; simpl; [done|].
  rewrite IH. apply insert_sorted_replicate.
Qed.

Lemma nth_replicate_lt (b d : Q) n k : (k < n)%nat -> nth k (replicate n b) d = b.
Proof.
  revert k. induction n as [|n IH]; intros [|k] Hk; simpl; try lia; [done|].
  apply IH. lia.
Qed.

(** The median of a constant row is the constant. *)
Lemma np_median_replicate b n m :
  np_median (replicate n b) = Some m -> (m == b)%Q.
Proof.
  unfold np_median. rewrite length_replicate, np_sort_replicate.
  case_decide as Hn; [discriminate|].
  assert (Hhalf : (n / 2 < n)%nat) by (apply Nat.div_lt; lia).
  destruct (Nat.even n).
  - rewrite !nth_replicate_lt by lia. intros [= <-]. field.
  - rewrite nth_replicate_lt by lia. intros [= <-]. reflexivity.
Qed.

Lemma Qsum_const l w :
  Forall (fun y => y == w)%Q l ->
  (Qsum l == inject_Z (Z.of_nat (length l)) * w)%Q.
Proof.
  induction 1 as [|y l Hy _ IH].
  - simpl. ring.
  - cbn [Qsum foldr length]. fold (Qsum l). rewrite IH, Hy.
    rewrite Nat2Z.inj_succ, <- Z.add_1_r, inject_Z_plus. ring.
Qed.

Lemma np_mean_const l w :
  l <> [] -> Forall (fun y => y == w)%Q l -> (np_mean l == w)%Q.
Proof.
  intros Hne Hall. unfold np_mean. rewrite (Qsum_const l w Hall).
  assert (Hpos : (0 < inject_Z (Z.of_nat (length l)))%Q).
  { destruct l; [done|]. rewrite <- (Zlt_Qlt 0). simpl. lia. }
  field. intros Hz. rewrite Hz in Hpos. by apply Qlt_irrefl in Hpos.
Qed.

(** C8 (amended).  Prescan bias subtraction of one frame, cropped to the
    image area, for a frame that the geometry fits: for each image row the
    bias estimate is the median of the reliable prescan pixels of the same
    frame row, the new error term is the standard deviation of those pixels
    times 1 over the square root of their number, and the median minus
    bias_offset is subtracted from every image pixel of the row.
    Consequently, for a frame whose reliable prescan pixels all equal [b]
    and whose image pixels all equal [v], the mean of the image region
    after the subtraction is [v - b + bias_offset]: plus bias_offset for a
    frame without signal over the bias level ([v = b]). *)
Theorem prescan_biassub_frame_bias `{Floating} (frame : list (list Q))
    (obstype : string) (meta : geometry) (bias_offset : Q) (R C : nat) :
  obstype = "SCI" \/ obstype = "ENG" ->
  rectangular frame R C -> fits meta R C ->
  exists out,
    prescan_biassub_frame frame obstype meta bias_offset false = Ok out /\
    (forall r, (r < i_rows meta)%nat ->
       exists row med sd,
         frame !! (i_r0 meta + r)%nat = Some row /\
         np_median (reliable_prescan meta row) = Some med /\
         np_std (reliable_prescan meta row) = Some sd /\
         bias out !! r = Some (med - bias_offset)%Q /\
         image_bias_corrected out !! r
           = Some (map (fun x => x - (med - bias_offset))%Q (image_pixels meta row)) /\
         sterrbyrow out !! r
           = Some (map (fun _ => sd * 1 / np_sqrt (inject_Z (Z.of_nat
                                      (c_end meta - c_start meta))))%Q
                       (image_pixels meta row))) /\
    (forall b v,
       (forall r, (r < i_rows meta)%nat ->
          exists row, frame !! (i_r0 meta + r)%nat = Some row /\
            reliable_prescan meta row = replicate (c_end meta - c_start meta) b /\
            image_pixels meta row = replicate (i_cols meta) v) ->
       (np_mean2 (image_bias_corrected out) == v - b + bias_offset)%Q).
Proof.
  intros Hobs Hrect Hfit.
  destruct (prescan_biassub_frame_rows frame obstype meta bias_offset R C
              Hobs Hrect Hfit) as (out & Hout & Hlen & Hrows).
  pose proof (fits_prescan_pos _ _ _ Hfit) as (_ & _ & Hir & Hic & _).
  exists out. split; [done|]. split; [done|].
  intros b v Hsyn.
  assert (Hall : Forall (fun row' => row' <> [] /\
                           Forall (fun y => y == v - b + bias_offset)%Q row')
                        (image_bias_corrected out)).
  { apply Forall_lookup. intros r row' Hr.
    pose proof (lookup_lt_Some _ _ _ Hr) as Hlt. rewrite Hlen in Hlt.
    destruct (Hrows r Hlt) as (row & med & sd & Hfr & Hmed & _ & _ & Himg & _).
    destruct (Hsyn r Hlt) as (row2 & Hfr2 & Hpre & Him).
    rewrite Hfr in Hfr2. injection Hfr2 as <-.
    rewrite Hpre in Hmed. apply np_median_replicate in Hmed.
    rewrite Himg in Hr. injection Hr as <-. rewrite Him. split.
    - destruct (i_cols meta); [lia|done].
    - apply Forall_fmap, Forall_replicate. simpl. rewrite Hmed. ring. }
  unfold np_mean2. apply np_mean_const.
  - destruct (image_bias_corrected out) as [|row0 rest]; [simpl in Hlen; lia|].
    apply Forall_cons in Hall as [[Hne _] _]. simpl.
    destruct row0; [done|done].
  - apply Forall_concat. eapply Forall_impl; [exact Hall|]. by intros row' [_ Hr].
Qed.

(** C8, a concrete instance: the 3x6 frame with prescan and image pixels
    all equal to 10 and bias_offset 3; the mean after subtraction is 3. *)
Lemma prescan_biassub_frame_bias_witness :
  ("SCI" = "SCI" \/ "SCI" = "ENG") /\
  rectangular (demo_frame 10) 3 6 /\ fits demo_geometry 3 6 /\
  exists out,
    @prescan_biassub_frame floor_sqrt (demo_frame 10) "SCI" demo_geometry 3 false
      = Ok out /\
    (np_mean2 (image_bias_corrected out) == 3)%Q.
Proof.
  assert (H1 : "SCI" = "SCI" \/ "SCI" = "ENG") by (by left).
  assert (H2 : rectangular (demo_frame 10) 3 6).
  { split; [reflexivity|]. repeat constructor. }
  assert (H3 : fits demo_geometry 3 6).
  { unfold fits, demo_geometry, i_r0, i_c0, i_rows, i_cols, p_r0, p_c0, p_rows,
      p_cols, c_start, c_end. simpl. lia. }
  split; [exact H1|]. split; [exact H2|]. split; [exact H3|].
  destruct (@prescan_biassub_frame_bias floor_sqrt (demo_frame 10) "SCI"
              demo_geometry 3 3 6 H1 H2 H3) as (out & Hout & _ & Hsyn).
  exists out. split; [exact Hout|].
  rewrite (Hsyn 10%Q 10%Q).
  - reflexivity.
  - intros [|[|r]] Hr; [| |vm_compute in Hr; lia]; eexists; (split; [reflexivity|]);
      split; reflexivity.
Defined.

(** C8 as stated fails: with constant prescan value 10 and bias_offset 3,
    the mean of the image region after subtraction is 3 for image pixels
    at the bias level and -7 for image pixels equal to zero; in neither
    reading is it -bias_offset = -3. *)
Lemma prescan_biassub_frame_bias_counterexample :
  exists out10 out0,
    @prescan_biassub_frame floor_sqrt (demo_frame 10) "SCI" demo_geometry 3 false
      = Ok out10 /\
    @prescan_biassub_frame floor_sqrt (demo_frame 0) "SCI" demo_geometry 3 false
      = Ok out0 /\
    (np_mean2 (image_bias_corrected out10) == 3)%Q /\
    (np_mean2 (image_bias_corrected out0) == -7)%Q /\
    ~ (np_mean2 (image_bias_corrected out10) == -3)%Q /\
    ~ (np_mean2 (image_bias_corrected out0) == -3)%Q.
Proof.
  eexists _, _. split; [vm_compute; reflexivity|]. split; [vm_compute; reflexivity|].
  repeat split; vm_compute; congruence.
Qed.

(** * Further properties *)

(** ** Plateau search *)

Lemma Qgeb_ge x y : Qgeb x y = true <-> (y <= x)%Q.
Proof. unfold Qgeb. apply Qle_bool_iff. Qed.

Lemma Qgeb_false x y : Qgeb x y = false <-> (x < y)%Q.
Proof.
  unfold Qgeb. rewrite <- not_true_iff_false, Qle_bool_iff.
  split; [apply Qnot_le_lt|apply Qlt_not_le].
Qed.

Lemma walk_back_spec row thr s :
  (walk_back row thr s <= s)%nat /\
  (walk_back row thr s = 0%nat \/
   (nth (walk_back row thr s) row 0 < thr)%Q) /\
  (forall k, (walk_back row thr s < k <= s)%nat -> (thr <= nth k row 0)%Q).
Proof.
  induction s as [|s (IH1 & IH2 & IH3)]; simpl.
  - split; [lia|]. split; [by left|]. intros k Hk. lia.
  - destruct (Qgeb (nth (S s) row 0%Q) thr) eqn:E.
    + split; [lia|]. split; [done|]. intros k Hk.
      destruct (decide (k = S s)) as [->|Hne]; [by apply Qgeb_ge|].
      apply IH3. lia.
    + split; [lia|]. split; [right; by apply Qgeb_false|]. intros k Hk. lia.
Qed.

Lemma insert_unique_elem x y l : x ∈ insert_unique y l <-> x = y \/ x ∈ l.
Proof.
  induction l as [|z l IH]; simpl.
  - rewrite list_elem_of_singleton. split; [by left|]. intros [?|H]; [done|].
    by apply elem_of_nil in H.
  - repeat case_decide; subst.
    + rewrite elem_of_cons. tauto.
    + rewrite elem_of_cons. split; [tauto|]. intros [->|?]; [by left|done].
    + rewrite !elem_of_cons, IH. tauto.
Qed.

Lemma insert_unique_sorted y l :
  StronglySorted lt l -> StronglySorted lt (insert_unique y l).
Proof.
  induction 1 as [|z l Hs IH Hall]; simpl.
  - repeat constructor.
  - repeat case_decide; subst.
    + constructor; [by constructor|]. constructor; [done|].
      eapply Forall_impl; [exact Hall|]. intros w Hw. simpl in Hw. lia.
    + by constructor.
    + constructor; [done|]. apply Forall_forall. intros w Hw.
      apply insert_unique_elem in Hw as [->|Hw]; [lia|].
      rewrite Forall_forall in Hall. by apply Hall.
Qed.

Lemma np_unique_elem x l : x ∈ np_unique l <-> x ∈ l.
Proof.
  unfold np_unique. induction l as [|y l IH]; simpl; [done|].
  rewrite insert_unique_elem, IH, elem_of_cons. tauto.
Qed.

Lemma np_unique_sorted l : StronglySorted lt (np_unique l).
Proof.
  unfold np_unique. induction l as [|y l IH]; simpl; [constructor|].
  by apply insert_unique_sorted.
Qed.

Lemma np_unique_nonempty x l : np_unique (x :: l) <> [].
Proof.
  intros Hnil. assert (Hin : x ∈ np_unique (x :: l))
    by (apply np_unique_elem; by left).
  rewrite Hnil in Hin. by apply elem_of_nil in Hin.
Qed.

Lemma nonzero_elem (l : list bool) s : s ∈ nonzero l <-> l !! s = Some true.
Proof.
  unfold nonzero. rewrite list_elem_of_omap. split.
  - intros ([i b] & Hin & Hs). apply elem_of_lookup_imap in Hin as (j & c & [= -> ->] & Hj).
    simpl in Hs. destruct c; [|discriminate]. by injection Hs as <-.
  - intros Hs. exists (s, true). split; [|done].
    by apply (elem_of_lookup_imap_2 (fun i b => (i, b)) l true s).
Qed.

(** X1.  Every plateau start that [find_plateaus] returns is a leading
    edge: it is at most the length of the row, the pixel just before it (if
    any) is below plat_thresh*fwc, and from the start up to some position
    whose smoothed value reaches sat_thresh*fwc every pixel is at or above
    plat_thresh*fwc.  The starts come in strictly increasing order, and
    there is at least one. *)
Theorem find_plateaus_leading_edges (streak_row : list Q)
    (fwc sat_thresh plat_thresh : Q) (cosm_filter : nat) (starts : list nat) :
  find_plateaus streak_row fwc sat_thresh plat_thresh cosm_filter = Some starts ->
  starts <> [] /\ StronglySorted lt starts /\
  forall p, p ∈ starts ->
    (p <= length streak_row)%nat /\
    (p = 0%nat \/ (nth (p - 1) streak_row 0 < plat_thresh * fwc)%Q) /\
    exists s, (s < length streak_row)%nat /\
      (sat_thresh * fwc <= nth s (median_filter streak_row (cosm_filter + 1)) 0)%Q /\
      (p <= S s)%nat /\
      forall k, (p <= k <= s)%nat -> (plat_thresh * fwc <= nth k streak_row 0)%Q.
Proof.
  unfold find_plateaus.
  set (filtered := median_filter streak_row (cosm_filter + 1)).
  set (sat := nonzero (map (fun x => Qgeb x (sat_thresh * fwc)%Q) filtered)).
  set (thr := (plat_thresh * fwc)%Q).
  case_decide as Hlen; [|discriminate]. intros [= <-].
  assert (Hfl : length filtered = length streak_row).
  { unfold filtered, median_filter. by rewrite length_map, length_seq. }
  split; [|split].
  - destruct sat as [|s0 sat'] eqn:Es; [simpl in Hlen; lia|].
    rewrite fmap_cons. apply np_unique_nonempty.
  - apply np_unique_sorted.
  - intros p Hp. apply (proj1 (np_unique_elem _ _)) in Hp.
    apply list_elem_of_fmap in Hp as (s & -> & Hs).
    apply nonzero_elem in Hs. rewrite list_lookup_fmap in Hs.
    destruct (filtered !! s) as [x|] eqn:Hx; [|discriminate]. simpl in Hs.
    injection Hs as Hs. apply Qgeb_ge in Hs.
    pose proof (lookup_lt_Some _ _ _ Hx) as Hlt. rewrite Hfl in Hlt.
    assert (Hnth : nth s filtered 0%Q = x) by (by apply nth_lookup_Some with (d := 0%Q)).
    destruct (walk_back_spec streak_row thr s) as (Hle & Hedge & Hrun).
    simpl. destruct (Qltb (nth (walk_back streak_row thr s) streak_row 0%Q) thr) eqn:E.
    + apply Qltb_lt in E. split; [lia|]. split.
      { right. by replace (S (walk_back streak_row thr s) - 1)%nat
                  with (walk_back streak_row thr s) by lia. }
      exists s. split; [done|]. split; [by rewrite Hnth|]. split; [lia|].
      intros k Hk. apply Hrun. lia.
    + assert (Hge : (thr <= nth (walk_back streak_row thr s) streak_row 0)%Q).
      { apply Qnot_lt_le. intros Hc. apply Qltb_lt in Hc. congruence. }
      assert (H0 : walk_back streak_row thr s = 0%nat).
      { destruct Hedge as [?|Hc]; [done|]. exfalso.
        apply (Qlt_irrefl thr). eapply Qle_lt_trans; [exact Hge|exact Hc]. }
      split; [lia|]. split; [by left|].
      exists s. split; [done|]. split; [by rewrite Hnth|]. split; [lia|].
      intros k Hk. destruct (decide (k = walk_back streak_row thr s)) as [->|Hne];
        [done|]. apply Hrun. lia.
Qed.

(** A concrete run of [find_plateaus_leading_edges]: the row of the
    plateau example. *)
Lemma find_plateaus_leading_edges_witness :
  find_plateaus plateau_row 100 (99 # 100) (1 # 2) 2 = Some [3%nat] /\
  StronglySorted lt [3%nat] /\
  (nth (3 - 1) plateau_row 0 < (1 # 2) * 100)%Q.
Proof.
  assert (E : find_plateaus plateau_row 100 (99 # 100) (1 # 2) 2 = Some [3%nat])
    by (vm_compute; reflexivity).
  split; [exact E|].
  destruct (find_plateaus_leading_edges _ _ _ _ _ _ E) as (_ & Hs & Hp).
  split; [exact Hs|].
  destruct (Hp 3%nat ltac:(by left)) as (_ & [Hc|Hlt] & _);
    [discriminate Hc|exact Hlt].
Defined.

Lemma insert_sorted_perm x l : insert_sorted x l ≡ₚ x :: l.
Proof.
  induction l as [|y l IH]; simpl; [done|].
  destruct (Qle_bool x y); [done|]. rewrite IH. apply Permutation_swap.
Qed.

Lemma np_sort_perm l : np_sort l ≡ₚ l.
Proof.
  unfold np_sort. induction l as [|x l IH]; simpl; [done|].
  by rewrite insert_sorted_perm, IH.
Qed.

Lemma np_sort_length l : length (np_sort l) = length l.
Proof. by rewrite np_sort_perm. Qed.

Lemma np_sort_elem x l : x ∈ np_sort l <-> x ∈ l.
Proof. by rewrite np_sort_perm. Qed.

Lemma nearest_elem row z : row <> [] -> nearest row z ∈ row.
Proof.
  intros Hne. unfold nearest. apply list_elem_of_In, nth_In.
  destruct row; [done|]. simpl length. lia.
Qed.

(** Every value of the smoothed row is one of the row's pixels. *)
Lemma median_filter_elem row size x :
  (0 < size)%nat -> x ∈ median_filter row size -> x ∈ row.
Proof.
  intros Hsize Hx. unfold median_filter in Hx.
  apply list_elem_of_fmap in Hx as (i & -> & Hi).
  apply elem_of_seq in Hi.
  assert (Hne : row <> []) by (destruct row; [simpl in Hi; lia|done]).
  assert (Hin : nth (size / 2) (np_sort (filter_window row size i)) 0%Q
                ∈ np_sort (filter_window row size i)).
  { apply list_elem_of_In, nth_In. rewrite np_sort_length.
    unfold filter_window. rewrite length_map, length_seq.
    apply Nat.div_lt; lia. }
  apply (proj1 (np_sort_elem _ _)) in Hin. unfold filter_window in *.
  apply list_elem_of_fmap in Hin as (k & -> & _). by apply nearest_elem.
Qed.

Lemma nonzero_nil (l : list bool) :
  (forall b, b ∈ l -> b = false) -> nonzero l = [].
Proof.
  intros Hall. destruct (nonzero l) as [|s r] eqn:E; [done|].
  assert (Hs : s ∈ nonzero l) by (rewrite E; by left).
  apply nonzero_elem in Hs. apply list_elem_of_lookup_2 in Hs.
  by apply Hall in Hs.
Qed.

(** X2.  A row none of whose pixels reaches sat_thresh*fwc has no
    plateau: [find_plateaus] returns None, whatever the filter size and
    the plateau threshold. *)
Theorem find_plateaus_quiet_row (streak_row : list Q)
    (fwc sat_thresh plat_thresh : Q) (cosm_filter : nat) :
  (forall x, x ∈ streak_row -> (x < sat_thresh * fwc)%Q) ->
  find_plateaus streak_row fwc sat_thresh plat_thresh cosm_filter = None.
Proof.
  intros Hq. unfold find_plateaus.
  rewrite nonzero_nil; [done|].
  intros b Hb. apply list_elem_of_fmap in Hb as (x & -> & Hx).
  apply Qgeb_false, Hq. apply (median_filter_elem _ (cosm_filter + 1)); [lia|done].
Qed.

(** A concrete run of [find_plateaus_quiet_row]: a row at half the full
    well. *)
Lemma find_plateaus_quiet_row_witness :
  (forall x, x ∈ [50; 60; 50]%Q -> (x < (99 # 100) * 100)%Q) /\
  find_plateaus [50; 60; 50]%Q 100 (99 # 100) (1 # 2) 2 = None.
Proof.
  assert (Hq : forall x, x ∈ [50; 60; 50]%Q -> (x < (99 # 100) * 100)%Q).
  { intros x Hx. repeat (apply elem_of_cons in Hx as [->|Hx]; [reflexivity|]).
    by apply elem_of_nil in Hx. }
  split; [exact Hq|]. exact (find_plateaus_quiet_row _ _ _ _ _ Hq).
Defined.

(** ** The prefilter of [flag_cosmics] *)

Lemma np_max_reaches row m thr :
  np_max row = Some m ->
  Qgeb m thr = true <-> exists x, x ∈ row /\ (thr <= x)%Q.
Proof.
  destruct row as [|x0 l]; [discriminate|]. intros [= <-].
  rewrite Qgeb_ge. split.
  - intros Hm.
    destruct (Forall_Exists_dec (fun y => y < thr)%Q (fun y => thr <= y)%Q
                (fun y => match Qlt_le_dec y thr with
                          | left H => left H | right H => right H end)
                (x0 :: l)) as [Hall|Hex].
    + exfalso. apply Forall_cons in Hall as [H0 Hall].
      apply (Qlt_irrefl thr). eapply Qle_lt_trans; [exact Hm|].
      by apply foldl_Qmax_lt.
    + apply Exists_exists in Hex as (x & Hx & Hle). by exists x.
  - intros (x & Hx & Hle). apply Qnot_lt_le. intros Hlt.
    apply foldl_Qmax_lt in Hlt as [H0 Hall].
    assert (Hx' : (x < thr)%Q).
    { apply elem_of_cons in Hx as [->|Hx]; [done|].
      rewrite Forall_forall in Hall. by apply Hall. }
    apply (Qlt_irrefl thr). eapply Qle_lt_trans; [exact Hle|exact Hx'].
Qed.

Lemma elem_of_concat {A} (x : A) (ls : list (list A)) :
  x ∈ concat ls <-> exists l, x ∈ l /\ l ∈ ls.
Proof.
  rewrite list_elem_of_In, in_concat. split.
  - intros (l & Hl & Hx). exists l. by rewrite !list_elem_of_In.
  - intros (l & Hx & Hl). exists l. by rewrite <- !list_elem_of_In.
Qed.

Lemma np_max_is_Some row : row <> [] -> is_Some (np_max row).
Proof. destruct row; [done|]. simpl. eauto. Qed.

(** The rows selected by the prefilter are exactly those with a pixel at
    or above the threshold. *)
Lemma streak_rows_elem cube thr l j i :
  streak_rows cube thr = Some l ->
  (j, i) ∈ l <->
  exists frame row, cube !! j = Some frame /\ frame !! i = Some row /\
                    exists x, x ∈ row /\ (thr <= x)%Q.
Proof.
  unfold streak_rows. intros Hs.
  destruct (mapM _ _) as [rows_|] eqn:Hrows; [|discriminate].
  simpl in Hs. injection Hs as <-.
  apply mapM_Some_1 in Hrows.
  rewrite list_elem_of_omap. split.
  - intros ([[j' i'] b] & Hin & Hb). simpl in Hb.
    destruct b; [|discriminate]. injection Hb as -> ->.
    apply elem_of_concat in Hin as (r & Hin & Hr).
    apply list_elem_of_lookup_1 in Hr as (k & Hk).
    destruct (Forall2_lookup_r _ _ _ _ _ Hrows Hk) as ([k' frame] & Hf & Hinner).
    apply list_lookup_imap_Some in Hf as (frame' & Hf & [= -> <-]).
    simpl in Hinner. apply mapM_Some_1 in Hinner.
    apply list_elem_of_lookup_1 in Hin as (n & Hn).
    destruct (Forall2_lookup_r _ _ _ _ _ Hinner Hn) as ([n' row] & Hrow & Hm).
    apply list_lookup_imap_Some in Hrow as (row' & Hrow & [= -> <-]).
    simpl in Hm. destruct (np_max row) as [m|] eqn:Em; [|discriminate].
    simpl in Hm. injection Hm as <- <- Hge.
    exists frame, row. split; [done|]. split; [done|].
    by apply (np_max_reaches _ _ _ Em).
  - intros (frame & row & Hf & Hrow & Hx).
    assert (Hf' : imap (fun j f => (j, f)) cube !! j = Some (j, frame))
      by (rewrite list_lookup_imap, Hf; done).
    destruct (Forall2_lookup_l _ _ _ _ _ Hrows Hf') as (r & Hr & Hinner).
    simpl in Hinner. apply mapM_Some_1 in Hinner.
    assert (Hrow' : imap (fun i r => (i, r)) frame !! i = Some (i, row))
      by (rewrite list_lookup_imap, Hrow; done).
    destruct (Forall2_lookup_l _ _ _ _ _ Hinner Hrow') as (p & Hp & Hm).
    simpl in Hm. destruct (np_max row) as [m|] eqn:Em; [|discriminate].
    simpl in Hm. injection Hm as <-.
    apply (np_max_reaches _ _ _ Em) in Hx. rewrite Hx in Hp.
    exists (j, i, true). split; [|done].
    apply elem_of_concat. exists r. split.
    + by eapply list_elem_of_lookup_2.
    + by eapply list_elem_of_lookup_2.
Qed.

Lemma streak_rows_is_Some cube thr :
  (forall frame row, frame ∈ cube -> row ∈ frame -> row <> []) ->
  is_Some (streak_rows cube thr).
Proof.
  intros Hne. unfold streak_rows.
  assert (H : is_Some (mapM (fun jf : nat * list (list Q) =>
                 mapM (fun ir : nat * list Q =>
                         m ← np_max ir.2; Some (jf.1, ir.1, Qgeb m thr))
                      (imap (fun i r => (i, r)) jf.2))
              (imap (fun j f => (j, f)) cube))).
  { apply mapM_is_Some_2, Forall_forall. intros [j frame] Hjf.
    apply elem_of_lookup_imap_1 in Hjf as (j' & frame' & [= <- <-] & Hf).
    simpl. apply mapM_is_Some_2, Forall_forall. intros [i row] Hir.
    apply elem_of_lookup_imap_1 in Hir as (i' & row' & [= <- <-] & Hr).
    simpl. destruct (np_max_is_Some row) as [m ->]; [|simpl; eauto].
    eapply Hne; by eapply list_elem_of_lookup_2. }
  destruct H as [rows_ ->]. simpl. eauto.
Qed.

Lemma streak_rows_None cube thr frame :
  frame ∈ cube -> [] ∈ frame -> streak_rows cube thr = None.
Proof.
  intros Hf Hr. unfold streak_rows.
  apply list_elem_of_lookup_1 in Hf as (j & Hf).
  apply list_elem_of_lookup_1 in Hr as (i & Hr).
  rewrite (mapM_None_2 _ (imap (fun j f => (j, f)) cube)); [done|].
  apply Exists_exists. exists (j, frame). split.
  - by apply (elem_of_lookup_imap_2 (fun j f => (j, f)) cube frame j).
  - simpl. apply mapM_None_2, Exists_exists. exists (i, []). split; [|done].
    by apply (elem_of_lookup_imap_2 (fun i r => (i, r)) frame [] i).
Qed.

Lemma flag_row_other cube ncols fwc st pt cf cb ct mode mask ji j :
  ji.1 <> j ->
  flag_row cube ncols fwc st pt cf cb ct mode mask ji !! j = mask !! j.
Proof. intros Hne. unfold flag_row. by apply list_lookup_insert_ne. Qed.

(** X3.  Frames are treated independently and the prefilter is sound:
    in the mask that [flag_cosmics] returns, the plane of a frame none of
    whose pixels reaches sat_thresh*fwc is all zero, whatever the other
    frames of the cube contain. *)
Theorem flag_cosmics_quiet_frame (cube : list (list (list Q)))
    (fwc sat_thresh plat_thresh : Q) (cosm_filter cosm_box cosm_tail : nat)
    (mode : string) (mask : list (list (list Z))) (j : nat)
    (frame : list (list Q)) :
  flag_cosmics cube fwc sat_thresh plat_thresh cosm_filter cosm_box cosm_tail mode
    = Ok mask ->
  cube !! j = Some frame ->
  (forall row x, row ∈ frame -> x ∈ row -> (x < sat_thresh * fwc)%Q) ->
  mask !! j = Some (map (map (fun _ => 0%Z)) frame).
Proof.
  unfold flag_cosmics. intros Hrun Hf Hq.
  destruct (streak_rows cube (sat_thresh * fwc)) as [l|] eqn:Hl; [|discriminate].
  injection Hrun as <-.
  assert (Hl' : forall ji, ji ∈ l -> ji.1 <> j).
  { intros [j' i'] Hji Hj. simpl in Hj. subst j'. apply (streak_rows_elem _ _ _ _ _ Hl) in Hji
      as (frame' & row & Hf' & Hrow & x & Hx & Hle).
    simpl in Hf'. rewrite Hf in Hf'. injection Hf' as <-.
    apply (Qlt_irrefl x). eapply Qlt_le_trans; [|exact Hle].
    eapply Hq; [|exact Hx]. by eapply list_elem_of_lookup_2. }
  clear Hl.
  assert (Hgen : forall m0, foldl (flag_row cube (length (nth 0 (nth 0 cube []) []))
             fwc sat_thresh plat_thresh cosm_filter cosm_box cosm_tail mode) m0 l !! j
           = m0 !! j).
  { induction l as [|ji l IH]; intros m0; [done|]. simpl.
    rewrite IH; [|intros ji' Hji'; apply Hl'; by right].
    apply flag_row_other, Hl'. by left. }
  rewrite Hgen, list_lookup_fmap, Hf. done.
Qed.

(** A concrete run of [flag_cosmics_quiet_frame]: a quiet frame behind
    the frame of the plateau example. *)
Lemma flag_cosmics_quiet_frame_witness :
  let cube := plateau_cube ++ [[quiet_row; quiet_row; quiet_row; quiet_row; quiet_row]] in
  exists mask,
    flag_cosmics cube 100 (99 # 100) (1 # 2) 2 1 2 "image" = Ok mask /\
    mask !! 1%nat = Some (replicate 5 (replicate 9 0%Z)) /\
    mask !! 0%nat <> Some (replicate 5 (replicate 9 0%Z)).
Proof.
  intros cube.
  destruct (flag_cosmics cube 100 (99 # 100) (1 # 2) 2 1 2 "image") as [mask|e] eqn:E;
    [|vm_compute in E; discriminate E].
  exists mask. split; [reflexivity|]. split.
  - apply (flag_cosmics_quiet_frame _ _ _ _ _ _ _ _ _ 1%nat
             [quiet_row; quiet_row; quiet_row; quiet_row; quiet_row] E eq_refl).
    intros row x Hrow Hx.
    assert (row = quiet_row) as ->.
    { repeat (apply elem_of_cons in Hrow as [->|Hrow]; [reflexivity|]).
      by apply elem_of_nil in Hrow. }
    repeat (apply elem_of_cons in Hx as [->|Hx]; [reflexivity|]).
    by apply elem_of_nil in Hx.
  - vm_compute in E. injection E as <-. discriminate.
Defined.

(** X4.  A cube that has a row of no columns makes [flag_cosmics] raise
    the ValueError of [np.max]; a cube all of whose rows have a column
    never raises. *)
Theorem flag_cosmics_zero_columns (cube : list (list (list Q)))
    (fwc sat_thresh plat_thresh : Q) (cosm_filter cosm_box cosm_tail : nat)
    (mode : string) :
  ((exists frame, frame ∈ cube /\ [] ∈ frame) ->
   flag_cosmics cube fwc sat_thresh plat_thresh cosm_filter cosm_box cosm_tail mode
     = Raise (ValueError "zero-size array to reduction operation maximum")) /\
  ((forall frame row, frame ∈ cube -> row ∈ frame -> row <> []) ->
   exists mask,
     flag_cosmics cube fwc sat_thresh plat_thresh cosm_filter cosm_box cosm_tail mode
       = Ok mask).
Proof.
  unfold flag_cosmics. split.
  - intros (frame & Hf & Hr). by rewrite (streak_rows_None _ _ _ Hf Hr).
  - intros Hne. destruct (streak_rows_is_Some cube (sat_thresh * fwc) Hne) as [l ->].
    eauto.
Qed.

(** A concrete run of [flag_cosmics_zero_columns]: a frame of one row
    without columns, and a frame of one pixel. *)
Lemma flag_cosmics_zero_columns_witness :
  flag_cosmics [[[]]] 100 (99 # 100) (1 # 2) 2 1 2 "image"
    = Raise (ValueError "zero-size array to reduction operation maximum") /\
  exists mask, flag_cosmics [[[1%Q]]] 100 (99 # 100) (1 # 2) 2 1 2 "image" = Ok mask.
Proof.
  split.
  - apply (proj1 (flag_cosmics_zero_columns [[[]]] 100 (99 # 100) (1 # 2) 2 1 2 "image")).
    exists [[]]. split; by left.
  - apply (proj2 (flag_cosmics_zero_columns [[[1%Q]]] 100 (99 # 100) (1 # 2) 2 1 2
                    "image")).
    intros frame row Hf Hr.
    apply list_elem_of_singleton in Hf as ->.
    apply list_elem_of_singleton in Hr as ->. discriminate.
Defined.

(** ** Marking the mask *)

#[local] Instance marked_refl : Reflexive marked.
Proof. intros v. by left. Qed.

#[local] Instance marked_trans : Transitive marked.
Proof. intros a b c [-> | ->] [-> | ->]; unfold marked; auto. Qed.

#[local] Instance extends_refl : Reflexive extends.
Proof. change (Reflexive (Forall2 (Forall2 marked))). apply _. Qed.

#[local] Instance extends_trans : Transitive extends.
Proof. change (Transitive (Forall2 (Forall2 marked))). apply _. Qed.

Lemma fill_slice_lookup a b l k :
  fill_slice a b l !! k =
  (fun x => if decide (slice_bound (length l) a <= k < slice_bound (length l) b)%nat
            then 1%Z else x) <$> l !! k.
Proof. unfold fill_slice. by rewrite list_lookup_imap. Qed.

Lemma fill_slice_length a b l : length (fill_slice a b l) = length l.
Proof. unfold fill_slice. by rewrite length_imap. Qed.

Lemma fill_slice_marked a b l : Forall2 marked l (fill_slice a b l).
Proof.
  apply Forall2_same_length_lookup_2; [by rewrite fill_slice_length|].
  intros k x y Hx Hy. rewrite fill_slice_lookup, Hx in Hy. simpl in Hy.
  injection Hy as <-. case_decide; [by right|by left].
Qed.

Lemma fill_box_lookup r0 r1 c0 c1 m i :
  fill_box r0 r1 c0 c1 m !! i =
  (fun row => if decide (slice_bound (length m) r0 <= i < slice_bound (length m) r1)%nat
              then fill_slice c0 c1 row else row) <$> m !! i.
Proof. unfold fill_box. by rewrite list_lookup_imap. Qed.

Lemma fill_box_extends r0 r1 c0 c1 m : extends m (fill_box r0 r1 c0 c1 m).
Proof.
  apply Forall2_same_length_lookup_2; [unfold fill_box; by rewrite length_imap|].
  intros i x y Hx Hy. rewrite fill_box_lookup, Hx in Hy. simpl in Hy.
  injection Hy as <-. case_decide; [apply fill_slice_marked|reflexivity].
Qed.

Lemma mark_row_extends (i : nat) a b m :
  extends m (imap (fun r row => if decide (r = i) then fill_slice a b row else row) m).
Proof.
  apply Forall2_same_length_lookup_2; [by rewrite length_imap|].
  intros r x y Hx Hy. rewrite list_lookup_imap, Hx in Hy. simpl in Hy.
  injection Hy as <-. case_decide; [apply fill_slice_marked|reflexivity].
Qed.

Lemma mark_plateau_extends ncols i cf cb ct st p :
  extends (mask_j st) (mask_j (mark_plateau ncols i cf cb ct st p)).
Proof.
  unfold mark_plateau. simpl.
  etransitivity; [apply mark_row_extends|apply fill_box_extends].
Qed.

Lemma mark_plateaus_extends ncols i cf cb ct ps : forall st,
  extends (mask_j st) (mask_j (foldl (mark_plateau ncols i cf cb ct) st ps)).
Proof.
  induction ps as [|p ps IH]; intros st; simpl; [reflexivity|].
  etransitivity; [apply mark_plateau_extends|apply IH].
Qed.

(** Reshaping the raveled mask back gives the rows again. *)
Lemma reshape_rows_concat {A B} (R : A -> B -> Prop) ncols (m : list (list A)) :
  Forall (fun row => length row = ncols) m ->
  forall flat, Forall2 R (concat m) flat ->
  Forall2 (Forall2 R) m (reshape_rows (length m) ncols flat).
Proof.
  induction 1 as [|row m Hrow _ IH]; intros flat Hflat; simpl; [constructor|].
  apply Forall2_app_inv_l in Hflat as (k1 & k2 & H1 & H2 & ->).
  pose proof (Forall2_length _ _ _ H1) as Hlen. rewrite Hrow in Hlen.
  rewrite take_app_length' by done. rewrite drop_app_length' by done.
  constructor; [done|by apply IH].
Qed.

Lemma spill_extends ncols m ce :
  Forall (fun row => length row = ncols) m -> extends m (spill ncols m ce).
Proof.
  intros Hm. unfold spill. apply reshape_rows_concat; [done|].
  apply fill_slice_marked.
Qed.

Lemma extends_row_lengths ncols m m' :
  extends m m' -> Forall (fun row => length row = ncols) m ->
  Forall (fun row => length row = ncols) m'.
Proof.
  induction 1 as [|r r' m m' Hr _ IH]; intros Hm; [constructor|].
  apply Forall_cons in Hm as [Hlen Hm]. constructor; [|by apply IH].
  by rewrite <- (Forall2_length _ _ _ Hr).
Qed.

Lemma spills_extends ncols ces : forall m,
  Forall (fun row => length row = ncols) m ->
  extends m (foldl (spill ncols) m ces).
Proof.
  induction ces as [|ce ces IH]; intros m Hm; simpl; [reflexivity|].
  etransitivity; [by apply spill_extends|].
  apply IH. eapply extends_row_lengths; [by apply spill_extends|done].
Qed.

(** One streak row's pass leaves every plane of the mask extended. *)
Lemma flag_row_extends cube ncols fwc st pt cf cb ct mode mask ji :
  Forall (Forall (fun row => length row = ncols)) mask ->
  Forall2 extends mask (flag_row cube ncols fwc st pt cf cb ct mode mask ji).
Proof.
  intros Hmask. unfold flag_row.
  destruct (mask !! ji.1) as [mj|] eqn:Hj.
  2:{ rewrite list_insert_ge; [reflexivity|]. by apply lookup_ge_None. }
  rewrite (nth_lookup_Some _ _ _ _ Hj).
  rewrite <- (list_insert_id _ _ _ Hj) at 1.
  apply Forall2_insert; [reflexivity|].
  assert (Hmj : Forall (fun row => length row = ncols) mj).
  { rewrite Forall_forall in Hmask. eapply Hmask. by eapply list_elem_of_lookup_2. }
  set (stt := match find_plateaus _ _ _ _ _ with
              | Some i_begs => foldl (mark_plateau ncols ji.2 cf cb ct)
                                     (MkStreak mj [] []) i_begs
              | None => MkStreak mj [] [] end).
  assert (Hstt : extends mj (mask_j stt)).
  { unfold stt. destruct (find_plateaus _ _ _ _ _); [|reflexivity].
    apply (mark_plateaus_extends _ _ _ _ _ _ (MkStreak mj [] [])). }
  destruct (_ && _); [|done].
  etransitivity; [exact Hstt|]. apply spills_extends.
  by eapply extends_row_lengths.
Qed.

Lemma extends_planes_row_lengths ncols mask mask' :
  Forall2 extends mask mask' ->
  Forall (Forall (fun row => length row = ncols)) mask ->
  Forall (Forall (fun row => length row = ncols)) mask'.
Proof.
  induction 1 as [|m m' mask mask' Hm _ IH]; intros Hmask; [constructor|].
  apply Forall_cons in Hmask as [Hlen Hmask]. constructor; [|by apply IH].
  by eapply extends_row_lengths.
Qed.

Lemma flag_rows_extends cube ncols fwc st pt cf cb ct mode l : forall mask,
  Forall (Forall (fun row => length row = ncols)) mask ->
  Forall2 extends mask
    (foldl (flag_row cube ncols fwc st pt cf cb ct mode) mask l).
Proof.
  induction l as [|ji l IH]; intros mask Hmask; simpl; [reflexivity|].
  etransitivity; [by apply flag_row_extends|].
  apply IH. eapply extends_planes_row_lengths; [by apply flag_row_extends|done].
Qed.

Lemma cube_shape_columns {A} (cube : list (list (list A))) R C :
  cube_shape cube R C ->
  Forall (Forall (fun row => length row = length (nth 0 (nth 0 cube []) []))) cube.
Proof.
  intros Hc. destruct cube as [|f0 cube]; [constructor|].
  pose proof Hc as Hc0. apply Forall_cons in Hc0 as [[HR HC] _].
  destruct f0 as [|r0 f0].
  - simpl in HR. subst R. eapply Forall_impl; [exact Hc|].
    intros f [Hlen _]. destruct f; [constructor|discriminate].
  - apply Forall_cons in HC as [HC _]. simpl. rewrite HC.
    eapply Forall_impl; [exact Hc|]. by intros f [_ Hf].
Qed.

Lemma zeros_row_lengths (cube : list (list (list Q))) ncols :
  Forall (Forall (fun row => length row = ncols)) cube ->
  Forall (Forall (fun row => length row = ncols))
         (map (map (map (fun _ => 0%Z))) cube).
Proof.
  intros Hc. apply Forall_fmap. eapply Forall_impl; [exact Hc|].
  intros f Hf. simpl. apply Forall_fmap. eapply Forall_impl; [exact Hf|].
  intros r Hr. simpl. by rewrite length_map.
Qed.

(** What [flag_cosmics] returns extends the all-zero mask. *)
Lemma flag_cosmics_extends cube fwc st pt cf cb ct mode mask R C :
  cube_shape cube R C ->
  flag_cosmics cube fwc st pt cf cb ct mode = Ok mask ->
  Forall2 extends (map (map (map (fun _ => 0%Z))) cube) mask.
Proof.
  intros Hc. unfold flag_cosmics.
  destruct (streak_rows _ _) as [l|]; [|discriminate]. intros [= <-].
  apply flag_rows_extends, zeros_row_lengths. by eapply cube_shape_columns.
Qed.

(** X5.  On a cube of frames of R rows and C columns, the mask that
    [flag_cosmics] returns, in either mode, has the shape of the cube and
    holds only zeros and ones. *)
Theorem flag_cosmics_mask_shape (cube : list (list (list Q)))
    (fwc sat_thresh plat_thresh : Q) (cosm_filter cosm_box cosm_tail : nat)
    (mode : string) (mask : list (list (list Z))) (R C : nat) :
  cube_shape cube R C ->
  flag_cosmics cube fwc sat_thresh plat_thresh cosm_filter cosm_box cosm_tail mode
    = Ok mask ->
  cube_shape mask R C /\
  length mask = length cube /\
  Forall (Forall (Forall (fun v => v = 0 \/ v = 1)%Z)) mask.
Proof.
  intros Hc Hrun. pose proof (flag_cosmics_extends _ _ _ _ _ _ _ _ _ _ _ Hc Hrun) as He.
  split; [|split].
  - apply Forall_forall. intros m Hm.
    apply list_elem_of_lookup_1 in Hm as (j & Hj).
    destruct (Forall2_lookup_r _ _ _ _ _ He Hj) as (m0 & Hm0 & Hext).
    rewrite list_lookup_fmap in Hm0.
    destruct (cube !! j) as [frame|] eqn:Hf; [|discriminate].
    injection Hm0 as <-.
    assert (Hfr : rectangular frame R C).
    { unfold cube_shape in Hc. rewrite Forall_forall in Hc. apply Hc.
      by eapply list_elem_of_lookup_2. }
    destruct Hfr as [HR HC]. split.
    + rewrite <- (Forall2_length _ _ _ Hext), length_map. done.
    + eapply extends_row_lengths; [exact Hext|].
      apply Forall_fmap. eapply Forall_impl; [exact HC|].
      intros r Hr. simpl. by rewrite length_map.
  - rewrite <- (Forall2_length _ _ _ He). by rewrite length_map.
  - apply Forall_forall. intros m Hm.
    apply list_elem_of_lookup_1 in Hm as (j & Hj).
    destruct (Forall2_lookup_r _ _ _ _ _ He Hj) as (m0 & Hm0 & Hext).
    rewrite list_lookup_fmap in Hm0.
    destruct (cube !! j) as [frame|]; [|discriminate]. injection Hm0 as <-.
    apply Forall_forall. intros r Hr.
    apply list_elem_of_lookup_1 in Hr as (i & Hi).
    destruct (Forall2_lookup_r _ _ _ _ _ Hext Hi) as (r0 & Hr0 & Hrow).
    rewrite list_lookup_fmap in Hr0.
    destruct (frame !! i) as [row|]; [|discriminate]. injection Hr0 as <-.
    apply Forall_forall. intros v Hv.
    apply list_elem_of_lookup_1 in Hv as (k & Hk).
    destruct (Forall2_lookup_r _ _ _ _ _ Hrow Hk) as (v0 & Hv0 & Hmark).
    rewrite list_lookup_fmap in Hv0.
    destruct (row !! k); [|discriminate]. injection Hv0 as <-.
    destruct Hmark as [->| ->]; auto.
Qed.

(** A concrete run of [flag_cosmics_mask_shape]: the cube of the plateau
    example, in the full-frame mode. *)
Lemma flag_cosmics_mask_shape_witness :
  exists mask,
    cube_shape plateau_cube 5 9 /\
    flag_cosmics plateau_cube 100 (99 # 100) (1 # 2) 2 1 2 "full" = Ok mask /\
    cube_shape mask 5 9.
Proof.
  assert (Hc : cube_shape plateau_cube 5 9).
  { repeat constructor. }
  destruct (flag_cosmics plateau_cube 100 (99 # 100) (1 # 2) 2 1 2 "full")
    as [mask|e] eqn:E; [|vm_compute in E; discriminate E].
  exists mask. split; [exact Hc|]. split; [reflexivity|].
  exact (proj1 (flag_cosmics_mask_shape _ _ _ _ _ _ _ _ _ _ _ Hc E)).
Defined.

(** ** Plateaus are masked *)

Lemma extends_cell m m' i k :
  extends m m' -> cell m i k = Some 1%Z -> cell m' i k = Some 1%Z.
Proof.
  unfold cell. intros He Hc.
  destruct (m !! i) as [row|] eqn:Hi; [|discriminate]. simpl in Hc.
  destruct (Forall2_lookup_l _ _ _ _ _ He Hi) as (row' & -> & Hrow). simpl.
  destruct (Forall2_lookup_l _ _ _ _ _ Hrow Hc) as (v & -> & [->| ->]); done.
Qed.

Lemma extends_cell3 mask mask' j i k :
  Forall2 extends mask mask' ->
  cell3 mask j i k = Some 1%Z -> cell3 mask' j i k = Some 1%Z.
Proof.
  unfold cell3. intros He Hc.
  destruct (mask !! j) as [m|] eqn:Hj; [|discriminate]. simpl in Hc.
  destruct (Forall2_lookup_l _ _ _ _ _ He Hj) as (m' & -> & Hm). simpl.
  by eapply extends_cell.
Qed.

Lemma cell3_nth (mask : list (list (list Z))) j i k v :
  cell3 mask j i k = Some v -> nth k (mask_row mask j i) 0%Z = v.
Proof.
  unfold cell3, cell, mask_row. intros Hc.
  destruct (mask !! j) as [m|] eqn:Hj; [|discriminate]. simpl in Hc.
  destruct (m !! i) as [row|] eqn:Hi; [|discriminate]. simpl in Hc.
  rewrite (nth_lookup_Some _ _ _ _ Hj), (nth_lookup_Some _ _ _ _ Hi).
  by apply nth_lookup_Some.
Qed.

Lemma fill_slice_sets a b (row : list Z) k :
  (slice_bound (length row) a <= k < slice_bound (length row) b)%nat ->
  (k < length row)%nat ->
  fill_slice a b row !! k = Some 1%Z.
Proof.
  intros Hk Hlen. rewrite fill_slice_lookup.
  destruct (lookup_lt_is_Some_2 row k Hlen) as [x ->]. simpl.
  by rewrite decide_True.
Qed.

Lemma mark_plateau_run ncols i cf cb ct st p row k :
  mask_j st !! i = Some row -> length row = ncols ->
  (p <= k <= p + cf + ct)%nat -> (k < ncols)%nat ->
  cell (mask_j (mark_plateau ncols i cf cb ct st p)) i k = Some 1%Z.
Proof.
  intros Hi Hlen Hk Hc. unfold mark_plateau. simpl.
  eapply extends_cell; [apply fill_box_extends|].
  unfold cell. rewrite list_lookup_imap, Hi. simpl. rewrite decide_True by done.
  apply fill_slice_sets; [|lia]. rewrite Hlen. unfold slice_bound.
  repeat match goal with |- context [(?z <? 0)%Z] => destruct (Z.ltb_spec z 0) end; lia.
Qed.

Lemma mark_plateau_box ncols i cf cb ct st p r c :
  Forall (fun row => length row = ncols) (mask_j st) ->
  (i - cb <= r <= i + cb)%nat -> (r < length (mask_j st))%nat ->
  (p - cb <= c <= p + cb)%nat -> (c < ncols)%nat ->
  cell (mask_j (mark_plateau ncols i cf cb ct st p)) r c = Some 1%Z.
Proof.
  intros Hrows Hr Hlen Hc Hcol. unfold mark_plateau. simpl.
  set (m1 := imap _ (mask_j st)).
  assert (He : extends (mask_j st) m1) by apply mark_row_extends.
  pose proof (extends_row_lengths _ _ _ He Hrows) as Hrows1.
  pose proof (Forall2_length _ _ _ He) as Hlen1.
  destruct (lookup_lt_is_Some_2 m1 r ltac:(lia)) as [row1 Hrow1].
  assert (Hl1 : length row1 = ncols).
  { rewrite Forall_forall in Hrows1. apply Hrows1. by eapply list_elem_of_lookup_2. }
  unfold cell. rewrite fill_box_lookup, Hrow1. simpl.
  rewrite decide_True.
  - apply fill_slice_sets; [|lia]. rewrite Hl1. unfold slice_bound.
    repeat match goal with |- context [(?z <? 0)%Z] => destruct (Z.ltb_spec z 0) end; lia.
  - rewrite <- Hlen1. unfold slice_bound.
    repeat match goal with |- context [(?z <? 0)%Z] => destruct (Z.ltb_spec z 0) end; lia.
Qed.

(** A cell that the pass of one plateau start sets is set after the pass
    of all the starts of the row. *)
Lemma mark_plateaus_cell ncols nrows i cf cb ct r c p ps :
  (forall st, Forall (fun row => length row = ncols) (mask_j st) ->
              length (mask_j st) = nrows ->
              cell (mask_j (mark_plateau ncols i cf cb ct st p)) r c = Some 1%Z) ->
  p ∈ ps ->
  forall st, Forall (fun row => length row = ncols) (mask_j st) ->
             length (mask_j st) = nrows ->
  cell (mask_j (foldl (mark_plateau ncols i cf cb ct) st ps)) r c = Some 1%Z.
Proof.
  intros Hset. induction ps as [|q ps IH]; intros Hp st Hrows Hlen.
  - by apply elem_of_nil in Hp.
  - simpl. apply elem_of_cons in Hp as [<-|Hp].
    + eapply extends_cell; [apply mark_plateaus_extends|]. by apply Hset.
    + apply IH; [done| |].
      * eapply extends_row_lengths; [apply mark_plateau_extends|done].
      * by rewrite <- (Forall2_length _ _ _ (mark_plateau_extends ncols i cf cb ct st q)).
Qed.

Lemma flag_row_cell cube ncols nrows fwc sth pt cf cb ct mode mask j i r c p starts mj :
  (forall st, Forall (fun row => length row = ncols) (mask_j st) ->
              length (mask_j st) = nrows ->
              cell (mask_j (mark_plateau ncols i cf cb ct st p)) r c = Some 1%Z) ->
  find_plateaus (nth i (nth j cube []) []) fwc sth pt cf = Some starts ->
  p ∈ starts ->
  mask !! j = Some mj -> Forall (fun row => length row = ncols) mj ->
  length mj = nrows ->
  cell3 (flag_row cube ncols fwc sth pt cf cb ct mode mask (j, i)) j r c = Some 1%Z.
Proof.
  intros Hset Hfind Hp Hj Hrows Hlen. unfold flag_row, cell3. simpl.
  rewrite Hfind, (nth_lookup_Some _ _ _ _ Hj).
  rewrite list_lookup_insert_eq by (by eapply lookup_lt_Some). simpl.
  set (stt := foldl _ _ starts).
  assert (Hc : cell (mask_j stt) r c = Some 1%Z).
  { unfold stt. by eapply (mark_plateaus_cell ncols nrows). }
  destruct (_ && _); [|done].
  eapply extends_cell; [|exact Hc]. apply spills_extends.
  eapply extends_row_lengths; [|exact Hrows].
  apply (mark_plateaus_extends _ _ _ _ _ _ (MkStreak mj [] [])).
Qed.

(** A cell that the pass of one streak row sets is set in the end. *)
Lemma flag_rows_cell_gen cube ncols nrows fwc sth pt cf cb ct mode j i r c l :
  (forall mask mj,
     mask !! j = Some mj -> Forall (fun row => length row = ncols) mj ->
     length mj = nrows ->
     cell3 (flag_row cube ncols fwc sth pt cf cb ct mode mask (j, i)) j r c
       = Some 1%Z) ->
  (j, i) ∈ l ->
  forall mask mj,
    Forall (Forall (fun row => length row = ncols)) mask ->
    mask !! j = Some mj -> length mj = nrows ->
    cell3 (foldl (flag_row cube ncols fwc sth pt cf cb ct mode) mask l) j r c
      = Some 1%Z.
Proof.
  intros Hset. induction l as [|ji l IH]; intros Hji mask mj Hmask Hj Hlen.
  - by apply elem_of_nil in Hji.
  - simpl. apply elem_of_cons in Hji as [<-|Hji].
    + eapply extends_cell3.
      * apply flag_rows_extends.
        eapply extends_planes_row_lengths; [by apply flag_row_extends|done].
      * eapply Hset; eauto.
        rewrite Forall_forall in Hmask. apply Hmask. by eapply list_elem_of_lookup_2.
    + pose proof (flag_row_extends cube ncols fwc sth pt cf cb ct mode mask ji Hmask)
        as He.
      destruct (Forall2_lookup_l _ _ _ _ _ He Hj) as (mj' & Hj' & Hext).
      eapply IH; [done| |exact Hj'|].
      * by eapply extends_planes_row_lengths.
      * by rewrite <- (Forall2_length _ _ _ Hext).
Qed.

Lemma flag_rows_cell cube ncols nrows fwc sth pt cf cb ct mode j i r c p starts l :
  (forall st, Forall (fun row => length row = ncols) (mask_j st) ->
              length (mask_j st) = nrows ->
              cell (mask_j (mark_plateau ncols i cf cb ct st p)) r c = Some 1%Z) ->
  find_plateaus (nth i (nth j cube []) []) fwc sth pt cf = Some starts ->
  p ∈ starts ->
  (j, i) ∈ l ->
  forall mask mj,
    Forall (Forall (fun row => length row = ncols)) mask ->
    mask !! j = Some mj -> length mj = nrows ->
    cell3 (foldl (flag_row cube ncols fwc sth pt cf cb ct mode) mask l) j r c
      = Some 1%Z.
Proof.
  intros Hset Hfind Hp. apply flag_rows_cell_gen.
  intros mask mj Hj Hrows Hlen. by eapply flag_row_cell.
Qed.

(** A row in which [find_plateaus] finds a plateau has a pixel at or
    above the saturation threshold, so the prefilter selects it. *)
Lemma find_plateaus_reaches row fwc sth pt cf starts :
  find_plateaus row fwc sth pt cf = Some starts ->
  exists x, x ∈ row /\ (sth * fwc <= x)%Q.
Proof.
  unfold find_plateaus. case_decide as Hlen; [|discriminate]. intros _.
  destruct (nonzero _) as [|s sat] eqn:Es; [simpl in Hlen; lia|].
  assert (Hs : s ∈ nonzero (map (fun x => Qgeb x (sth * fwc)%Q)
                                (median_filter row (cf + 1))))
    by (rewrite Es; by left).
  apply nonzero_elem in Hs. rewrite list_lookup_fmap in Hs.
  destruct (median_filter row (cf + 1) !! s) as [x|] eqn:Hx; [|discriminate].
  injection Hs as Hs. exists x. split; [|by apply Qgeb_ge].
  apply (median_filter_elem _ (cf + 1)); [lia|]. by eapply list_elem_of_lookup_2.
Qed.

(** X6.  The prefilter loses no plateau and marks are never undone: for
    every row of the cube and every plateau start [p] that [find_plateaus]
    reports in it, the returned mask has, in that row, the pixels from [p]
    through [p + cosm_filter + cosm_tail] (as far as the row goes) set, and
    the box of half-width cosm_box around the plateau start set (as far as
    the frame goes), in either mode and whatever else is in the cube. *)
Theorem flag_cosmics_masks_plateau (cube : list (list (list Q)))
    (fwc sat_thresh plat_thresh : Q) (cosm_filter cosm_box cosm_tail : nat)
    (mode : string) (mask : list (list (list Z))) (R C : nat)
    (j i p : nat) (frame : list (list Q)) (row : list Q) (starts : list nat) :
  cube_shape cube R C ->
  flag_cosmics cube fwc sat_thresh plat_thresh cosm_filter cosm_box cosm_tail mode
    = Ok mask ->
  cube !! j = Some frame -> frame !! i = Some row ->
  find_plateaus row fwc sat_thresh plat_thresh cosm_filter = Some starts ->
  p ∈ starts ->
  (forall k, (p <= k <= p + cosm_filter + cosm_tail)%nat -> (k < C)%nat ->
             nth k (mask_row mask j i) 0%Z = 1%Z) /\
  (forall r c, (i - cosm_box <= r <= i + cosm_box)%nat -> (r < R)%nat ->
               (p - cosm_box <= c <= p + cosm_box)%nat -> (c < C)%nat ->
               nth c (mask_row mask j r) 0%Z = 1%Z).
Proof.
  intros Hshape Hrun Hf Hrow Hfind Hp.
  pose proof (cube_shape_columns _ _ _ Hshape) as Hcols.
  set (ncols := length (nth 0 (nth 0 cube []) [])) in *.
  assert (Hfr : rectangular frame R C).
  { unfold cube_shape in Hshape. rewrite Forall_forall in Hshape. apply Hshape.
    by eapply list_elem_of_lookup_2. }
  destruct Hfr as [HR HC].
  assert (HrowC : length row = C).
  { rewrite Forall_forall in HC. apply HC. by eapply list_elem_of_lookup_2. }
  assert (Hn : ncols = C).
  { rewrite <- HrowC. symmetry.
    rewrite Forall_forall in Hcols.
    specialize (Hcols frame ltac:(by eapply list_elem_of_lookup_2)).
    rewrite Forall_forall in Hcols. apply Hcols. by eapply list_elem_of_lookup_2. }
  unfold flag_cosmics in Hrun. fold ncols in Hrun.
  destruct (streak_rows cube (sat_thresh * fwc)) as [l|] eqn:Hl; [|discriminate].
  injection Hrun as <-.
  assert (Hji : (j, i) ∈ l).
  { apply (streak_rows_elem _ _ _ _ _ Hl). exists frame, row.
    split; [done|]. split; [done|]. by eapply find_plateaus_reaches. }
  assert (Hfind' : find_plateaus (nth i (nth j cube []) []) fwc sat_thresh
                     plat_thresh cosm_filter = Some starts).
  { by rewrite (nth_lookup_Some _ _ _ _ Hf), (nth_lookup_Some _ _ _ _ Hrow). }
  assert (Hz : Forall (Forall (fun row => length row = ncols))
                      (map (map (map (fun _ => 0%Z))) cube))
    by (by apply zeros_row_lengths).
  assert (Hzj : map (map (map (fun _ => 0%Z))) cube !! j
                = Some (map (map (fun _ => 0%Z)) frame))
    by (by rewrite list_lookup_fmap, Hf).
  assert (Hzlen : length (map (map (fun _ : Q => 0%Z)) frame) = R)
    by (by rewrite length_map).
  split.
  - intros k Hk HkC. apply cell3_nth.
    eapply (flag_rows_cell cube ncols R); [|exact Hfind'|exact Hp|exact Hji
                                           |exact Hz|exact Hzj|exact Hzlen].
    intros st Hrows Hlen.
    destruct (lookup_lt_is_Some_2 (mask_j st) i) as [mrow Hmrow].
    { rewrite Hlen, <- HR. by eapply lookup_lt_Some. }
    eapply mark_plateau_run; [exact Hmrow| |done|lia].
    rewrite Forall_forall in Hrows. apply Hrows. by eapply list_elem_of_lookup_2.
  - intros r c Hr HrR Hc HcC. apply cell3_nth.
    eapply (flag_rows_cell cube ncols R); [|exact Hfind'|exact Hp|exact Hji
                                           |exact Hz|exact Hzj|exact Hzlen].
    intros st Hrows Hlen. apply mark_plateau_box; [done|done|lia|done|lia].
Qed.

(** A concrete run of [flag_cosmics_masks_plateau]: the cube of the
    plateau example, whose plateau starts at column 3 of row 2. *)
Lemma flag_cosmics_masks_plateau_witness :
  exists mask,
    cube_shape plateau_cube 5 9 /\
    flag_cosmics plateau_cube 100 (99 # 100) (1 # 2) 2 1 2 "image" = Ok mask /\
    find_plateaus plateau_row 100 (99 # 100) (1 # 2) 2 = Some [3%nat] /\
    nth 7 (mask_row mask 0 2) 0%Z = 1%Z /\
    nth 4 (mask_row mask 0 1) 0%Z = 1%Z.
Proof.
  assert (Hc : cube_shape plateau_cube 5 9) by repeat constructor.
  assert (Hfind : find_plateaus plateau_row 100 (99 # 100) (1 # 2) 2 = Some [3%nat])
    by (vm_compute; reflexivity).
  destruct (flag_cosmics plateau_cube 100 (99 # 100) (1 # 2) 2 1 2 "image")
    as [mask|e] eqn:E; [|vm_compute in E; discriminate E].
  exists mask. split; [exact Hc|]. split; [reflexivity|]. split; [exact Hfind|].
  destruct (flag_cosmics_masks_plateau plateau_cube _ _ _ _ _ _ _ mask 5 9
              0%nat 2%nat 3%nat
              [quiet_row; quiet_row; plateau_row; quiet_row; quiet_row]
              plateau_row [3%nat] Hc E eq_refl eq_refl Hfind ltac:(by left))
    as [Hrun Hbox].
  split; [apply Hrun; simpl; lia|apply Hbox; simpl; lia].
Defined.

(** ** The full-frame mode *)

Lemma concat_length_rows {A} (m : list (list A)) n :
  Forall (fun row => length row = n) m -> length (concat m) = (length m * n)%nat.
Proof.
  induction 1 as [|c cs Hc _ IH]; simpl; [done|].
  rewrite length_app, IH, Hc. lia.
Qed.

Lemma reshape_rows_cell {A} ncols : forall nrows (flat : list A) r k,
  (r < nrows)%nat -> (k < ncols)%nat ->
  cell (reshape_rows nrows ncols flat) r k = flat !! (r * ncols + k)%nat.
Proof.
  induction nrows as [|n IH]; intros flat r k Hr Hk; [lia|].
  destruct r as [|r]; unfold cell; simpl.
  - by apply lookup_take_lt.
  - fold (cell (reshape_rows n ncols (drop ncols flat)) r k).
    rewrite IH by lia. rewrite lookup_drop. f_equal. lia.
Qed.

(** One recorded overrun sets, in row-major order, the last pixel of the
    streak row and the [ex - 1] pixels after it. *)
Lemma spill_cell ncols m (i : nat) (ex : Z) r k :
  Forall (fun row => length row = ncols) m ->
  (r < length m)%nat -> (k < ncols)%nat ->
  ((Z.of_nat i + 1) * Z.of_nat ncols - 1 <= Z.of_nat (r * ncols + k)
   < (Z.of_nat i + 1) * Z.of_nat ncols - 1 + ex)%Z ->
  cell (spill ncols m (Z.of_nat i + 1, ex)%Z) r k = Some 1%Z.
Proof.
  intros Hm Hr Hk Ht. unfold spill. simpl.
  rewrite reshape_rows_cell by done.
  assert (Hlen : (r * ncols + k < length (concat m))%nat).
  { rewrite (concat_length_rows _ _ Hm). nia. }
  apply fill_slice_sets; [|done]. unfold slice_bound.
  assert (0 <= (Z.of_nat i + 1) * Z.of_nat ncols - 1)%Z by nia.
  repeat match goal with |- context [(?z <? 0)%Z] => destruct (Z.ltb_spec z 0) end; lia.
Qed.

Lemma spills_cell ncols nrows ce r k ces :
  (forall m, Forall (fun row => length row = ncols) m -> length m = nrows ->
             cell (spill ncols m ce) r k = Some 1%Z) ->
  ce ∈ ces ->
  forall m, Forall (fun row => length row = ncols) m -> length m = nrows ->
  cell (foldl (spill ncols) m ces) r k = Some 1%Z.
Proof.
  intros Hset. induction ces as [|q ces IH]; intros Hce m Hm Hlen.
  - by apply elem_of_nil in Hce.
  - simpl. pose proof (spill_extends ncols m q Hm) as He.
    pose proof (extends_row_lengths _ _ _ He Hm) as Hm'.
    apply elem_of_cons in Hce as [<-|Hce].
    + eapply extends_cell; [by apply spills_extends|]. by apply Hset.
    + apply IH; [done|done|]. by rewrite <- (Forall2_length _ _ _ He).
Qed.

(** The overruns of a row's plateau starts are recorded in step. *)
Lemma mark_plateau_records ncols i cf cb ct st q :
  length (cutoffs st) = length (ex_l st) ->
  let st' := mark_plateau ncols i cf cb ct st q in
  length (cutoffs st') = length (ex_l st') /\
  (forall ce, ce ∈ zip (cutoffs st) (ex_l st) -> ce ∈ zip (cutoffs st') (ex_l st')) /\
  ((ncols < q + cf + ct + 1)%nat ->
   (Z.of_nat i + 1,
    Z.of_nat q + Z.of_nat cf + Z.of_nat ct + 1 - Z.of_nat ncols)%Z
   ∈ zip (cutoffs st') (ex_l st')).
Proof.
  intros Hlen. unfold mark_plateau. simpl.
  destruct (Z.ltb_spec (Z.of_nat ncols)
              (Z.of_nat q + Z.of_nat cf + Z.of_nat ct + 1)) as [Hover|Hfit].
  - rewrite zip_with_app by done. rewrite !length_app, Hlen.
    split; [done|]. split.
    + intros ce Hce. apply elem_of_app. by left.
    + intros _. apply elem_of_app. right. simpl. by left.
  - split; [done|]. split; [done|]. intros Hc. lia.
Qed.

Lemma mark_plateaus_records ncols i cf cb ct p ps : forall st,
  length (cutoffs st) = length (ex_l st) ->
  let st' := foldl (mark_plateau ncols i cf cb ct) st ps in
  length (cutoffs st') = length (ex_l st') /\
  (forall ce, ce ∈ zip (cutoffs st) (ex_l st) -> ce ∈ zip (cutoffs st') (ex_l st')) /\
  (p ∈ ps -> (ncols < p + cf + ct + 1)%nat ->
   (Z.of_nat i + 1,
    Z.of_nat p + Z.of_nat cf + Z.of_nat ct + 1 - Z.of_nat ncols)%Z
   ∈ zip (cutoffs st') (ex_l st')).
Proof.
  induction ps as [|q ps IH]; intros st Hlen; simpl.
  - split; [done|]. split; [done|]. intros Hp. by apply elem_of_nil in Hp.
  - destruct (mark_plateau_records ncols i cf cb ct st q Hlen) as (Hlen' & Hkeep & Hnew).
    destruct (IH _ Hlen') as (Hlen'' & Hkeep' & Hnew').
    split; [done|]. split; [by auto|].
    intros Hp Hover. apply elem_of_cons in Hp as [->|Hp]; [|by auto].
    apply Hkeep', Hnew, Hover.
Qed.

Lemma flag_row_spill cube ncols nrows fwc sth pt cf cb ct mask j i r k p starts mj :
  find_plateaus (nth i (nth j cube []) []) fwc sth pt cf = Some starts ->
  p ∈ starts -> (ncols < p + cf + ct + 1)%nat ->
  mask !! j = Some mj -> Forall (fun row => length row = ncols) mj ->
  length mj = nrows -> (r < nrows)%nat -> (k < ncols)%nat ->
  ((Z.of_nat i + 1) * Z.of_nat ncols - 1 <= Z.of_nat (r * ncols + k)
   < (Z.of_nat i + 1) * Z.of_nat ncols - 1
     + (Z.of_nat p + Z.of_nat cf + Z.of_nat ct + 1 - Z.of_nat ncols))%Z ->
  cell3 (flag_row cube ncols fwc sth pt cf cb ct "full" mask (j, i)) j r k
    = Some 1%Z.
Proof.
  intros Hfind Hp Hover Hj Hrows Hlen Hr Hk Ht. unfold flag_row, cell3. simpl.
  rewrite Hfind, (nth_lookup_Some _ _ _ _ Hj).
  rewrite list_lookup_insert_eq by (by eapply lookup_lt_Some). simpl.
  set (stt := foldl _ _ starts).
  destruct (mark_plateaus_records ncols i cf cb ct p starts (MkStreak mj [] []) eq_refl)
    as (Hlen' & _ & Hnew).
  specialize (Hnew Hp Hover). fold stt in Hnew, Hlen'.
  assert (He : extends mj (mask_j stt))
    by apply (mark_plateaus_extends _ _ _ _ _ _ (MkStreak mj [] [])).
  assert (Hex : (0 < length (ex_l stt))%nat).
  { destruct (ex_l stt); [|simpl; lia].
    rewrite zip_with_nil_r in Hnew. by apply elem_of_nil in Hnew. }
  rewrite (bool_decide_eq_true_2 (0 < length (ex_l stt))%nat) by done. simpl.
  eapply (spills_cell ncols nrows); [|exact Hnew| |].
  - intros m Hm Hml. apply spill_cell; [done|lia|done|done].
  - by eapply extends_row_lengths.
  - by rewrite <- (Forall2_length _ _ _ He).
Qed.

(** X7.  In the 'full' mode a tail that runs over the end of its row by
    [ex = p + cosm_filter + cosm_tail + 1 - C] pixels is continued in
    row-major order from the LAST pixel of the streak row: the pixels at
    raveled positions [(i+1)*C - 1] up to [(i+1)*C - 1 + ex] (exclusive,
    and as far as the frame goes) are set, so the following row gets
    [ex - 1] pixels of the tail. *)
Theorem flag_cosmics_full_spill (cube : list (list (list Q)))
    (fwc sat_thresh plat_thresh : Q) (cosm_filter cosm_box cosm_tail : nat)
    (mask : list (list (list Z))) (R C : nat)
    (j i p : nat) (frame : list (list Q)) (row : list Q) (starts : list nat) :
  cube_shape cube R C ->
  flag_cosmics cube fwc sat_thresh plat_thresh cosm_filter cosm_box cosm_tail "full"
    = Ok mask ->
  cube !! j = Some frame -> frame !! i = Some row ->
  find_plateaus row fwc sat_thresh plat_thresh cosm_filter = Some starts ->
  p ∈ starts ->
  (C < p + cosm_filter + cosm_tail + 1)%nat ->
  forall r k, (r < R)%nat -> (k < C)%nat ->
    ((i + 1) * C <= r * C + k + 1)%nat ->
    (r * C + k + 1 < (i + 1) * C + (p + cosm_filter + cosm_tail + 1 - C))%nat ->
    nth k (mask_row mask j r) 0%Z = 1%Z.
Proof.
  intros Hshape Hrun Hf Hrow Hfind Hp Hover r k Hr Hk Hlo Hhi.
  pose proof (cube_shape_columns _ _ _ Hshape) as Hcols.
  set (ncols := length (nth 0 (nth 0 cube []) [])) in *.
  assert (Hfr : rectangular frame R C).
  { unfold cube_shape in Hshape. rewrite Forall_forall in Hshape. apply Hshape.
    by eapply list_elem_of_lookup_2. }
  destruct Hfr as [HR HC].
  assert (HrowC : length row = C).
  { rewrite Forall_forall in HC. apply HC. by eapply list_elem_of_lookup_2. }
  assert (Hn : ncols = C).
  { rewrite <- HrowC. symmetry.
    rewrite Forall_forall in Hcols.
    specialize (Hcols frame ltac:(by eapply list_elem_of_lookup_2)).
    rewrite Forall_forall in Hcols. apply Hcols. by eapply list_elem_of_lookup_2. }
  unfold flag_cosmics in Hrun. fold ncols in Hrun.
  destruct (streak_rows cube (sat_thresh * fwc)) as [l|] eqn:Hl; [|discriminate].
  injection Hrun as <-.
  assert (Hji : (j, i) ∈ l).
  { apply (streak_rows_elem _ _ _ _ _ Hl). exists frame, row.
    split; [done|]. split; [done|]. by eapply find_plateaus_reaches. }
  assert (Hfind' : find_plateaus (nth i (nth j cube []) []) fwc sat_thresh
                     plat_thresh cosm_filter = Some starts).
  { by rewrite (nth_lookup_Some _ _ _ _ Hf), (nth_lookup_Some _ _ _ _ Hrow). }
  apply cell3_nth.
  eapply (flag_rows_cell_gen cube ncols R); [|exact Hji| | |].
  - intros mask0 mj Hj Hrows Hlen.
    eapply (flag_row_spill cube ncols R); eauto; lia.
  - by apply zeros_row_lengths.
  - by rewrite list_lookup_fmap, Hf.
  - by rewrite length_map.
Qed.

(** A concrete run of [flag_cosmics_full_spill]: a plateau at the end of
    the first row of a 3 x 5 frame overruns the row by 3 pixels, of which 2
    land on the second row. *)
Lemma flag_cosmics_full_spill_witness :
  let cube := [[[0; 0; 0; 100; 100]; [0; 0; 0; 0; 0]; [0; 0; 0; 0; 0]]]%Q in
  exists mask,
    flag_cosmics cube 100 (99 # 100) (1 # 2) 2 0 2 "full" = Ok mask /\
    find_plateaus [0; 0; 0; 100; 100]%Q 100 (99 # 100) (1 # 2) 2 = Some [3%nat] /\
    nth 1 (mask_row mask 0 1) 0%Z = 1%Z /\
    mask_row mask 0 1 = [1; 1; 0; 0; 0]%Z.
Proof.
  intros cube.
  assert (Hc : cube_shape cube 3 5) by repeat constructor.
  assert (Hfind : find_plateaus [0; 0; 0; 100; 100]%Q 100 (99 # 100) (1 # 2) 2
                  = Some [3%nat]) by (vm_compute; reflexivity).
  destruct (flag_cosmics cube 100 (99 # 100) (1 # 2) 2 0 2 "full")
    as [mask|e] eqn:E; [|vm_compute in E; discriminate E].
  exists mask. split; [reflexivity|]. split; [exact Hfind|]. split.
  - apply (flag_cosmics_full_spill cube _ _ _ _ _ _ mask 3 5 0%nat 0%nat 3%nat
             [[0; 0; 0; 100; 100]; [0; 0; 0; 0; 0]; [0; 0; 0; 0; 0]]%Q
             [0; 0; 0; 100; 100]%Q [3%nat] Hc E eq_refl eq_refl Hfind
             ltac:(by left)); simpl; lia.
  - vm_compute in E. by injection E as <-.
Defined.

(** ** Relative gains on the grid *)

Lemma strictly_increasing_nth_lt l i j :
  strictly_increasing l -> (i < j)%nat -> (j < length l)%nat ->
  (nth i l 0 < nth j l 0)%Q.
Proof.
  intros Hinc Hij Hj. destruct j as [|j]; [lia|].
  apply Qle_lt_trans with (nth j l 0%Q).
  - apply strictly_increasing_nth_le; [done|lia|lia].
  - apply (Hinc j); apply lookup_nth_Q; lia.
Qed.

Lemma filter_all {A} (f : A -> bool) l :
  Forall (fun x => f x = true) l -> List.filter f l = l.
Proof. induction 1 as [|x l Hx _ IH]; simpl; [done|]. by rewrite Hx, IH. Qed.

Lemma filter_none {A} (f : A -> bool) l :
  Forall (fun x => f x = false) l -> List.filter f l = [].
Proof. induction 1 as [|x l Hx _ IH]; simpl; [done|]. by rewrite Hx, IH. Qed.

(** On an increasing axis, [np.searchsorted] finds a knot at its index. *)
Lemma searchsorted_knot xs n :
  strictly_increasing xs -> (n < length xs)%nat ->
  searchsorted xs (nth n xs 0%Q) = n.
Proof.
  intros Hinc Hn. unfold searchsorted.
  rewrite <- (take_drop n xs) at 1. rewrite List.filter_app, length_app.
  rewrite filter_all, filter_none.
  - rewrite length_take. simpl. lia.
  - apply Forall_forall. intros x Hx. apply list_elem_of_lookup_1 in Hx as (k & Hk).
    rewrite lookup_drop in Hk.
    pose proof (lookup_lt_Some _ _ _ Hk) as Hlt.
    rewrite <- (nth_lookup_Some _ _ 0%Q _ Hk).
    destruct (Qltb (nth (n + k) xs 0%Q) (nth n xs 0%Q)) eqn:E; [|done].
    apply Qltb_lt in E.
    pose proof (strictly_increasing_nth_le xs n (n + k) Hinc ltac:(lia) Hlt). lra.
  - apply Forall_forall. intros x Hx. apply list_elem_of_lookup_1 in Hx as (k & Hk).
    pose proof (lookup_lt_Some _ _ _ Hk) as Hlt. rewrite length_take in Hlt.
    rewrite lookup_take_lt in Hk by lia.
    rewrite <- (nth_lookup_Some _ _ 0%Q _ Hk).
    apply Qltb_lt. apply strictly_increasing_nth_lt; [done|lia|lia].
Qed.

(** Linear interpolation passes through its knots. *)
Lemma linear_at_knot xs ys n :
  strictly_increasing xs -> (2 <= length xs)%nat -> (n < length xs)%nat ->
  (linear_at xs ys (nth n xs 0%Q) == nth n ys 0%Q)%Q.
Proof.
  intros Hinc Hlen Hn. unfold linear_at. rewrite searchsorted_knot by done.
  destruct n as [|n].
  - replace (Nat.min (Nat.max 0 1) (length xs - 1)) with 1%nat by lia. simpl.
    pose proof (strictly_increasing_nth_lt xs 0 1 Hinc ltac:(lia) ltac:(lia)) as Hlt.
    simpl in Hlt. field. lra.
  - replace (Nat.min (Nat.max (S n) 1) (length xs - 1)) with (S n) by lia.
    replace (S n - 1)%nat with n by lia.
    pose proof (strictly_increasing_nth_lt xs n (S n) Hinc ltac:(lia) ltac:(lia)) as Hlt.
    field. lra.
Qed.

Lemma interp1d_knot xs ys below above n :
  strictly_increasing xs -> (2 <= length xs)%nat -> (n < length xs)%nat ->
  (interp1d xs ys below above (nth n xs 0%Q) == nth n ys 0%Q)%Q.
Proof.
  intros Hinc Hlen Hn. unfold interp1d.
  destruct (Qltb (nth (length xs - 1) xs 0%Q) (nth n xs 0%Q)) eqn:E1.
  { apply Qltb_lt in E1.
    pose proof (strictly_increasing_nth_le xs n (length xs - 1) Hinc
                  ltac:(lia) ltac:(lia)). lra. }
  destruct (Qltb (nth n xs 0%Q) (nth 0 xs 0%Q)) eqn:E2.
  { apply Qltb_lt in E2.
    pose proof (strictly_increasing_nth_le xs 0 n Hinc ltac:(lia) ltac:(lia)). lra. }
  by apply linear_at_knot.
Qed.

Ltac by_compare E :=
  try done;
  exfalso;
  match type of E with
  | _ = Gt => apply (proj2 (Qgt_alt _ _)) in E
  | _ = Lt => apply (proj2 (Qlt_alt _ _)) in E
  | _ = Eq => apply (proj2 (Qeq_alt _ _)) in E
  end; lra.

Lemma Qmin_l_eq x y : (x <= y)%Q -> Qmin x y = x.
Proof.
  intros Hle. unfold Qmin, GenericMinMax.gmin.
  destruct (x ?= y)%Q eqn:E; by_compare E.
Qed.

Lemma Qmin_r_eq x y : (y < x)%Q -> Qmin x y = y.
Proof.
  intros Hlt. unfold Qmin, GenericMinMax.gmin.
  destruct (x ?= y)%Q eqn:E; by_compare E.
Qed.

Lemma Qmax_l_eq x y : (y <= x)%Q -> Qmax x y = x.
Proof.
  intros Hle. unfold Qmax, GenericMinMax.gmax.
  destruct (x ?= y)%Q eqn:E; by_compare E.
Qed.

Lemma Qmax_r_eq x y : (x < y)%Q -> Qmax x y = y.
Proof.
  intros Hlt. unfold Qmax, GenericMinMax.gmax.
  destruct (x ?= y)%Q eqn:E; by_compare E.
Qed.

(** What a successful call of [get_relgains] has checked. *)
Lemma get_relgains_Ok frame em_gain table out :
  get_relgains frame em_gain table = Ok out ->
  strictly_increasing (gain_axis table) /\
  strictly_increasing (count_axis table) /\
  (2 <= length (gain_axis table))%nat /\ (2 <= length (count_axis table))%nat /\
  out = map (map (fun x =>
          let curve := relgain_curve (gain_axis table) (relgain_grid table) em_gain in
          interp1d (count_axis table) curve (nth 0 curve 0%Q)
                   (nth (length curve - 1) curve 0%Q) x)) frame.
Proof.
  intros H. unfold get_relgains in H.
  case_decide as Hshape; [discriminate|].
  destruct (any_diff_nonpos (gain_axis table)) eqn:Hg; [discriminate|].
  destruct (any_diff_nonpos (count_axis table)) eqn:Hc; [discriminate|].
  apply any_diff_nonpos_false in Hg, Hc.
  destruct (mapM np_min _) as [mins|]; [|discriminate].
  destruct (mapM np_max _) as [maxs|]; [|discriminate]. simpl in H.
  destruct (_ || _); [discriminate|].
  case_decide as Hlen; [discriminate|]. injection H as <-.
  repeat split; try done; lia.
Qed.

(** X8.  On the grid the two interpolations give back the table: when
    [em_gain] is the gain of column [gi] and a pixel holds the count of row
    [ci], a successful [get_relgains] returns for that pixel the relative
    gain tabulated at [(ci, gi)]. *)
Theorem get_relgains_exact_on_grid (frame : list (list Q)) (em_gain : Q)
    (table out : list (list Q)) (gi ci r c : nat) :
  get_relgains frame em_gain table = Ok out ->
  (gi < length (gain_axis table))%nat -> (ci < length (count_axis table))%nat ->
  em_gain = nth gi (gain_axis table) 0%Q ->
  frame !! r ≫= (fun row => row !! c) = Some (nth ci (count_axis table) 0%Q) ->
  exists v, out !! r ≫= (fun row => row !! c) = Some v /\
            (v == nth gi (nth ci (relgain_grid table) []) 0)%Q.
Proof.
  intros H Hgi Hci Hem Hx.
  apply get_relgains_Ok in H as (Hg & Hc & Hgl & Hcl & ->).
  set (curve := relgain_curve (gain_axis table) (relgain_grid table) em_gain).
  eexists. split.
  { rewrite list_lookup_fmap.
    destruct (frame !! r) as [row|]; simpl in *; [|discriminate].
    rewrite list_lookup_fmap, Hx. reflexivity. }
  simpl. fold curve. rewrite interp1d_knot by done.
  assert (Hgrid : length (relgain_grid table) = length (count_axis table)).
  { unfold relgain_grid, count_axis. by rewrite !length_map. }
  unfold curve, relgain_curve.
  assert (Hclamp : Qmax (nth 0 (gain_axis table) 0%Q)
                        (Qmin em_gain (nth (length (gain_axis table) - 1)
                                           (gain_axis table) 0%Q)) = em_gain).
  { rewrite Qmin_l_eq.
    2:{ subst em_gain. apply strictly_increasing_nth_le; [done|lia|lia]. }
    destruct gi as [|gi]; subst em_gain.
    - apply Qmax_l_eq, Qle_refl.
    - apply Qmax_r_eq. apply strictly_increasing_nth_lt; [done|lia|lia]. }
  rewrite Hclamp.
  rewrite (nth_indep _ 0%Q (linear_at (gain_axis table) [] em_gain))
    by (rewrite length_map; lia).
  rewrite (map_nth (fun row => linear_at (gain_axis table) row em_gain)). subst em_gain. by apply linear_at_knot.
Qed.

(** A concrete run of [get_relgains_exact_on_grid]: gain 10, count 200 of
    the demo table. *)
Lemma get_relgains_exact_on_grid_witness :
  exists out v,
    get_relgains [[200]%Q] 10 demo_table = Ok out /\
    out !! 0%nat ≫= (fun row => row !! 0%nat) = Some v /\ (v == 12 # 10)%Q.
Proof.
  destruct (get_relgains [[200]%Q] 10 demo_table) as [out|e] eqn:E;
    [|vm_compute in E; discriminate E].
  destruct (get_relgains_exact_on_grid [[200]%Q] 10 demo_table out 1 2 0 0 E)
    as (v & Hv & Heq); [simpl; lia|simpl; lia|reflexivity|reflexivity|].
  exists out, v. split; [reflexivity|]. split; [exact Hv|exact Heq].
Defined.

(** X9.  Gains outside the table are treated as the nearest tabulated
    gain: for [em_gain] below the first gain of the axis the call behaves,
    result or exception, as for the first gain, and above the last gain as
    for the last. *)
Theorem get_relgains_gain_clamp (frame : list (list Q)) (em_gain : Q)
    (table : list (list Q)) :
  let gain_ax := gain_axis table in
  ((em_gain < nth 0 gain_ax 0)%Q ->
   get_relgains frame em_gain table
   = get_relgains frame (nth 0 gain_ax 0%Q) table) /\
  ((nth (length gain_ax - 1) gain_ax 0 < em_gain)%Q ->
   get_relgains frame em_gain table
   = get_relgains frame (nth (length gain_ax - 1) gain_ax 0%Q) table).
Proof.
  intros gain_ax.
  assert (Hcurve :
    strictly_increasing gain_ax -> (2 <= length gain_ax)%nat ->
    ((em_gain < nth 0 gain_ax 0)%Q ->
     relgain_curve gain_ax (relgain_grid table) em_gain
     = relgain_curve gain_ax (relgain_grid table) (nth 0 gain_ax 0%Q)) /\
    ((nth (length gain_ax - 1) gain_ax 0 < em_gain)%Q ->
     relgain_curve gain_ax (relgain_grid table) em_gain
     = relgain_curve gain_ax (relgain_grid table)
                     (nth (length gain_ax - 1) gain_ax 0%Q))).
  { intros Hinc Hlen.
    pose proof (strictly_increasing_nth_lt gain_ax 0 (length gain_ax - 1) Hinc
                  ltac:(lia) ltac:(lia)) as Hlt.
    unfold relgain_curve. split; intros Hle.
    - rewrite (Qmin_l_eq em_gain) by lra. rewrite (Qmax_l_eq _ em_gain) by lra.
      rewrite Qmin_l_eq by lra. rewrite Qmax_l_eq by apply Qle_refl. done.
    - rewrite (Qmin_l_eq (nth (length gain_ax - 1) gain_ax 0%Q)) by apply Qle_refl.
      rewrite (Qmax_r_eq _ (nth (length gain_ax - 1) gain_ax 0%Q)) by done.
      rewrite Qmin_r_eq by done. by rewrite Qmax_r_eq. }
  unfold get_relgains. fold gain_ax.
  case_decide as Hshape; [done|].
  destruct (any_diff_nonpos gain_ax) eqn:Hg; [done|].
  destruct (any_diff_nonpos (count_axis table)) eqn:Hc; [done|].
  apply any_diff_nonpos_false in Hg.
  destruct (mapM np_min _) as [mins|]; [|done].
  destruct (mapM np_max _) as [maxs|]; [|done]. simpl.
  destruct (_ || _); [done|].
  case_decide as Hlen; [done|].
  destruct (Hcurve Hg ltac:(lia)) as [H1 H2].
  split; intros Hle; [by rewrite (H1 Hle)|by rewrite (H2 Hle)].
Qed.

(** A concrete run of [get_relgains_gain_clamp]: gains 1/2 and 50 on the
    demo table, whose gain axis runs from 1 to 10. *)
Lemma get_relgains_gain_clamp_witness :
  (1 # 2 < nth 0 (gain_axis demo_table) 0)%Q /\
  get_relgains [[50]%Q] (1 # 2) demo_table = get_relgains [[50]%Q] 1 demo_table /\
  get_relgains [[50]%Q] 50 demo_table = get_relgains [[50]%Q] 10 demo_table.
Proof.
  assert (Hlo : (1 # 2 < nth 0 (gain_axis demo_table) 0)%Q) by reflexivity.
  assert (Hhi : (nth (length (gain_axis demo_table) - 1) (gain_axis demo_table) 0
                 < 50)%Q) by reflexivity.
  split; [exact Hlo|]. split.
  - exact (proj1 (get_relgains_gain_clamp [[50]%Q] (1 # 2) demo_table) Hlo).
  - exact (proj2 (get_relgains_gain_clamp [[50]%Q] 50 demo_table) Hhi).
Defined.

(** ** Detector geometry *)

Lemma dict_get_elem {V} (d : list (string * V)) key v :
  dict_get d key = Got v -> (key, v) ∈ d.
Proof.
  induction d as [|[k w] d IH]; simpl; [discriminate|].
  case_decide as Hk.
  - intros [= <-]. subst k. by left.
  - intros Hd. right. by apply IH.
Qed.

Lemma detector_areas_inside obstype key a s :
  (obstype, a) ∈ detector_areas -> (key, s) ∈ sections a -> inside a s.
Proof.
  intros Ha Hs. unfold detector_areas in Ha.
  repeat (apply elem_of_cons in Ha as [[= -> ->]|Ha]);
    try (by apply elem_of_nil in Ha);
    simpl in Hs;
    repeat (apply elem_of_cons in Hs as [[= -> ->]|Hs]);
    try (by apply elem_of_nil in Hs);
    unfold inside; simpl; lia.
Qed.

Lemma py_slice_length {A} (l : list A) a b :
  length (py_slice l a b)
  = (slice_bound (length l) b - slice_bound (length l) a)%nat.
Proof.
  unfold py_slice. rewrite length_take, length_drop.
  assert (slice_bound (length l) b <= length l)%nat; [|lia].
  unfold slice_bound. destruct (Z.ltb_spec b 0); lia.
Qed.

Lemma py_slice_lookup {A} (l : list A) a b i :
  (i < slice_bound (length l) b - slice_bound (length l) a)%nat ->
  py_slice l a b !! i = l !! (slice_bound (length l) a + i)%nat.
Proof.
  intros Hi. unfold py_slice. rewrite lookup_take_lt by done. apply lookup_drop.
Qed.

Lemma slice_bound_nonneg len z :
  (0 <= z)%Z -> slice_bound len z = Nat.min (Z.to_nat z) len.
Proof. intros Hz. unfold slice_bound. destruct (Z.ltb_spec z 0); [lia|done]. Qed.

(** A region with a non-negative corner, cut out of a rectangular frame. *)
Lemma slice_section_cut {A} (frame : list (list A)) (reg : region) (R C : nat) :
  rectangular frame R C ->
  (0 <= (r0c0 reg).1)%Z -> (0 <= (r0c0 reg).2)%Z ->
  (0 <= rows reg)%Z -> (0 <= cols reg)%Z ->
  let r0 := Z.to_nat (r0c0 reg).1 in
  let c0 := Z.to_nat (r0c0 reg).2 in
  let nr := (Nat.min (r0 + Z.to_nat (rows reg)) R - r0)%nat in
  let nc := (Nat.min (c0 + Z.to_nat (cols reg)) C - c0)%nat in
  (nr = 0%nat \/ nc = 0%nat ->
   slice_section frame reg = Raise (PyException "Corners invalid")) /\
  ((0 < nr)%nat -> (0 < nc)%nat ->
   exists section_,
     slice_section frame reg = Ok section_ /\
     rectangular section_ nr nc /\
     forall r c, (r < nr)%nat -> (c < nc)%nat ->
       cell section_ r c = cell frame (r0 + r) (c0 + c)).
Proof.
  intros [HR HC] Hr0 Hc0 Hrows Hcols r0 c0 nr nc.
  unfold slice_section, slice2.
  set (rs := py_slice frame (r0c0 reg).1 ((r0c0 reg).1 + rows reg)).
  assert (Hlen : length rs = nr).
  { unfold rs. rewrite py_slice_length, !slice_bound_nonneg by lia.
    unfold nr, r0. rewrite HR. lia. }
  assert (Hrs : forall r, (r < nr)%nat -> rs !! r = frame !! (r0 + r)%nat).
  { intros r Hr. unfold rs. rewrite py_slice_lookup.
    - f_equal. rewrite slice_bound_nonneg by lia. unfold nr, r0 in *. lia.
    - rewrite !slice_bound_nonneg by lia. unfold nr, r0 in *. lia. }
  assert (Hrow : forall row, row ∈ rs -> length row = C).
  { intros row Hrow. apply list_elem_of_lookup_1 in Hrow as (r & Hrow).
    pose proof (lookup_lt_Some _ _ _ Hrow) as Hlt. rewrite Hlen in Hlt.
    rewrite Hrs in Hrow by done. rewrite Forall_forall in HC. apply HC.
    by eapply list_elem_of_lookup_2. }
  assert (Hcut : forall row, row ∈ rs ->
            length (py_slice row (r0c0 reg).2 ((r0c0 reg).2 + cols reg)) = nc).
  { intros row Hin. rewrite py_slice_length, (Hrow row Hin).
    rewrite !slice_bound_nonneg by lia. unfold nc, c0. lia. }
  rewrite length_map, Hlen. split.
  - intros Hz. rewrite decide_True; [done|].
    destruct Hz as [->| ->]; [done|].
    destruct rs as [|row rs']; simpl; [lia|].
    rewrite (Hcut row) by (by left). lia.
  - intros Hnr Hnc. eexists. rewrite decide_False.
    2:{ destruct rs as [|row rs']; simpl in *; [lia|].
        rewrite (Hcut row) by (by left). lia. }
    split; [reflexivity|]. split; [split|].
    + by rewrite length_map.
    + apply Forall_fmap, Forall_forall. intros row Hin. simpl. by apply Hcut.
    + intros r c Hr Hc. unfold cell. rewrite list_lookup_fmap, Hrs by done.
      destruct (frame !! (r0 + r)%nat) as [row|] eqn:Hfr; [|done]. simpl.
      assert (HrowC : length row = C).
      { rewrite Forall_forall in HC. apply HC. by eapply list_elem_of_lookup_2. }
      rewrite py_slice_lookup.
      * f_equal. rewrite slice_bound_nonneg by lia. unfold nc, c0 in *. lia.
      * rewrite !slice_bound_nonneg by lia. unfold nc, c0 in *. lia.
Qed.

(** X10.  [slice_section] on a frame of R rows and C columns, for a
    region with a non-negative corner and size: the region is cut to the
    frame without notice, each returned pixel is the frame's pixel at the
    region's offset, and the exception is raised only when nothing of the
    region lies inside the frame. *)
Theorem slice_section_overlap {A} (frame : list (list A)) (reg : region) (R C : nat) :
  rectangular frame R C ->
  (0 <= (r0c0 reg).1)%Z -> (0 <= (r0c0 reg).2)%Z ->
  (0 <= rows reg)%Z -> (0 <= cols reg)%Z ->
  let r0 := Z.to_nat (r0c0 reg).1 in
  let c0 := Z.to_nat (r0c0 reg).2 in
  let nr := (Nat.min (r0 + Z.to_nat (rows reg)) R - r0)%nat in
  let nc := (Nat.min (c0 + Z.to_nat (cols reg)) C - c0)%nat in
  (nr = 0%nat \/ nc = 0%nat ->
   slice_section frame reg = Raise (PyException "Corners invalid")) /\
  ((0 < nr)%nat -> (0 < nc)%nat ->
   exists section_,
     slice_section frame reg = Ok section_ /\
     rectangular section_ nr nc /\
     forall r c, (r < nr)%nat -> (c < nc)%nat ->
       cell section_ r c = cell frame (r0 + r) (c0 + c)).
Proof. apply slice_section_cut. Qed.

(** A concrete run of [slice_section_overlap]: a 2 x 2 region at (1, 1)
    of a 2 x 3 frame is cut to its one row inside the frame. *)
Lemma slice_section_overlap_witness :
  let frame := [[1; 2; 3]; [4; 5; 6]]%Z in
  rectangular frame 2 3 /\
  slice_section frame (MkRegion 2 2 (1, 1)%Z) = Ok [[5; 6]%Z] /\
  slice_section frame (MkRegion 2 2 (2, 1)%Z) = Raise (PyException "Corners invalid").
Proof.
  intros frame.
  assert (Hrect : rectangular frame 2 3) by (split; [done|repeat constructor]).
  split; [exact Hrect|]. split; [reflexivity|].
  apply (slice_section_overlap frame (MkRegion 2 2 (2, 1)%Z) 2 3 Hrect);
    simpl; lia.
Defined.

(** X11.  The built-in geometry is consistent with its own frame sizes:
    for every observation type and section key of [detector_areas], a frame
    of the declared size is sliced whole, [slice_section] returning exactly
    'rows' by 'cols' pixels and never raising. *)
Theorem slice_section_builtin {A} (frame : list (list A)) (obstype key : string)
    (a : areas) (s : section) :
  dict_get detector_areas obstype = Got a ->
  dict_get (sections a) key = Got s ->
  rectangular frame (Z.to_nat (frame_rows a)) (Z.to_nat (frame_cols a)) ->
  exists section_,
    slice_section_key frame obstype key None = Got (Ok section_) /\
    rectangular section_ (Z.to_nat (rows (sec_region s)))
                         (Z.to_nat (cols (sec_region s))) /\
    forall r c, (r < Z.to_nat (rows (sec_region s)))%nat ->
                (c < Z.to_nat (cols (sec_region s)))%nat ->
      cell section_ r c = cell frame (Z.to_nat (r0c0 (sec_region s)).1 + r)
                                     (Z.to_nat (r0c0 (sec_region s)).2 + c).
Proof.
  intros Ha Hs Hrect. unfold slice_section_key, regions_or_default.
  rewrite Ha. cbn [keyed_bind]. rewrite Hs. cbn [keyed_bind].
  pose proof (detector_areas_inside _ _ _ _ (dict_get_elem _ _ _ Ha)
                (dict_get_elem _ _ _ Hs)) as (H1 & H2 & H3 & H4 & H5 & H6).
  destruct (slice_section_cut frame (sec_region s) _ _ Hrect
              H1 H2 ltac:(lia) ltac:(lia)) as [_ Hok].
  replace (Nat.min _ _ - _)%nat with (Z.to_nat (rows (sec_region s))) in Hok by lia.
  replace (Nat.min _ _ - _)%nat with (Z.to_nat (cols (sec_region s))) in Hok by lia.
  destruct (Hok ltac:(lia) ltac:(lia)) as (section_ & Hrun & Hshape & Hcell).
  exists section_. rewrite Hrun. done.
Qed.

(** A concrete run of [slice_section_builtin]: the image area of a
    science frame. *)
Lemma slice_section_builtin_witness :
  exists section_,
    slice_section_key (replicate 1200 (replicate 2200 0%Z)) "SCI" "image" None
      = Got (Ok section_) /\
    rectangular section_ 1024 1024.
Proof.
  assert (Hrect : rectangular (replicate 1200 (replicate 2200 0%Z))
                              (Z.to_nat 1200) (Z.to_nat 2200)).
  { split; [apply length_replicate|]. apply Forall_replicate, length_replicate. }
  destruct (slice_section_builtin (replicate 1200 (replicate 2200 0%Z))
              "SCI" "image" _ _ eq_refl eq_refl Hrect) as (s & H1 & H2 & _).
  exists s. split; [exact H1|exact H2].
Defined.

Lemma slice_section_Ok {A} (frame : list (list A)) reg section_ :
  slice_section frame reg = Ok section_ ->
  section_ = slice2 frame (r0c0 reg).1 ((r0c0 reg).1 + rows reg)
                    (r0c0 reg).2 ((r0c0 reg).2 + cols reg).
Proof. unfold slice_section. case_decide; [discriminate|]. by intros [= <-]. Qed.

(** X12.  [imaging_slice] with the built-in geometry.  For 'SCI' and
    'ENG' frames of the declared size it returns the 1037 rows from row 0
    and the 1056 columns from column 1088.  For 'ENG_EM' and 'ENG_CONV' the
    computed corner row is -9, which the slice counts from the end of the
    frame, and the function returns an array of no rows. *)
Theorem imaging_slice_builtin {A} (frame : list (list A)) (obstype : string) (R : nat) :
  ((obstype = "SCI" /\ R = 1200%nat \/ obstype = "ENG" /\ R = 2200%nat) ->
   rectangular frame R 2200 ->
   exists sl, imaging_slice obstype frame None = Got sl /\
              rectangular sl 1037 1056 /\
              forall r c, (r < 1037)%nat -> (c < 1056)%nat ->
                cell sl r c = cell frame r (1088 + c)) /\
  ((obstype = "ENG_EM" \/ obstype = "ENG_CONV") ->
   rectangular frame 2200 2200 ->
   imaging_area_geom obstype None
     = Got (2070, 1056, (-9, if decide (obstype = "ENG_EM") then 1088 else 48))%Z /\
   imaging_slice obstype frame None = Got []).
Proof.
  split.
  - intros Hobs Hrect.
    assert (Hgeom : imaging_area_geom obstype None = Got (1037, 1056, (0, 1088))%Z).
    { destruct Hobs as [[-> _]|[-> _]]; reflexivity. }
    unfold imaging_slice. rewrite Hgeom. cbn [keyed_bind fst snd].
    assert (HR : (1037 <= R)%nat) by (destruct Hobs as [[_ ->]|[_ ->]]; lia).
    destruct (slice_section_cut frame (MkRegion 1037 1056 (0, 1088)%Z) R 2200
                Hrect) as [_ Hok]; cbn [rows cols r0c0 fst snd]; try lia.
    cbn [rows cols r0c0 fst snd] in Hok.
    replace (Nat.min _ R - _)%nat with 1037%nat in Hok by lia.
    replace (Nat.min _ 2200 - _)%nat with 1056%nat in Hok by lia.
    destruct (Hok ltac:(lia) ltac:(lia)) as (sl & Hrun & Hshape & Hcell).
    apply slice_section_Ok in Hrun. cbn [rows cols r0c0 fst snd] in Hrun.
    exists sl. split; [by rewrite Hrun|]. split; [done|].
    intros r c Hr Hc. rewrite (Hcell r c Hr Hc). f_equal; lia.
  - intros Hobs [HR HC].
    assert (Hgeom : imaging_area_geom obstype None
              = Got (2070, 1056,
                     (-9, if decide (obstype = "ENG_EM") then 1088 else 48))%Z).
    { destruct Hobs as [-> | ->]; reflexivity. }
    split; [exact Hgeom|].
    unfold imaging_slice. rewrite Hgeom. cbn [keyed_bind fst snd].
    unfold slice2. f_equal.
    assert (Hnil : py_slice frame (-9) (-9 + 2070) = []).
    { apply length_zero_iff_nil. rewrite py_slice_length, HR.
      unfold slice_bound. simpl. lia. }
    by rewrite Hnil.
Qed.

(** A concrete run of [imaging_slice_builtin]: an 'ENG_EM' frame. *)
Lemma imaging_slice_builtin_witness :
  rectangular (replicate 2200 (replicate 2200 0%Z)) 2200 2200 /\
  imaging_slice "ENG_EM" (replicate 2200 (replicate 2200 0%Z)) None = Got [].
Proof.
  assert (Hrect : rectangular (replicate 2200 (replicate 2200 0%Z)) 2200 2200).
  { split; [apply length_replicate|]. apply Forall_replicate, length_replicate. }
  split; [exact Hrect|].
  exact (proj2 (proj2 (imaging_slice_builtin (replicate 2200 (replicate 2200 0%Z))
                         "ENG_EM" 2200) (or_introl eq_refl) Hrect)).
Defined.

(** ** Bias subtraction: pedestal and errors *)

Lemma Qle_bool_shift k x y : Qle_bool (k + x) (k + y) = Qle_bool x y.
Proof.
  destruct (Qle_bool x y) eqn:E.
  - apply Qle_bool_iff. apply Qle_bool_iff in E. by apply Qplus_le_r.
  - apply not_true_iff_false. apply not_true_iff_false in E.
    rewrite Qle_bool_iff in *. intros Hle. apply E. by apply Qplus_le_r in Hle.
Qed.

Lemma insert_sorted_shift k x l :
  insert_sorted (k + x) (map (Qplus k) l) = map (Qplus k) (insert_sorted x l).
Proof.
  induction l as [|y l IH]; simpl; [done|].
  rewrite Qle_bool_shift. destruct (Qle_bool x y); simpl; [done|]. by rewrite IH.
Qed.

Lemma np_sort_shift k l : np_sort (map (Qplus k) l) = map (Qplus k) (np_sort l).
Proof.
  unfold np_sort. induction l as [|x l IH]; simpl; [done|].
  by rewrite IH, insert_sorted_shift.
Qed.

Lemma nth_shift k l i :
  (i < length l)%nat -> nth i (map (Qplus k) l) 0%Q = (k + nth i l 0)%Q.
Proof.
  intros Hi. rewrite (nth_indep _ 0%Q (k + 0)%Q) by (by rewrite length_map).
  apply (map_nth (Qplus k)).
Qed.

(** The median of a row moves with a pedestal added to the row. *)
Lemma np_median_shift k l m :
  np_median l = Some m ->
  exists m', np_median (map (Qplus k) l) = Some m' /\ (m' == k + m)%Q.
Proof.
  unfold np_median. rewrite length_map, np_sort_shift.
  case_decide as Hn; [discriminate|].
  assert (Hs : length (np_sort l) = length l) by apply np_sort_length.
  assert (Hhalf : (length l / 2 < length l)%nat) by (apply Nat.div_lt; lia).
  destruct (Nat.even (length l)); intros [= <-]; eexists; (split; [reflexivity|]).
  - rewrite !nth_shift by lia.
    change (Nat.divmod (length l) 1 0 1).1 with (length l / 2)%nat.
    generalize (nth (length l / 2 - 1) (np_sort l) 0%Q)
               (nth (length l / 2) (np_sort l) 0%Q).
    intros a b. field.
  - rewrite nth_shift by lia.
    change (Nat.divmod (length l) 1 0 1).1 with (length l / 2)%nat. reflexivity.
Qed.

Lemma reliable_prescan_shift meta k row :
  reliable_prescan meta (map (Qplus k) row) = map (Qplus k) (reliable_prescan meta row).
Proof. unfold reliable_prescan. by rewrite <- fmap_drop, <- fmap_take. Qed.

Lemma image_pixels_shift meta k row :
  image_pixels meta (map (Qplus k) row) = map (Qplus k) (image_pixels meta row).
Proof. unfold image_pixels. by rewrite <- fmap_drop, <- fmap_take. Qed.

(** The two frames of a pedestal, row by row. *)
Lemma prescan_biassub_frame_shifted `{Floating} (frame : list (list Q))
    (obstype : string) (meta : geometry) (bias_offset k : Q) (R C : nat) :
  obstype = "SCI" \/ obstype = "ENG" ->
  rectangular frame R C -> fits meta R C ->
  exists out out',
    prescan_biassub_frame frame obstype meta bias_offset false = Ok out /\
    prescan_biassub_frame (map (map (Qplus k)) frame) obstype meta bias_offset false
      = Ok out' /\
    length (image_bias_corrected out) = i_rows meta /\
    length (image_bias_corrected out') = i_rows meta /\
    forall r, (r < i_rows meta)%nat ->
      exists row med med',
        (med' == k + med)%Q /\
        bias out !! r = Some (med - bias_offset)%Q /\
        bias out' !! r = Some (med' - bias_offset)%Q /\
        image_bias_corrected out !! r
          = Some (map (fun x => x - (med - bias_offset))%Q (image_pixels meta row)) /\
        image_bias_corrected out' !! r
          = Some (map (fun x => x - (med' - bias_offset))%Q
                      (map (Qplus k) (image_pixels meta row))).
Proof.
  intros Hobs Hrect Hfit.
  assert (Hrect' : rectangular (map (map (Qplus k)) frame) R C).
  { destruct Hrect as [HR HC]. split; [by rewrite length_map|].
    apply Forall_fmap. eapply Forall_impl; [exact HC|].
    intros row Hrow. simpl. by rewrite length_map. }
  destruct (prescan_biassub_frame_rows frame obstype meta bias_offset R C
              Hobs Hrect Hfit) as (out & Hrun & Hlen & Hrows).
  destruct (prescan_biassub_frame_rows (map (map (Qplus k)) frame) obstype meta
              bias_offset R C Hobs Hrect' Hfit) as (out' & Hrun' & Hlen' & Hrows').
  exists out, out'. split; [done|]. split; [done|]. split; [done|]. split; [done|].
  intros r Hr.
  destruct (Hrows r Hr) as (row & med & sd & Hrow & Hmed & _ & Hb & Hi & _).
  destruct (Hrows' r Hr) as (row' & med' & sd' & Hrow' & Hmed' & _ & Hb' & Hi' & _).
  rewrite list_lookup_fmap, Hrow in Hrow'. injection Hrow' as <-.
  rewrite reliable_prescan_shift in Hmed'.
  destruct (np_median_shift k _ _ Hmed) as (m' & Hm' & Heq).
  rewrite Hm' in Hmed'. injection Hmed' as <-.
  rewrite image_pixels_shift in Hi'.
  exists row, med, m'. done.
Qed.

(** X13.  Bias subtraction removes a pedestal: adding one constant [k]
    to every pixel of a frame (prescan and image alike) leaves the
    bias-corrected image as it was, and raises the bias of each image row
    by [k]. *)
Theorem prescan_biassub_frame_pedestal `{Floating} (frame : list (list Q))
    (obstype : string) (meta : geometry) (bias_offset k : Q) (R C : nat) :
  obstype = "SCI" \/ obstype = "ENG" ->
  rectangular frame R C -> fits meta R C ->
  exists out out',
    prescan_biassub_frame frame obstype meta bias_offset false = Ok out /\
    prescan_biassub_frame (map (map (Qplus k)) frame) obstype meta bias_offset false
      = Ok out' /\
    Forall2 (Forall2 Qeq) (image_bias_corrected out') (image_bias_corrected out) /\
    forall r, (r < i_rows meta)%nat ->
      exists b b', bias out !! r = Some b /\ bias out' !! r = Some b' /\
                   (b' == k + b)%Q.
Proof.
  intros Hobs Hrect Hfit.
  destruct (prescan_biassub_frame_shifted frame obstype meta bias_offset k R C
              Hobs Hrect Hfit) as (out & out' & Hrun & Hrun' & Hlen & Hlen' & Hrows).
  exists out, out'. split; [done|]. split; [done|]. split.
  - apply Forall2_same_length_lookup_2; [lia|].
    intros r x' x Hx' Hx.
    pose proof (lookup_lt_Some _ _ _ Hx) as Hr. rewrite Hlen in Hr.
    destruct (Hrows r Hr) as (row & med & med' & Heq & _ & _ & Hi & Hi').
    rewrite Hi in Hx. rewrite Hi' in Hx'. injection Hx as <-. injection Hx' as <-.
    rewrite <- list_fmap_compose.
    apply Forall2_fmap, Forall_Forall2_diag, Forall_forall.
    intros x _. simpl. rewrite Heq. ring.
  - intros r Hr.
    destruct (Hrows r Hr) as (row & med & med' & Heq & Hb & Hb' & _).
    eexists _, _. split; [exact Hb|]. split; [exact Hb'|]. rewrite Heq. ring.
Qed.

(** A concrete run of [prescan_biassub_frame_pedestal]: the demo frame
    with a pedestal of 5. *)
Lemma prescan_biassub_frame_pedestal_witness :
  rectangular (demo_frame 30) 3 6 /\ fits demo_geometry 3 6 /\
  exists out out',
    @prescan_biassub_frame floor_sqrt (demo_frame 30) "SCI" demo_geometry 0 false
      = Ok out /\
    @prescan_biassub_frame floor_sqrt (map (map (Qplus 5)) (demo_frame 30)) "SCI"
       demo_geometry 0 false = Ok out' /\
    Forall2 (Forall2 Qeq) (image_bias_corrected out') (image_bias_corrected out).
Proof.
  assert (Hrect : rectangular (demo_frame 30) 3 6)
    by (split; [done|repeat constructor]).
  assert (Hfit : fits demo_geometry 3 6).
  { unfold fits, demo_geometry, i_r0, i_c0, i_rows, i_cols, p_r0, p_c0, p_rows,
      p_cols, c_start, c_end. simpl. lia. }
  split; [exact Hrect|]. split; [exact Hfit|].
  destruct (@prescan_biassub_frame_pedestal floor_sqrt (demo_frame 30) "SCI"
              demo_geometry 0 5 3 6 (or_introl eq_refl) Hrect Hfit)
    as (out & out' & H1 & H2 & H3 & _).
  exists out, out'. split; [exact H1|]. split; [exact H2|exact H3].
Defined.

(** X14.  The order of the checks of the bias subtraction of one frame:
    an observation type other than 'SCI' and 'ENG' is refused before the
    frame is looked at, whatever the frame and the geometry; and for 'SCI'
    and 'ENG' a frame that holds no pixel of the image region (it has too
    few rows or columns to reach the region's corner) is refused with
    ReadMetadataException. *)
Theorem prescan_biassub_frame_refusals `{Floating} (frame : list (list Q))
    (obstype : string) (meta : geometry) (bias_offset : Q)
    (return_full_frame : bool) (R C : nat) :
  (~ (obstype = "SCI" \/ obstype = "ENG") ->
   prescan_biassub_frame frame obstype meta bias_offset return_full_frame
   = Raise (PyException "Observation type of frame is not 'SCI' or 'ENG'")) /\
  (obstype = "SCI" \/ obstype = "ENG" ->
   rectangular frame R C ->
   (0 <= (r0c0 (image meta)).1)%Z -> (0 <= (r0c0 (image meta)).2)%Z ->
   (0 <= rows (image meta))%Z -> (0 <= cols (image meta))%Z ->
   (R <= i_r0 meta)%nat \/ (C <= i_c0 meta)%nat ->
   prescan_biassub_frame frame obstype meta bias_offset return_full_frame
   = Raise (ReadMetadataException "Frame size inconsistent with metadata")).
Proof.
  unfold prescan_biassub_frame. split.
  - intros Hobs. by rewrite bool_decide_eq_false_2.
  - intros Hobs Hrect Hr0 Hc0 Hrows Hcols Hout.
    rewrite bool_decide_eq_true_2 by done. simpl.
    destruct (slice_section_cut frame (image meta) R C Hrect Hr0 Hc0 Hrows Hcols)
      as [Hraise _].
    rewrite Hraise; [done|]. unfold i_r0, i_c0 in Hout. lia.
Qed.

(** A concrete run of [prescan_biassub_frame_refusals]: an 'ENG_EM'
    frame, and a science frame of one row for the demo geometry. *)
Lemma prescan_biassub_frame_refusals_witness :
  @prescan_biassub_frame floor_sqrt (demo_frame 30) "ENG_EM" demo_geometry 0 false
    = Raise (PyException "Observation type of frame is not 'SCI' or 'ENG'") /\
  @prescan_biassub_frame floor_sqrt [[10; 10; 10; 10; 7; 7]%Q] "SCI" demo_geometry 0 false
    = Raise (ReadMetadataException "Frame size inconsistent with metadata").
Proof.
  split.
  - apply (@prescan_biassub_frame_refusals floor_sqrt (demo_frame 30) "ENG_EM"
             demo_geometry 0 false 3 6).
    intros [Hc|Hc]; discriminate Hc.
  - apply (@prescan_biassub_frame_refusals floor_sqrt [[10; 10; 10; 10; 7; 7]%Q] "SCI"
             demo_geometry 0 false 1 6); simpl; try lia.
    + by left.
    + split; [done|repeat constructor].
    + left. vm_compute. lia.
Defined.

(** ** Image construction *)

Lemma checked_inv what d o h h' r :
  checked_or_zeros what d o h = (h', r) ->
  same_objects h h' /\
  match r with
  | Ok b =>
      shape b = shape d /\
      match o with
      | Some a => b = a /\ h' = h
      | None => b = NdArray (length (bufs h)) 0 (shape d) /\
                bufs h' = bufs h ++ [replicate (size_of (shape d)) 0%Q]
      end
  | Raise e => h' = h /\ e = ValueError what /\
               exists a, o = Some a /\ shape d <> shape a
  end.
Proof.
  unfold checked_or_zeros. destruct o as [a|].
  - case_decide as Hs.
    + intros [= <- <-]. split; [done|]. split; [done|]. split; [done|]. by exists a.
    + intros [= <- <-]. split; [done|]. split; [|done].
      destruct (decide (shape d = shape a)) as [->|Hne]; [done|]. by destruct Hs.
  - unfold np_zeros. intros Ha. apply alloc_inv in Ha as (-> & Hb & Hs). done.
Qed.

Lemma contents_fresh (bs rest : list (list pix)) s c h :
  bufs h = bs ++ c :: rest -> length c = size_of s ->
  contents (NdArray (length bs) 0 s) h = Some c.
Proof.
  intros Hb Hc. unfold contents. simpl. rewrite Hb.
  rewrite lookup_app_r by lia. rewrite Nat.sub_diag. simpl.
  rewrite decide_True by lia. rewrite drop_0, <- Hc. by rewrite take_ge.
Qed.

Lemma hdr_set_Raise l k v h h' e :
  hdr_set l k v h = (h', Raise e) -> e = BadReference.
Proof.
  unfold hdr_set, py_bind, get_hdr, lift_opt.
  destruct (hdrs h !! l); simpl; by intros [= _ <-].
Qed.

(** X15.  [Image.__init__] on raw data rejects cleanly: whenever it
    raises a ValueError, no header, no Image object and not the clock has
    changed (the extension header passed in is not stamped), and the cause
    is a missing header or an [err] or [dq] whose shape differs from that of
    the data. *)
Theorem Image_init_rejects_cleanly `{World} (d : ndarray) (pri ext : option loc)
    (e q : option ndarray) (h h' : heap) (msg : string) :
  Image_init d pri ext e q h = (h', Raise (ValueError msg)) ->
  same_objects h h' /\
  ((pri = None \/ ext = None) \/
   (exists a, e = Some a /\ shape d <> shape a) \/
   (exists a, q = Some a /\ shape d <> shape a)).
Proof.
  unfold Image_init. destruct pri as [p|], ext as [x|];
    try (intros [= <- _]; split; [done|]; left; auto).
  intros H0.
  apply bind_Raise in H0 as [H0|(h1 & e' & He & H0)].
  { apply checked_inv in H0 as (Hs & _ & _ & Ha). split; [done|]. right. by left. }
  apply checked_inv in He as (Hs1 & _).
  apply bind_Raise in H0 as [H0|(h2 & q' & Hq & H0)].
  { apply checked_inv in H0 as (_ & -> & _ & Ha). split; [done|]. right. by right. }
  exfalso.
  apply bind_Raise in H0 as [H0|(h3 & [] & _ & H0)].
  { by apply hdr_set_Raise in H0. }
  apply bind_Raise in H0 as [H0|(h4 & t & _ & H0)]; [discriminate|].
  apply bind_Raise in H0 as [H0|(h5 & [] & _ & H0)]; [|discriminate].
  by apply hdr_set_Raise in H0.
Qed.

(** A concrete run of [Image_init_rejects_cleanly]: an [err] of shape
    (2,) for the 1 x 2 data of the first frame of [two_frame_heap]. *)
Lemma Image_init_rejects_cleanly_witness :
  exists h' msg,
    @Image_init demo_world (NdArray 0 0 [1; 2]%nat) (Some 0%nat) (Some 1%nat)
       (Some (NdArray 1 0 [2%nat])) None two_frame_heap = (h', Raise (ValueError msg)) /\
    hdrs h' = hdrs two_frame_heap.
Proof.
  destruct (@Image_init demo_world (NdArray 0 0 [1; 2]%nat) (Some 0%nat) (Some 1%nat)
              (Some (NdArray 1 0 [2%nat])) None two_frame_heap) as [h' r] eqn:E.
  assert (Hr : exists msg, r = Raise (ValueError msg))
    by (vm_compute in E; injection E as _ <-; eexists; reflexivity).
  destruct Hr as [msg ->]. exists h', msg. split; [reflexivity|].
  exact (proj1 (proj1 (@Image_init_rejects_cleanly demo_world _ _ _ _ _ _ _ _ E))).
Defined.

(** X16.  A successful [Image.__init__] on raw data: the new Image is a
    new object (no existing one is changed), it holds the data array passed
    in, an [err] and a [dq] of the shape of the data (the arrays passed in,
    or zero-filled arrays in buffers of their own), an empty filename and
    the directory ".". *)
Theorem Image_init_shapes `{World} (d : ndarray) (pri ext : option loc)
    (e q : option ndarray) (h h' : heap) (new : loc) :
  Image_init d pri ext e q h = (h', Ok new) ->
  new = length (imgs h) /\
  (forall l, (l < length (imgs h))%nat -> imgs h' !! l = imgs h !! l) /\
  exists im,
    imgs h' !! new = Some im /\
    data im = d /\ shape (err im) = shape d /\ shape (dq im) = shape d /\
    Some (pri_hdr im) = pri /\ Some (ext_hdr im) = ext /\
    filename im = "" /\ filedir im = "." /\
    match e with
    | Some a => err im = a
    | None => (length (bufs h) <= buf (err im))%nat /\
              contents (err im) h' = Some (replicate (size_of (shape d)) 0%Q)
    end /\
    match q with
    | Some a => dq im = a
    | None => (length (bufs h) <= buf (dq im))%nat /\
              contents (dq im) h' = Some (replicate (size_of (shape d)) 0%Q)
    end.
Proof.
  unfold Image_init. destruct pri as [p|], ext as [x|]; try discriminate.
  intros H0.
  apply bind_Ok in H0 as (h1 & e' & He & H0).
  apply checked_inv in He as ((Hh1 & Hi1 & Ht1) & Se & He).
  apply bind_Ok in H0 as (h2 & q' & Hq & H0).
  apply checked_inv in Hq as ((Hh2 & Hi2 & Ht2) & Sq & Hq).
  apply bind_Ok in H0 as (h3 & [] & Hs1 & H0).
  apply hdr_set_inv in Hs1 as (hx & Hhx & ->).
  apply bind_Ok in H0 as (h4 & t & Hn & H0). injection Hn as <- <-.
  apply bind_Ok in H0 as (h5 & [] & Hs2 & H0).
  apply hdr_set_inv in Hs2 as (hx' & Hhx' & ->).
  injection H0 as <- <-. simpl.
  rewrite Hi2, Hi1. split; [done|]. split.
  { intros l Hl. by rewrite lookup_app_l. }
  eexists. split.
  { rewrite lookup_app_r by lia. rewrite Nat.sub_diag. reflexivity. }
  simpl. repeat (split; [done|]).
  assert (Hz : length (replicate (size_of (shape d)) 0%Q) = size_of (shape d))
    by apply length_replicate.
  split.
  - destruct e as [a|]; [by destruct He|]. destruct He as [-> Hb1].
    split; [simpl; lia|].
    assert (Hb2 : exists rest, bufs h2 = bufs h ++ replicate (size_of (shape d)) 0%Q
                                         :: rest).
    { destruct q as [a|].
      - destruct Hq as [_ ->]. exists []. by rewrite Hb1.
      - destruct Hq as [_ ->]. rewrite Hb1, <- app_assoc. by eexists. }
    destruct Hb2 as [rest Hb2].
    by apply (contents_fresh (bufs h) rest).
  - destruct q as [a|]; [by destruct Hq|]. destruct Hq as [-> Hb2].
    assert (Hle : (length (bufs h) <= length (bufs h1))%nat).
    { destruct e as [a|]; [by destruct He as [_ ->]|].
      destruct He as [_ ->]. rewrite length_app. lia. }
    split; [simpl; lia|].
    apply (contents_fresh (bufs h1) []); [by rewrite Hb2|done].
Qed.

(** A concrete run of [Image_init_shapes]: a frame made from the data of
    the first frame of [two_frame_heap] alone. *)
Lemma Image_init_shapes_witness :
  exists h' new im,
    @Image_init demo_world (NdArray 0 0 [1; 2]%nat) (Some 0%nat) (Some 1%nat)
       None None two_frame_heap = (h', Ok new) /\
    imgs h' !! new = Some im /\
    shape (err im) = [1; 2]%nat /\
    contents (dq im) h' = Some [0; 0]%Q.
Proof.
  destruct (@Image_init demo_world (NdArray 0 0 [1; 2]%nat) (Some 0%nat) (Some 1%nat)
              None None two_frame_heap) as [h' r] eqn:E.
  assert (Hr : exists new, r = Ok new)
    by (vm_compute in E; injection E as _ <-; eexists; reflexivity).
  destruct Hr as [new ->].
  destruct (@Image_init_shapes demo_world _ _ _ _ _ _ _ _ E)
    as (_ & _ & im & Him & _ & He & _ & _ & _ & _ & _ & _ & _ & Hq).
  exists h', new, im. split; [reflexivity|]. split; [exact Him|].
  split; [exact He|exact Hq].
Defined.

(** ** Image.copy: the arrays *)

Lemma contents_app a h h' l :
  (buf a < length (bufs h))%nat -> bufs h' = bufs h ++ l ->
  contents a h' = contents a h.
Proof.
  intros Hlt Hb. unfold contents. rewrite Hb. by rewrite lookup_app_l.
Qed.

Lemma contents_valid a h c : contents a h = Some c -> (buf a < length (bufs h))%nat.
Proof.
  unfold contents. destruct (bufs h !! buf a) as [b|] eqn:E; [|discriminate].
  intros _. by eapply lookup_lt_Some.
Qed.

Lemma maybe_copy_inv (copy_data : bool) a h h' b :
  (if copy_data then np_copy a else py_ret a) h = (h', Ok b) ->
  same_objects h h' /\
  if copy_data
  then exists c, contents a h = Some c /\ bufs h' = bufs h ++ [c] /\
                 b = NdArray (length (bufs h)) 0 (shape a)
  else b = a /\ h' = h.
Proof.
  destruct copy_data.
  - intros H. apply bind_Ok in H as (h1 & c & Hr & H).
    apply read_inv in Hr as [-> Hc]. apply alloc_inv in H as ([= ->] & Hb & Hs).
    split; [done|]. by exists c.
  - intros [= <- <-]. done.
Qed.

(** X17.  What [Image.copy] does with the arrays.  The copy is a new
    Image object with the filename and directory of the source, and the
    source keeps its arrays.  With [copy_data=False] the copy holds the very
    arrays of the source (the same memory), and no buffer is allocated;
    with [copy_data=True] its three arrays live in three buffers allocated
    by the call, hold the pixel values of the source's arrays, and no
    buffer that existed before is changed. *)
Theorem Image_copy_arrays `{World} (self : loc) (copy_data : bool)
    (h h' : heap) (new : loc) (im : Image) :
  imgs h !! self = Some im ->
  is_Some (contents (data im) h) -> is_Some (contents (err im) h) ->
  is_Some (contents (dq im) h) -> is_Some (hdrs h !! ext_hdr im) ->
  Image_copy self copy_data h = (h', Ok new) ->
  new = length (imgs h) /\ imgs h' !! self = Some im /\
  exists im',
    imgs h' !! new = Some im' /\
    filename im' = filename im /\ filedir im' = filedir im /\
    if copy_data
    then (length (bufs h) <= buf (data im'))%nat /\
         (length (bufs h) <= buf (err im'))%nat /\
         (length (bufs h) <= buf (dq im'))%nat /\
         buf (data im') <> buf (err im') /\ buf (data im') <> buf (dq im') /\
         buf (err im') <> buf (dq im') /\
         contents (data im') h' = contents (data im) h /\
         contents (err im') h' = contents (err im) h /\
         contents (dq im') h' = contents (dq im) h /\
         (forall b, (b < length (bufs h))%nat -> bufs h' !! b = bufs h !! b)
    else data im' = data im /\ err im' = err im /\ dq im' = dq im /\
         bufs h' = bufs h.
Proof.
  intros Him [cd Hcd] [ce Hce] [cq Hcq] Hx H0. unfold Image_copy in H0.
  apply bind_Ok in H0 as (h0 & im0 & Him0 & H0).
  apply get_img_inv in Him0 as [-> Him0]. rewrite Him in Him0. injection Him0 as <-.
  pose proof (lookup_lt_Some _ _ _ Him) as Lself.
  apply lookup_lt_is_Some in Hx.
  apply bind_Ok in H0 as (h1 & d & Hd & H0).
  apply maybe_copy_inv in Hd as ((Hh1 & Hi1 & Ht1) & Hd).
  apply bind_Ok in H0 as (h2 & e & He & H0).
  apply maybe_copy_inv in He as ((Hh2 & Hi2 & Ht2) & He).
  apply bind_Ok in H0 as (h3 & q & Hq & H0).
  apply maybe_copy_inv in Hq as ((Hh3 & Hi3 & Ht3) & Hq).
  apply bind_Ok in H0 as (h4 & p & Hp & H0).
  apply hdr_copy_Ok in Hp as (hp & Hhp & -> & ->).
  apply bind_Ok in H0 as (h5 & x & Hx5 & H0).
  apply hdr_copy_Ok in Hx5 as (hx & Hhx & -> & ->).
  apply bind_Ok in H0 as (h6 & new' & Hinit & H0).
  apply Image_init_Ok in Hinit as (hx' & Hhx' & -> & Hb6 & Ht6 & Hi6 & Hh6).
  apply bind_Ok in H0 as (h7 & [] & Hm & H0).
  apply modify_img_inv in Hm as (im1 & Him1 & ->).
  apply bind_Ok in H0 as (h8 & [] & Hs1 & H0).
  apply hdr_set_inv in Hs1 as (hs & Hhs & ->).
  apply bind_Ok in H0 as (h9 & t & Hn & H0). injection Hn as <- <-.
  apply bind_Ok in H0 as (h10 & [] & Hs2 & H0).
  apply hdr_set_inv in Hs2 as (hs' & Hhs' & ->).
  injection H0 as <- <-. simpl in *.
  rewrite Hi3, Hi2, Hi1 in *.
  rewrite Hi6 in Him1. rewrite lookup_app_r in Him1 by lia.
  rewrite Nat.sub_diag in Him1. simpl in Him1. injection Him1 as <-.
  rewrite Hi6. split; [done|]. split.
  { rewrite list_lookup_insert_ne by lia. by rewrite lookup_app_l. }
  eexists. split.
  { rewrite list_lookup_insert_eq by (rewrite length_app; simpl; lia). reflexivity. }
  simpl. split; [done|]. split; [done|].
  rewrite Hb6.
  pose proof (contents_valid _ _ _ Hcd) as Vd.
  pose proof (contents_valid _ _ _ Hce) as Ve.
  pose proof (contents_valid _ _ _ Hcq) as Vq.
  destruct copy_data.
  - destruct Hd as (cd' & Hcd' & Hb1 & ->).
    destruct He as (ce' & Hce' & Hb2 & ->).
    destruct Hq as (cq' & Hcq' & Hb3 & ->).
    rewrite Hcd in Hcd'. injection Hcd' as <-.
    rewrite (contents_app (err im) h h1 [cd] Ve Hb1), Hce in Hce'.
    injection Hce' as <-.
    assert (Hb2' : bufs h2 = bufs h ++ [cd; ce]) by (by rewrite Hb2, Hb1, <- app_assoc).
    rewrite (contents_app (dq im) h h2 [cd; ce] Vq Hb2'), Hcq in Hcq'.
    injection Hcq' as <-.
    assert (Hb3' : bufs h3 = bufs h ++ [cd; ce; cq])
      by (by rewrite Hb3, Hb2', <- app_assoc).
    rewrite Hb2, Hb1, !length_app. simpl.
    split; [lia|]. split; [lia|]. split; [lia|].
    split; [lia|]. split; [lia|]. split; [lia|].
    pose proof (contents_length _ _ _ Hcd) as Ld.
    pose proof (contents_length _ _ _ Hce) as Le.
    pose proof (contents_length _ _ _ Hcq) as Lq.
    split; [|split; [|split]].
    + rewrite Hcd. apply (contents_fresh (bufs h) [ce; cq]); [done|done].
    + rewrite Hce.
      replace (length (bufs h) + 1)%nat with (length (bufs h ++ [cd]))
        by (rewrite length_app; simpl; lia).
      apply (contents_fresh (bufs h ++ [cd]) [cq]); [|done].
      simpl. by rewrite Hb3', <- app_assoc.
    + rewrite Hcq.
      replace (length (bufs h) + 1 + 1)%nat with (length (bufs h ++ [cd; ce]))
        by (rewrite length_app; simpl; lia).
      apply (contents_fresh (bufs h ++ [cd; ce]) []); [|done].
      simpl. by rewrite Hb3', <- app_assoc.
    + intros b Hb. rewrite Hb3'. by rewrite lookup_app_l.
  - destruct Hd as [-> ->]. destruct He as [-> ->]. destruct Hq as [-> ->]. done.
Qed.

(** A concrete run of [Image_copy_arrays]: the deep copy of the first
    frame of [two_frame_heap]. *)
Lemma Image_copy_arrays_witness :
  exists h' new im',
    @Image_copy demo_world 0%nat true two_frame_heap = (h', Ok new) /\
    imgs h' !! new = Some im' /\
    (6 <= buf (data im'))%nat /\
    contents (data im') h' = Some [1; 2]%Q.
Proof.
  destruct (@Image_copy demo_world 0%nat true two_frame_heap) as [h' r] eqn:E.
  assert (Hr : exists new, r = Ok new)
    by (vm_compute in E; injection E as _ <-; eexists; reflexivity).
  destruct Hr as [new ->].
  destruct (@Image_copy_arrays demo_world 0%nat true two_frame_heap h' new
              (MkImage (NdArray 0 0 [1; 2]%nat) (NdArray 1 0 [1; 2]%nat)
                       (NdArray 2 0 [1; 2]%nat) 0 1 "a.fits" ".")
              eq_refl (ex_intro _ _ eq_refl) (ex_intro _ _ eq_refl)
              (ex_intro _ _ eq_refl) (ex_intro _ _ eq_refl) E)
    as (_ & _ & im' & Him' & _ & _ & Hfresh & _ & _ & _ & _ & _ & Hc & _).
  exists h', new, im'. split; [reflexivity|]. split; [exact Him'|].
  split; [exact Hfresh|exact Hc].
Defined.

(** ** Dataset construction: the pixel values *)

Lemma np_array_contents a l h h' r :
  np_array (a :: l) h = (h', Ok r) ->
  exists cs,
    Forall2 (fun b c => contents b h = Some c) (a :: l) cs /\
    Forall (fun c => length c = size_of (shape a)) cs /\
    h' = set_bufs (bufs h ++ [concat cs]) h /\
    r = NdArray (length (bufs h)) 0 (S (length l) :: shape a).
Proof.
  unfold np_array.
  destruct (forallb _ _) eqn:Hall; [|discriminate].
  intros H. apply bind_Ok in H as (h1 & cs & Hcs & H).
  apply comprehension_read in Hcs as [-> Hcs].
  unfold alloc in H. injection H as <- <-.
  exists cs. split; [done|]. split; [|done].
  rewrite forallb_forall in Hall. clear -Hcs Hall.
  induction Hcs as [|b c l' cs' Hb _ IH]; constructor.
  - apply contents_length in Hb. rewrite Hb.
    assert (Hin : In b (b :: l')) by (left; done).
    apply Hall in Hin. apply bool_decide_eq_true in Hin. by rewrite Hin.
  - apply IH. intros x Hx. apply Hall. by right.
Qed.

(** The [k]-th chunk of a concatenation of chunks of one length. *)
Lemma concat_chunk {A} (cs : list (list A)) n : forall k c,
  Forall (fun c => length c = n) cs -> cs !! k = Some c ->
  take n (drop (k * n) (concat cs)) = c /\
  (k * n + n <= length (concat cs))%nat.
Proof.
  induction cs as [|c0 cs IH]; intros k c Hall Hk; [by rewrite lookup_nil in Hk|].
  apply Forall_cons in Hall as [H0 Hall].
  rewrite concat_cons, length_app.
  destruct k as [|k].
  - injection Hk as <-. rewrite Nat.mul_0_l, drop_0.
    split; [|lia]. by rewrite take_app_length'.
  - change ((c0 :: cs) !! S k) with (cs !! k) in Hk.
    destruct (IH k c Hall Hk) as [Ht Hl].
    replace (S k * n)%nat with (length c0 + k * n)%nat by lia.
    rewrite drop_app_add. split; [done|lia].
Qed.

(** X18.  [Dataset.__init__] stacks copies and keeps every pixel: the
    cube [all_data] holds the frames' data in the order of the list, each
    frame (of pairwise distinct Frame objects) reads after the call, through
    its re-pointed [data], the pixel values it read before, no buffer that
    existed before the call is changed, and no header either. *)
Theorem Dataset_init_keeps_pixels (fs : list loc) (h h' : heap) (d : Dataset) :
  NoDup fs ->
  Dataset_init fs h = (h', Ok d) ->
  (exists cs,
     Forall2 (fun f c => exists im, imgs h !! f = Some im /\
                                    contents (data im) h = Some c) fs cs /\
     contents (all_data d) h' = Some (concat cs)) /\
  (forall k f, fs !! k = Some f ->
     exists im im' c,
       imgs h !! f = Some im /\ imgs h' !! f = Some im' /\
       data im' = view (all_data d) k /\
       contents (data im) h = Some c /\ contents (data im') h' = Some c) /\
  (forall b, (b < length (bufs h))%nat -> bufs h' !! b = bufs h !! b) /\
  hdrs h' = hdrs h.
Proof.
  intros Hnd H. unfold Dataset_init in H.
  case_decide as Hlen; [discriminate|].
  apply bind_Ok in H as (h1 & ds & Hds & H).
  apply comprehension_attr in Hds as [-> Hds].
  apply bind_Ok in H as (h1 & ad & Had & H).
  apply bind_Ok in H as (h2 & es & Hes & H).
  apply comprehension_attr in Hes as [-> Hes].
  apply bind_Ok in H as (h2 & ae & Hae & H).
  apply bind_Ok in H as (h3 & qs & Hqs & H).
  apply comprehension_attr in Hqs as [-> Hqs].
  apply bind_Ok in H as (h3 & aq & Haq & H).
  apply bind_Ok in H as (h4 & [] & Hpf & H).
  injection H as <- <-.
  pose proof (Forall2_length _ _ _ Hds) as Lds.
  pose proof (Forall2_length _ _ _ Hes) as Les.
  pose proof (Forall2_length _ _ _ Hqs) as Lqs.
  destruct ds as [|a0 ds]; [simpl in Lds; lia|].
  destruct es as [|e0 es]; [simpl in Les; lia|].
  destruct qs as [|q0 qs]; [simpl in Lqs; lia|].
  apply np_array_contents in Had as (cs & Hcs & Hun & -> & ->).
  apply np_array_Ok in Hae as (c2 & -> & -> & Hc2).
  apply np_array_Ok in Haq as (c3 & -> & -> & Hc3).
  apply point_frames_Ok in Hpf as (Hb & Hh & Hfr & _); [|done].
  simpl in Hb, Hh. simpl.
  assert (Hbuf : bufs h4 = bufs h ++ [concat cs; c2; c3]).
  { rewrite Hb. by rewrite <- !app_assoc. }
  assert (Hcube : bufs h4 !! length (bufs h) = Some (concat cs)).
  { rewrite Hbuf. rewrite lookup_app_r by lia. by rewrite Nat.sub_diag. }
  assert (Hlc : length (concat cs) = (S (length ds) * size_of (shape a0))%nat).
  { rewrite (concat_length_uniform cs (size_of (shape a0)) Hun).
    by rewrite <- (Forall2_length _ _ _ Hcs). }
  assert (Hfc : Forall2 (fun f c => exists im, imgs h !! f = Some im /\
                                     contents (data im) h = Some c) fs cs).
  { apply Forall2_same_length_lookup_2.
    - by rewrite Lds, (Forall2_length _ _ _ Hcs).
    - intros i f c Hf Hc.
      destruct (Forall2_lookup_l _ _ _ _ _ Hds Hf) as (a & Ha & im & Him & ->).
      destruct (Forall2_lookup_l _ _ _ _ _ Hcs Ha) as (c' & Hc' & Hr).
      rewrite Hc in Hc'. injection Hc' as <-. eauto. }
  split; [|split; [|split]].
  - exists cs. split; [done|].
    unfold contents. simpl. rewrite Hcube. simpl.
    rewrite decide_True by (rewrite Hlc; simpl; lia).
    rewrite drop_0, take_ge; [done|]. rewrite Hlc. simpl. lia.
  - intros k f Hk.
    destruct (Hfr _ _ Hk) as (im & Him & Him' & Sd & _ & _).
    simpl in Him, Him'.
    destruct (Forall2_lookup_l _ _ _ _ _ Hfc Hk) as (c & Hc & im0 & Him0 & Hr).
    rewrite Him in Him0. injection Him0 as <-.
    eexists im, _, c. split; [done|]. split; [exact Him'|]. simpl.
    split; [done|]. split; [done|].
    unfold contents, view. simpl. rewrite Hcube. simpl.
    destruct (concat_chunk cs (size_of (shape a0)) k c Hun Hc) as [Ht Hl].
    rewrite decide_True by lia. by rewrite Ht.
  - intros b Hlt. rewrite Hbuf. by rewrite lookup_app_l.
  - done.
Qed.

(** A concrete run of [Dataset_init_keeps_pixels]: the two frames of
    [two_frame_heap]. *)
Lemma Dataset_init_keeps_pixels_witness :
  NoDup [0; 1]%nat /\
  exists h' d im',
    Dataset_init [0; 1]%nat two_frame_heap = (h', Ok d) /\
    contents (all_data d) h' = Some [1; 2; 3; 4]%Q /\
    imgs h' !! 1%nat = Some im' /\
    contents (data im') h' = Some [3; 4]%Q.
Proof.
  assert (Hnd : NoDup [0; 1]%nat).
  { apply NoDup_cons. split; [|apply NoDup_singleton].
    intros Hin. apply list_elem_of_singleton in Hin. discriminate Hin. }
  split; [exact Hnd|].
  destruct (Dataset_init [0; 1]%nat two_frame_heap) as [h' r] eqn:E.
  assert (Hr : exists d, r = Ok d)
    by (vm_compute in E; injection E as _ <-; eexists; reflexivity).
  destruct Hr as [d ->].
  destruct (Dataset_init_keeps_pixels [0; 1]%nat two_frame_heap h' d Hnd E)
    as ((cs & Hcs & Hall) & Hfr & _ & _).
  destruct (Hfr 1%nat 1%nat eq_refl) as (im & im' & c & Him & Him' & _ & Hc & Hc').
  injection Him as <-. vm_compute in Hc. injection Hc as <-.
  exists h', d, im'. split; [reflexivity|]. split; [|split; [exact Him'|exact Hc']].
  rewrite Hall. f_equal.
  apply Forall2_cons_inv_l in Hcs as (c0 & cs' & (im0 & Him0 & Hc0) & Hcs & ->).
  apply Forall2_cons_inv_l in Hcs as (c1 & cs'' & (im1 & Him1 & Hc1) & Hcs & ->).
  apply Forall2_nil_inv_l in Hcs as ->.
  injection Him0 as <-. injection Him1 as <-.
  vm_compute in Hc0, Hc1. injection Hc0 as <-. injection Hc1 as <-. reflexivity.
Defined.

(** ** Empty selections *)

(** X19.  A slice that selects no frame is an error, not an empty
    Dataset: [d[start:stop]] raises ValueError("Empty list passed in")
    whenever the clipped [stop] does not lie beyond the clipped [start], and
    then nothing in the store has changed (no frame is re-pointed). *)
Theorem Dataset_getitem_slice_empty (self : Dataset) (start stop : Z) (h : heap) :
  (slice_bound (length (frames self)) stop
   <= slice_bound (length (frames self)) start)%nat ->
  Dataset_getitem_slice self start stop h
  = (h, Raise (ValueError "Empty list passed in")).
Proof.
  intros Hle. unfold Dataset_getitem_slice, Dataset_init.
  rewrite decide_True; [done|].
  rewrite py_slice_length. lia.
Qed.

(** A concrete run of [Dataset_getitem_slice_empty]: [d[1:1]] and
    [d[5:2]] of the two-frame demo Dataset. *)
Lemma Dataset_getitem_slice_empty_witness :
  Dataset_getitem_slice demo_dataset 1 1 demo_heap
    = (demo_heap, Raise (ValueError "Empty list passed in")) /\
  Dataset_getitem_slice demo_dataset 5 2 demo_heap
    = (demo_heap, Raise (ValueError "Empty list passed in")).
Proof.
  split; apply Dataset_getitem_slice_empty; vm_compute; lia.
Defined.

(** ** The frame size of a custom geometry *)

(** X20.  [imaging_area_geometry] reads the frame size from the
    module-level table even when a custom table is passed: for an
    observation type that the built-in table lacks it ends in a KeyError
    whatever the custom table holds, and for one that the built-in table
    has, the returned size is the built-in frame size less the custom
    table's overscan and prescan. *)
Theorem imaging_area_geometry_frame_size (obstype : string)
    (custom : list (string * areas)) :
  (forall key, dict_get detector_areas obstype = KeyError key ->
     exists key', imaging_area_geometry obstype (Some custom) = KeyError key') /\
  (forall a g, dict_get detector_areas obstype = Got a ->
     imaging_area_geometry obstype (Some custom) = Got g ->
     exists pre ser par,
       unpack_geom obstype "prescan" (Some custom) = Got pre /\
       unpack_geom obstype "serial_overscan" (Some custom) = Got ser /\
       unpack_geom obstype "parallel_overscan" (Some custom) = Got par /\
       g.1.1 = (frame_rows a - par.1.1)%Z /\
       g.1.2 = (frame_cols a - pre.1.2 - ser.1.2)%Z).
Proof.
  unfold imaging_area_geometry. split.
  - intros key Hk.
    destruct (unpack_geom obstype "prescan" (Some custom)) as [pre|k1];
      [|by eexists].
    destruct (unpack_geom obstype "serial_overscan" (Some custom)) as [ser|k2];
      [|by eexists].
    destruct (unpack_geom obstype "parallel_overscan" (Some custom)) as [par|k3];
      [|by eexists].
    destruct (unpack_geom obstype "image" (Some custom)) as [img|k4];
      [|by eexists].
    cbn [keyed_bind]. rewrite Hk. by eexists.
  - intros a g Ha.
    destruct (unpack_geom obstype "prescan" (Some custom)) as [pre|k1];
      [|discriminate].
    destruct (unpack_geom obstype "serial_overscan" (Some custom)) as [ser|k2];
      [|discriminate].
    destruct (unpack_geom obstype "parallel_overscan" (Some custom)) as [par|k3];
      [|discriminate].
    destruct (unpack_geom obstype "image" (Some custom)) as [img|k4];
      [|discriminate].
    cbn [keyed_bind]. rewrite Ha. cbn [keyed_bind]. intros [= <-].
    exists pre, ser, par. done.
Qed.

(** A concrete run of [imaging_area_geometry_frame_size]: a custom table
    for an observation type 'LAB' of 100 x 100 frames. *)
Lemma imaging_area_geometry_frame_size_witness :
  let custom := [("LAB", MkAreas 100 100
                    [("image", plain 80 80 10 10);
                     ("prescan", plain 100 10 0 0);
                     ("parallel_overscan", plain 10 80 90 10);
                     ("serial_overscan", plain 100 10 0 90)])]%Z in
  imaging_area_geom "LAB" (Some custom) = Got (90, 80, (0, 10))%Z /\
  exists key, imaging_area_geometry "LAB" (Some custom) = KeyError key.
Proof.
  intros custom. split; [reflexivity|].
  exact (proj1 (imaging_area_geometry_frame_size "LAB" custom) "LAB" eq_refl).
Defined.

(** ** update_to_l2a *)

Lemma is_L1_true v : is_L1 v = true <-> v = HStr "L1".
Proof.
  destruct v as [s| |]; simpl; try (split; [discriminate|discriminate]).
  rewrite bool_decide_eq_true. split; [by intros ->|by intros [= ->]].
Qed.

Lemma get_img_Raise l h h' e : get_img l h = (h', Raise e) -> e = BadReference.
Proof. unfold get_img, lift_opt. destruct (imgs h !! l); by intros [= _ <-]. Qed.

Lemma get_hdr_Raise l h h' e : get_hdr l h = (h', Raise e) -> e = BadReference.
Proof. unfold get_hdr, lift_opt. destruct (hdrs h !! l); by intros [= _ <-]. Qed.

Lemma check_l1_inv fs : forall h h' r,
  check_l1 fs h = (h', r) ->
  h' = h /\
  match r with
  | Ok (Got _) => Forall (fun f => data_level f h = Some (HStr "L1")) fs
  | Raise (ValueError msg) =>
      exists f im v, f ∈ fs /\ imgs h !! f = Some im /\
        data_level f h = Some v /\ v <> HStr "L1" /\
        msg = (filename im ++ " needs to be L1 data, but it is True data instead")%string
  | _ => exists f, f ∈ fs /\ data_level f h = None
  end.
Proof.
  induction fs as [|f fs IH]; intros h h' r; simpl.
  - intros [= <- <-]. split; [done|constructor].
  - unfold py_bind at 1.
    destruct (get_img f h) as [h1 [im|e]] eqn:E.
    2:{ pose proof (get_img_Raise _ _ _ _ E) as ->.
        apply get_img_inv in E as [-> E]. intros [= <- <-]. split; [done|].
        exists f. split; [by left|]. unfold data_level. by rewrite E. }
    apply get_img_inv in E as [-> E].
    unfold py_bind at 1.
    destruct (get_hdr (ext_hdr im) h) as [h1 [hd|e]] eqn:E2.
    2:{ pose proof (get_hdr_Raise _ _ _ _ E2) as ->.
        apply get_hdr_inv in E2 as [-> E2]. intros [= <- <-]. split; [done|].
        exists f. split; [by left|]. unfold data_level. rewrite E. simpl.
        by rewrite E2. }
    apply get_hdr_inv in E2 as [-> E2].
    assert (Hlev : data_level f h = header_get "DATA_LEVEL" hd).
    { unfold data_level. rewrite E. simpl. by rewrite E2. }
    destruct (header_get "DATA_LEVEL" hd) as [v|] eqn:Hv.
    2:{ intros [= <- <-]. split; [done|]. exists f. split; [by left|done]. }
    destruct (is_L1 v) eqn:Hne; simpl.
    2:{ intros [= <- <-]. split; [done|].
        exists f, im, v. split; [by left|]. split; [done|]. split; [done|].
        split; [|done]. intros Hc. apply is_L1_true in Hc. congruence. }
    apply is_L1_true in Hne as ->.
    intros Hrest. apply IH in Hrest as [-> Hrest]. split; [done|].
    destruct r as [[[]|key]|e].
    + by constructor.
    + destruct Hrest as (f' & Hin & Hnone). exists f'. split; [by right|done].
    + destruct e; try (destruct Hrest as (f' & Hin & Hnone); exists f';
                       split; [by right|done]).
      destruct Hrest as (f' & im' & v' & Hin & Hrest).
      exists f', im', v'. split; [by right|done].
Qed.

(** X21.  [update_to_l2a] checks before it copies.  An input of which
    every frame records a data level, one of them other than "L1", is
    refused with a ValueError and the store is exactly as before the call
    (no frame copied, no header stamped).  The message is the filename of a
    frame that is not at L1, followed by " needs to be L1 data, but it is
    True data instead": it does not name the level found. *)
Theorem update_to_l2a_rejects `{World} (input_dataset : Dataset) (h : heap) :
  Forall (fun f => is_Some (data_level f h)) (frames input_dataset) ->
  Exists (fun f => data_level f h <> Some (HStr "L1")) (frames input_dataset) ->
  exists f im v,
    f ∈ frames input_dataset /\ imgs h !! f = Some im /\
    data_level f h = Some v /\ v <> HStr "L1" /\
    update_to_l2a input_dataset h
    = (h, Raise (ValueError (filename im ++
                   " needs to be L1 data, but it is True data instead"))).
Proof.
  intros Hall Hex. unfold update_to_l2a, py_bind.
  destruct (check_l1 (frames input_dataset) h) as [h1 r] eqn:E.
  apply check_l1_inv in E as [-> E].
  assert (Hsome : forall f, f ∈ frames input_dataset -> data_level f h <> None).
  { intros f Hf Hn. rewrite Forall_forall in Hall.
    destruct (Hall f Hf) as [v Hv]. congruence. }
  destruct r as [[[]|key]|e].
  - exfalso. apply Exists_exists in Hex as (f & Hf & Hne).
    rewrite Forall_forall in E. by apply Hne, E.
  - exfalso. destruct E as (f & Hf & Hn). by apply (Hsome f).
  - destruct e; try (exfalso; destruct E as (f & Hf & Hn); by apply (Hsome f)).
    destruct E as (f & im & v & Hf & Him & Hv & Hne & ->).
    exists f, im, v. done.
Qed.

(** A concrete run of [update_to_l2a_rejects]: the second frame is at
    L2a already. *)
Lemma update_to_l2a_rejects_witness :
  @update_to_l2a demo_world two_frames mixed_heap
  = (mixed_heap,
     Raise (ValueError "b.fits needs to be L1 data, but it is True data instead")).
Proof.
  destruct (@update_to_l2a_rejects demo_world two_frames mixed_heap)
    as (f & im & v & Hf & Him & Hv & Hne & Hrun).
  - repeat constructor; vm_compute; eauto.
  - apply Exists_cons_tl, Exists_cons_hd. vm_compute. discriminate.
  - rewrite Hrun. f_equal. f_equal. f_equal.
    apply elem_of_cons in Hf as [->|Hf].
    { exfalso. vm_compute in Hv. injection Hv as <-. by apply Hne. }
    apply list_elem_of_singleton in Hf as ->.
    vm_compute in Him. by injection Him as <-.
Defined.

(** ** update_to_l2a: what the copy and the loops keep *)

Lemma header_get_other_cards k hd :
  k <> "HISTORY" -> header_get k (other_cards hd) = header_get k hd.
Proof.
  intros Hk. induction hd as [|c hd IH]; [done|].
  rewrite other_cards_cons, (header_get_cons k c hd).
  destruct (bool_decide (c.1 = "HISTORY")) eqn:Hc; simpl.
  - apply bool_decide_eq_true in Hc.
    rewrite bool_decide_eq_false_2 by congruence. done.
  - rewrite header_get_cons. by rewrite IH.
Qed.

Lemma header_get_history_iter k n v hd :
  k <> "HISTORY" ->
  header_get k (Nat.iter n (header_update "HISTORY" v) hd) = header_get k hd.
Proof.
  intros Hk. rewrite <- (header_get_other_cards k (Nat.iter _ _ _)) by done.
  rewrite other_cards_iter. by apply header_get_other_cards.
Qed.

#[local] Instance keeps_old_refl : Reflexive keeps_old.
Proof. intros h. unfold keeps_old. eauto 10. Qed.

#[local] Instance keeps_old_trans : Transitive keeps_old.
Proof.
  intros h1 h2 h3 (L1 & M1 & I1 & H1) (L2 & M2 & I2 & H2).
  split; [lia|]. split; [lia|]. split.
  - intros l im Him. destruct (I1 l im Him) as (im1 & Him1 & E1).
    destruct (I2 l im1 Him1) as (im2 & Him2 & E2). exists im2. split; [done|congruence].
  - intros x hd Hx. destruct (H1 x hd Hx) as (hd1 & Hx1 & E1).
    destruct (H2 x hd1 Hx1) as (hd2 & Hx2 & E2). exists hd2. split; [done|congruence].
Qed.

Lemma keeps_old_level h h1 f v :
  keeps_old h h1 -> data_level f h = Some v -> data_level f h1 = Some v.
Proof.
  intros (_ & _ & HI & HH). unfold data_level.
  destruct (imgs h !! f) as [im|] eqn:Him; [|discriminate]. simpl.
  destruct (hdrs h !! ext_hdr im) as [hd|] eqn:Hhd; [|discriminate]. simpl.
  intros Hv. destruct (HI f im Him) as (im1 & -> & E1). simpl. rewrite E1.
  destruct (HH _ hd Hhd) as (hd1 & -> & E). simpl. congruence.
Qed.

(** The loop that writes the new level. *)
Lemma level_loop_Ok fs : forall h h',
  for_each (fun f => let* frame := get_img f in
                     hdr_set (ext_hdr frame) "DATA_LEVEL" (HStr "L2a")) fs h
    = (h', Ok tt) ->
  bufs h' = bufs h /\ imgs h' = imgs h /\
  (forall f, f ∈ fs -> exists im, imgs h !! f = Some im /\
                                  is_Some (hdrs h !! ext_hdr im)) /\
  (forall x hd, hdrs h !! x = Some hd ->
     exists hd', hdrs h' !! x = Some hd' /\
       ((exists f im, f ∈ fs /\ imgs h !! f = Some im /\ ext_hdr im = x) ->
        header_get "DATA_LEVEL" hd' = Some (HStr "L2a")) /\
       ((forall f im, f ∈ fs -> imgs h !! f = Some im -> ext_hdr im <> x) ->
        hd' = hd) /\
       (header_get "DATA_LEVEL" hd = Some (HStr "L2a") ->
        header_get "DATA_LEVEL" hd' = Some (HStr "L2a"))).
Proof.
  induction fs as [|f fs IH]; intros h h' H; simpl in H.
  - injection H as <-. split; [done|]. split; [done|]. split.
    { intros f Hf. by apply elem_of_nil in Hf. }
    intros x hd Hx. exists hd. split; [done|]. split; [|done].
    intros (f & im & Hf & _). by apply elem_of_nil in Hf.
  - apply bind_Ok in H as (h1 & [] & Hb & H).
    apply bind_Ok in Hb as (h0 & im0 & Him0 & Hset).
    apply get_img_inv in Him0 as [-> Him0].
    apply hdr_set_inv in Hset as (hd0 & Hhd0 & ->).
    apply IH in H as (Hbufs & Himgs & Hmem & Hhd). simpl in *.
    split; [done|]. split; [done|]. split.
    { intros f' Hf'. apply elem_of_cons in Hf' as [->|Hf']; [eauto|].
      destruct (Hmem _ Hf') as (im' & Him' & Hx'). exists im'. split; [done|].
      apply lookup_lt_is_Some. apply lookup_lt_is_Some in Hx'.
      by rewrite length_insert in Hx'. }
    intros x hd Hx.
    assert (Hnew : header_get "DATA_LEVEL"
                     (header_update "DATA_LEVEL" (HStr "L2a") hd0)
                   = Some (HStr "L2a")) by (by apply header_get_header_update).
    destruct (decide (ext_hdr im0 = x)) as [Heq|Hne].
    + subst x. rewrite Hx in Hhd0. injection Hhd0 as <-.
      destruct (Hhd (ext_hdr im0) (header_update "DATA_LEVEL" (HStr "L2a") hd))
        as (hd' & Hx' & _ & _ & Hkeep).
      { apply list_lookup_insert_eq. by eapply lookup_lt_Some. }
      exists hd'. split; [done|]. split; [by auto|]. split; [|by auto].
      intros Hno. exfalso. apply (Hno f im0); [by left|done|done].
    + destruct (Hhd x hd) as (hd' & Hx' & Hset & Hsame & Hkeep).
      { by rewrite list_lookup_insert_ne. }
      exists hd'. split; [done|]. split; [|split; [|done]].
      * intros (f' & im' & Hf' & Him' & Hx'').
        apply elem_of_cons in Hf' as [->|Hf'].
        { rewrite Him0 in Him'. injection Him' as <-. done. }
        apply Hset. eauto.
      * intros Hno. apply Hsame. intros f' im' Hf' Him'.
        apply (Hno f' im'); [by right|done].
Qed.

(** [Image.copy] keeps the old objects and creates a new frame. *)
Lemma Image_copy_keeps_old `{World} self copy_data h h' new :
  is_Some (data_level self h) ->
  Image_copy self copy_data h = (h', Ok new) ->
  keeps_old h h' /\ created_after h h' new.
Proof.
  intros [v Hv] Hrun.
  assert (Hwf : forall im, imgs h !! self = Some im -> is_Some (hdrs h !! ext_hdr im)).
  { intros im Him. unfold data_level in Hv. rewrite Him in Hv. simpl in Hv.
    destruct (hdrs h !! ext_hdr im); [eauto|discriminate]. }
  apply Image_copy_Ok in Hrun
    as (im & hp & hx & d & e & q & Him & Hhp & Hhx & -> & Lb & Ht & Hi & _ & _ & _ & Hh);
    [|done].
  pose proof (lookup_lt_Some _ _ _ Hhx) as Lx.
  split.
  - split; [|split; [|split]].
    + rewrite Hh, length_insert, length_app. lia.
    + rewrite Hi, length_app. lia.
    + intros l im1 Hl. exists im1. split; [|done]. rewrite Hi. by apply lookup_app_l_Some.
    + intros x hd Hx. pose proof (lookup_lt_Some _ _ _ Hx) as Lx'. rewrite Hh.
      destruct (decide (ext_hdr im = x)) as [<-|Hne].
      * rewrite Hx in Hhx. injection Hhx as <-.
        eexists. split.
        { apply list_lookup_insert_eq. rewrite length_app. lia. }
        rewrite !header_get_header_update_ne by done. done.
      * exists hd. split; [|done]. rewrite list_lookup_insert_ne by done.
        by apply lookup_app_l_Some.
  - split; [done|]. eexists. split.
    + rewrite Hi. rewrite lookup_app_r by lia. rewrite Nat.sub_diag. reflexivity.
    + simpl. lia.
Qed.

Lemma created_after_later h h1 h2 f :
  keeps_old h1 h2 -> created_after h h1 f -> created_after h h2 f.
Proof.
  intros (_ & _ & HI & _) (Hf & im & Him & Hx). split; [done|].
  destruct (HI f im Him) as (im2 & Him2 & E). exists im2. split; [done|]. by rewrite E.
Qed.

Lemma created_after_earlier h0 h h1 f :
  keeps_old h0 h -> created_after h h1 f -> created_after h0 h1 f.
Proof.
  intros (L & M & _ & _) (Hf & im & Him & Hx). split; [lia|].
  exists im. split; [done|lia].
Qed.

(** The list comprehension of [Dataset.copy]. *)
Lemma copies_keep_old `{World} copy_data fs : forall h h' new_frames,
  Forall (fun f => is_Some (data_level f h)) fs ->
  comprehension (fun f => Image_copy f copy_data) fs h = (h', Ok new_frames) ->
  keeps_old h h' /\ Forall (created_after h h') new_frames /\
  length new_frames = length fs.
Proof.
  induction fs as [|f fs IH]; intros h h' nfs Hall Hrun; simpl in Hrun.
  - injection Hrun as <- <-. split; [reflexivity|]. split; [constructor|done].
  - apply Forall_cons in Hall as [Hf Hall].
    apply bind_Ok in Hrun as (h1 & nf & Hcopy & Hrun).
    apply bind_Ok in Hrun as (h2 & nfs' & Hrest & Hrun).
    injection Hrun as <- <-.
    destruct (Image_copy_keeps_old _ _ _ _ _ Hf Hcopy) as [Hk1 Hc1].
    destruct (IH h1 h2 nfs') as (Hk2 & Hc2 & Hlen); [|done|].
    { eapply Forall_impl; [exact Hall|]. intros g [v Hv].
      exists v. by eapply keeps_old_level. }
    split; [by etransitivity|]. split; [|simpl; by rewrite Hlen].
    constructor.
    + by eapply created_after_later.
    + eapply Forall_impl; [exact Hc2|]. intros g Hg.
      by eapply created_after_earlier.
Qed.

Lemma point_frames_keeps_old ad ae aq fs : forall i h h',
  point_frames ad ae aq i fs h = (h', Ok tt) -> keeps_old h h'.
Proof.
  induction fs as [|f fs IH]; intros i h h' Hrun; simpl in Hrun.
  - injection Hrun as <-. reflexivity.
  - apply bind_Ok in Hrun as (h1 & d & Hd & Hrun).
    apply subarray_inv in Hd as [-> _].
    apply bind_Ok in Hrun as (h1 & e & He & Hrun).
    apply subarray_inv in He as [-> _].
    apply bind_Ok in Hrun as (h1 & q & Hq & Hrun).
    apply subarray_inv in Hq as [-> _].
    apply bind_Ok in Hrun as (h1 & [] & Hm & Hrun).
    apply modify_img_inv in Hm as (im & Him & ->).
    apply IH in Hrun. etransitivity; [|exact Hrun].
    split; [done|]. split; [simpl; by rewrite length_insert|]. split.
    + intros l im1 Hl. simpl.
      destruct (decide (f = l)) as [->|Hne].
      * rewrite Him in Hl. injection Hl as <-. eexists. split.
        { apply list_lookup_insert_eq. by eapply lookup_lt_Some. }
        done.
      * exists im1. split; [|done]. by rewrite list_lookup_insert_ne.
    + intros x hd Hx. exists hd. done.
Qed.

Lemma keeps_old_set_bufs bs h : keeps_old h (set_bufs bs h).
Proof. unfold keeps_old. simpl. eauto 10. Qed.

Lemma Dataset_init_keeps_old fs h h' d :
  Dataset_init fs h = (h', Ok d) -> frames d = fs /\ keeps_old h h'.
Proof.
  intros Hrun. unfold Dataset_init in Hrun.
  case_decide as Hlen; [discriminate|].
  apply bind_Ok in Hrun as (h1 & ds & Hds & Hrun).
  apply comprehension_attr in Hds as [-> Hds].
  apply bind_Ok in Hrun as (h1 & ad & Had & Hrun).
  apply bind_Ok in Hrun as (h2 & es & Hes & Hrun).
  apply comprehension_attr in Hes as [-> Hes].
  apply bind_Ok in Hrun as (h2 & ae & Hae & Hrun).
  apply bind_Ok in Hrun as (h3 & qs & Hqs & Hrun).
  apply comprehension_attr in Hqs as [-> Hqs].
  apply bind_Ok in Hrun as (h3 & aq & Haq & Hrun).
  apply bind_Ok in Hrun as (h4 & [] & Hpf & Hrun).
  injection Hrun as <- <-.
  pose proof (Forall2_length _ _ _ Hds) as Lds.
  pose proof (Forall2_length _ _ _ Hes) as Les.
  pose proof (Forall2_length _ _ _ Hqs) as Lqs.
  destruct ds as [|a0 ds]; [simpl in Lds; lia|].
  destruct es as [|e0 es]; [simpl in Les; lia|].
  destruct qs as [|q0 qs]; [simpl in Lqs; lia|].
  apply np_array_Ok in Had as (c1 & -> & -> & _).
  apply np_array_Ok in Hae as (c2 & -> & -> & _).
  apply np_array_Ok in Haq as (c3 & -> & -> & _).
  apply point_frames_keeps_old in Hpf.
  split; [done|].
  etransitivity; [apply keeps_old_set_bufs|].
  etransitivity; [apply keeps_old_set_bufs|].
  etransitivity; [apply keeps_old_set_bufs|]. exact Hpf.
Qed.

Lemma data_level_inv f h v :
  data_level f h = Some v ->
  exists im hd, imgs h !! f = Some im /\ hdrs h !! ext_hdr im = Some hd /\
                header_get "DATA_LEVEL" hd = Some v.
Proof.
  unfold data_level.
  destruct (imgs h !! f) as [im|]; [|discriminate]. simpl.
  destruct (hdrs h !! ext_hdr im) as [hd|] eqn:Hhd; [|discriminate]. simpl.
  intros Hv. by exists im, hd.
Qed.

(** X22.  A successful [update_to_l2a] returns a Dataset of new Image
    objects, as many as the input has frames, each recording the level
    "L2a"; every frame of the input was at "L1" and still records "L1"
    after the call: the input dataset is not upgraded, the copy is. *)
Theorem update_to_l2a_returns_copy `{World} (input_dataset : Dataset)
    (h h' : heap) (updated_dataset : Dataset) :
  update_to_l2a input_dataset h = (h', Ok (Got updated_dataset)) ->
  Forall (fun f => data_level f h = Some (HStr "L1")) (frames input_dataset) /\
  length (frames updated_dataset) = length (frames input_dataset) /\
  Forall (fun f => length (imgs h) <= f)%nat (frames updated_dataset) /\
  Forall (fun f => data_level f h' = Some (HStr "L2a")) (frames updated_dataset) /\
  Forall (fun f => data_level f h' = Some (HStr "L1")) (frames input_dataset).
Proof.
  intros Hrun. unfold update_to_l2a in Hrun.
  apply bind_Ok in Hrun as (h0 & c & Hc & Hrun).
  apply check_l1_inv in Hc as [-> Hc].
  destruct c as [[]|key]; [|discriminate].
  apply bind_Ok in Hrun as (h2 & upd & Hcopy & Hrun).
  unfold Dataset_copy in Hcopy.
  apply bind_Ok in Hcopy as (h1 & nfs & Hcomp & Hinit).
  apply copies_keep_old in Hcomp as (Hk1 & Hc1 & Hlen).
  2:{ eapply Forall_impl; [exact Hc|]. intros f Hf. simpl in Hf. by rewrite Hf. }
  apply Dataset_init_keeps_old in Hinit as [Hfr Hk2].
  assert (Hk : keeps_old h h2) by (by etransitivity).
  assert (Hnew : Forall (created_after h h2) nfs).
  { eapply Forall_impl; [exact Hc1|]. intros g Hg.
    exact (created_after_later _ _ _ _ Hk2 Hg). }
  apply bind_Ok in Hrun as (h3 & [] & Hlev & Hrun).
  apply level_loop_Ok in Hlev as (_ & Hi3 & Hmem & Hh3).
  apply bind_Ok in Hrun as (h4 & [] & Hupd & Hrun).
  injection Hrun as <- <-.
  unfold update_after_processing_step in Hupd. simpl in Hupd.
  apply bind_Ok in Hupd as (h5 & [] & Hr1 & Hupd). injection Hr1 as <-.
  apply bind_Ok in Hupd as (h5 & [] & Hr2 & Hupd). injection Hr2 as <-.
  apply bind_Ok in Hupd as (h5 & [] & Hr3 & Hupd). injection Hr3 as <-.
  apply history_loop_Ok in Hupd as (_ & Hi4 & _ & Hh4).
  rewrite Hfr in *.
  assert (Hfin : forall f im hd3,
            imgs h2 !! f = Some im -> hdrs h3 !! ext_hdr im = Some hd3 ->
            data_level f h4 = header_get "DATA_LEVEL" hd3).
  { intros f im hd3 Him Hhd. unfold data_level. rewrite Hi4, Hi3, Him. simpl.
    rewrite (Hh4 _ _ Hhd). simpl. by apply header_get_history_iter. }
  split; [done|]. split; [done|]. split; [|split].
  - eapply Forall_impl; [exact Hnew|]. by intros g [Hg _].
  - apply Forall_forall. intros f Hf.
    destruct (Hmem f Hf) as (im & Him & [hd Hhd]).
    destruct (Hh3 _ _ Hhd) as (hd3 & Hhd3 & Hset & _ & _).
    rewrite (Hfin f im hd3 Him Hhd3). apply Hset. by exists f, im.
  - apply Forall_forall. intros f Hf.
    rewrite Forall_forall in Hc. specialize (Hc f Hf). simpl in Hc.
    destruct (data_level_inv _ _ _ Hc) as (im & hd & Him & Hhd & _).
    pose proof (lookup_lt_Some _ _ _ Hhd) as Lx.
    pose proof (keeps_old_level h h2 f _ Hk Hc) as Hc2.
    destruct Hk as (_ & _ & HI & _).
    destruct (HI f im Him) as (im2 & Him2 & Eext).
    destruct (data_level_inv _ _ _ Hc2) as (im2' & hd2 & Him2' & Hhd2 & Hl2).
    rewrite Him2 in Him2'. injection Him2' as <-.
    destruct (Hh3 _ _ Hhd2) as (hd3 & Hhd3 & _ & Hsame & _).
    rewrite (Hfin f im2 hd3 Him2 Hhd3).
    rewrite Hsame; [done|].
    intros g img Hg Himg Hx.
    rewrite Forall_forall in Hnew. destruct (Hnew g Hg) as (_ & img' & Himg' & Lg).
    rewrite Himg in Himg'. injection Himg' as <-. lia.
Qed.

(** A concrete run of [update_to_l2a_returns_copy]: the two L1 frames of
    [l1_heap]. *)
Lemma update_to_l2a_returns_copy_witness :
  exists h' out,
    @update_to_l2a demo_world two_frames l1_heap = (h', Ok (Got out)) /\
    frames out = [2; 3]%nat /\
    data_level 3%nat h' = Some (HStr "L2a") /\
    data_level 1%nat h' = Some (HStr "L1").
Proof.
  destruct (@update_to_l2a demo_world two_frames l1_heap) as [h' r] eqn:E.
  assert (Hr : exists out, r = Ok (Got out) /\ frames out = [2; 3]%nat)
    by (vm_compute in E; injection E as _ <-; eexists; split; reflexivity).
  destruct Hr as (out & -> & Hfr).
  destruct (@update_to_l2a_returns_copy demo_world two_frames l1_heap h' out E)
    as (_ & _ & _ & Hout & Hin).
  exists h', out. split; [reflexivity|]. split; [exact Hfr|].
  rewrite Hfr in Hout. split.
  - apply Forall_cons in Hout as [_ Hout]. by apply Forall_cons in Hout as [Hout _].
  - apply Forall_cons in Hin as [_ Hin]. by apply Forall_cons in Hin as [Hin _].
Defined.
